(** * TF-GAT: the dataset loader of [gnn/data/dataset.py]

    A shallow embedding of the tokenizers and of [GraphDataset], with the
    properties of its construction pipeline.

    Conventions of the embedding.
    - A Python [str] is a [string]; a character stands for the code point
      of the same number, so the texts covered are those whose code points
      are below 256.
    - A Python [dict] is a [gmap]; [len] of a dict is [size].
    - A raised exception is the [Raise] branch of [result]; code running
      after a [raise] is the code that is not run by [bind].
    - [self] is passed and returned explicitly. *)

From Stdlib Require Import ZArith NArith Ascii String List Lia.
From stdpp Require Import base option list gmap strings.

Local Open Scope string_scope.
Local Open Scope list_scope.

(** ** Exceptions *)

Inductive exn : Type :=
| KeyError
| ValueError
| IndexError
| TypeError
| UnboundLocalError
| NotImplementedError
| FileNotFoundError.

Inductive result (A : Type) : Type :=
| Ok (a : A)
| Raise (e : exn).

Arguments Ok {A} a.
Arguments Raise {A} e.

Definition bind {A B : Type} (r : result A) (k : A -> result B) : result B :=
  match r with
  | Ok a => k a
  | Raise e => Raise e
  end.

Notation "x <- r ;; k" := (bind r (fun x => k))
  (at level 100, r at next level, right associativity).

(** [for x in xs: body], where [body] may raise; [continue] is [Ok]. *)
Fixpoint for_each {S A : Type} (body : S -> A -> result S) (s : S) (xs : list A)
  : result S :=
  match xs with
  | [] => Ok s
  | x :: xs' => s' <- body s x ;; for_each body s' xs'
  end.

(** Whether a run returned, and what it returned ([d] when it raised). *)
Definition is_ok {A : Type} (r : result A) : bool :=
  match r with
  | Ok _ => true
  | Raise _ => false
  end.

Definition result_get {A : Type} (d : A) (r : result A) : A :=
  match r with
  | Ok a => a
  | Raise _ => d
  end.

(** ** Characters and the string primitives of Python used by the loader *)

Definition code (c : ascii) : N := N_of_ascii c.

(** [str.isspace] on one character: TAB..CR, FS..US, space, NEL, NBSP. *)
Definition isspace (c : ascii) : bool :=
  let n := code c in
  ((9 <=? n) && (n <=? 13) || (28 <=? n) && (n <=? 32)
   || (n =? 133) || (n =? 160))%N.

Definition is_upper_az (c : ascii) : bool := ((65 <=? code c) && (code c <=? 90))%N.
Definition is_lower_az (c : ascii) : bool := ((97 <=? code c) && (code c <=? 122))%N.

(** The character class [a-zA-Z]. *)
Definition is_letter (c : ascii) : bool := is_lower_az c || is_upper_az c.

(** [str.lower] on one character: A..Z and the capital letters of the
    upper half (192..222 without the multiplication sign 215) move up
    by 32, everything else stays. *)
Definition lower_char (c : ascii) : ascii :=
  let n := code c in
  if (is_upper_az c || (192 <=? n) && (n <=? 222) && negb (n =? 215))%N
  then ascii_of_N (n + 32) else c.

Fixpoint map_chars (f : ascii -> ascii) (s : string) : string :=
  match s with
  | EmptyString => EmptyString
  | String c s' => String (f c) (map_chars f s')
  end.

(** [s.lower()] *)
Definition str_lower (s : string) : string := map_chars lower_char s.

(** [re.compile("[^a-zA-Z]").sub(" ", s)] *)
Definition punc_re_sub_space (s : string) : string :=
  map_chars (fun c => if is_letter c then c else " "%char) s.

(** The word under construction is emitted when it is not empty. *)
Definition emit (cur : string) (rest : list string) : list string :=
  match cur with
  | EmptyString => rest
  | _ => cur :: rest
  end.

(** [s.split()]: the scan of [str.split] without separator; [cur] is the
    word read so far. *)
Fixpoint split_from (cur : string) (s : string) : list string :=
  match s with
  | EmptyString => emit cur []
  | String c s' =>
      if isspace c then emit cur (split_from EmptyString s')
      else split_from (cur ++ String c EmptyString) s'
  end.

Definition str_split (s : string) : list string := split_from EmptyString s.

Fixpoint lstrip_ws (s : string) : string :=
  match s with
  | EmptyString => EmptyString
  | String c s' => if isspace c then lstrip_ws s' else s
  end.

(** [re.split(r"\s+", s, 1)]: cut at the first run of whitespace. *)
Fixpoint re_split_ws_1 (s : string) : list string :=
  match s with
  | EmptyString => [EmptyString]
  | String c s' =>
      if isspace c then [EmptyString; lstrip_ws s']
      else match re_split_ws_1 s' with
           | [] => [String c EmptyString]
           | h :: t => String c h :: t
           end
  end.

(** ** Tokenizer *)

(** The three classes of the module; [Tokenizer_base] is the abstract one,
    whose [tokenize] raises. *)
Inductive TokenizerClass : Type :=
| Tokenizer_base
| WhiteSpaceTokenizer_class
| EnglishWordTokenizer_class.

Record Tokenizer : Type := mkTokenizer {
  tokenizer_class : TokenizerClass;
  token_id_index_dict : gmap string nat;
  token_index_id_dict : gmap nat string
}.

(** [__init__] *)
Definition Tokenizer_new (cls : TokenizerClass) : Tokenizer :=
  {| tokenizer_class := cls;
     token_id_index_dict := ∅;
     token_index_id_dict := ∅ |}.

Definition WhiteSpaceTokenizer : Tokenizer := Tokenizer_new WhiteSpaceTokenizer_class.
Definition EnglishWordTokenizer : Tokenizer := Tokenizer_new EnglishWordTokenizer_class.

Definition num_tokens (self : Tokenizer) : nat := size (token_id_index_dict self).

Definition get_or_create_token_index (self : Tokenizer) (token_id : string)
  : nat * Tokenizer :=
  match token_id_index_dict self !! token_id with
  | Some i => (i, self)
  | None =>
      let token_index := num_tokens self in
      (token_index,
       {| tokenizer_class := tokenizer_class self;
          token_id_index_dict := <[token_id := token_index]> (token_id_index_dict self);
          token_index_id_dict := <[token_index := token_id]> (token_index_id_dict self) |})
  end.

Definition get_token_index (self : Tokenizer) (token_id : string) : result nat :=
  match token_id_index_dict self !! token_id with
  | Some i => Ok i
  | None => Raise KeyError
  end.

Definition WhiteSpaceTokenizer_tokenize (s : string) : list string := str_split s.

Definition EnglishWordTokenizer_tokenize (s : string) : list string :=
  let s := str_lower s in
  let s := punc_re_sub_space s in
  str_split s.

Definition tokenize (self : Tokenizer) (s : string) : result (list string) :=
  match tokenizer_class self with
  | Tokenizer_base => Raise NotImplementedError
  | WhiteSpaceTokenizer_class => Ok (WhiteSpaceTokenizer_tokenize s)
  | EnglishWordTokenizer_class => Ok (EnglishWordTokenizer_tokenize s)
  end.

(** [[self.get_or_create_token_index(t) for t in token_ids]] *)
Fixpoint get_or_create_token_indices (self : Tokenizer) (token_ids : list string)
  : list nat * Tokenizer :=
  match token_ids with
  | [] => ([], self)
  | token_id :: rest =>
      let '(i, self) := get_or_create_token_index self token_id in
      let '(indices, self) := get_or_create_token_indices self rest in
      (i :: indices, self)
  end.

(** [[self.get_token_index(t) for t in token_ids]] *)
Fixpoint get_token_indices (self : Tokenizer) (token_ids : list string)
  : result (list nat) :=
  match token_ids with
  | [] => Ok []
  | token_id :: rest =>
      i <- get_token_index self token_id ;;
      indices <- get_token_indices self rest ;;
      Ok (i :: indices)
  end.

Definition tokenize_to_indices (self : Tokenizer) (s : string) (create_token_index : bool)
  : result (list nat * Tokenizer) :=
  token_ids <- tokenize self s ;;
  if create_token_index then Ok (get_or_create_token_indices self token_ids)
  else
    token_indices <- get_token_indices self token_ids ;;
    Ok (token_indices, self).

(** ** Floating-point values

    The loader parses weights, stores them and converts matrix cells; it
    does no arithmetic on them.  The two float types and the three
    operations used are the interface below. *)
Class Floats : Type := {
  float : Type;
  (** [float(s)], [None] when it raises [ValueError] *)
  float_of_str : string -> option float;
  (** the literal [1.0] *)
  float_1_0 : float;
  float32 : Type;
  (** [.astype(np.float32)] on one integer cell *)
  float32_of_int : Z -> float32
}.

(** ** The graph container [MetaNetwork] *)

(** Modelled from the spec: the two node types [N_TYPE_NODE] and
    [N_TYPE_LABEL] that [dataset.py] imports from [meta_network.py], which
    is not part of the sources. *)
Inductive node_type : Type := N_TYPE_NODE | N_TYPE_LABEL.

Global Instance node_type_eq_dec : EqDecision node_type.
Proof. solve_decision. Defined.

Global Instance node_type_countable : Countable node_type.
Proof.
  refine (inj_countable' (fun t => match t with N_TYPE_NODE => true | N_TYPE_LABEL => false end)
                         (fun b => if b then N_TYPE_NODE else N_TYPE_LABEL) _).
  intros []; reflexivity.
Defined.

(** The two kinds of attribute value the loader stores: a list of token
    indices under ["features"], one label index under ["label"]. *)
Inductive attr_value : Type :=
| AttrList (l : list nat)
| AttrInt (i : nat).

Section Dataset.
Context `{FL : Floats}.

Definition edge : Type := node_type * node_type * nat * nat * float.

(** Modelled from the spec: the class [MetaNetwork] of
    [gnn/data/meta_network.py] is not part of the sources.  Its state is a
    dense index per node type, assigned in first-seen order, a store of
    named attributes per (type, index), and the inserted edges. *)
Record MetaNetwork : Type := mkMetaNetwork {
  node_id_index_dict : gmap string nat;
  label_id_index_dict : gmap string nat;
  node_attr_dict : gmap (node_type * nat * string) attr_value;
  edge_list : list edge
}.

(** Modelled from the spec: [MetaNetwork.__init__], the empty container. *)
Definition MetaNetwork_new : MetaNetwork :=
  {| node_id_index_dict := ∅; label_id_index_dict := ∅;
     node_attr_dict := ∅; edge_list := [] |}.

(** Modelled from the spec: the index table of one node type, read and
    written. *)
Definition id_index_dict (g : MetaNetwork) (t : node_type) : gmap string nat :=
  match t with
  | N_TYPE_NODE => node_id_index_dict g
  | N_TYPE_LABEL => label_id_index_dict g
  end.

Definition set_id_index_dict (g : MetaNetwork) (t : node_type) (d : gmap string nat)
  : MetaNetwork :=
  match t with
  | N_TYPE_NODE =>
      {| node_id_index_dict := d; label_id_index_dict := label_id_index_dict g;
         node_attr_dict := node_attr_dict g; edge_list := edge_list g |}
  | N_TYPE_LABEL =>
      {| node_id_index_dict := node_id_index_dict g; label_id_index_dict := d;
         node_attr_dict := node_attr_dict g; edge_list := edge_list g |}
  end.

(** Modelled from the spec: [MetaNetwork.num_nodes], the count of nodes of
    a type. *)
Definition num_nodes (g : MetaNetwork) (t : node_type) : nat :=
  size (id_index_dict g t).

(** Modelled from the spec: [MetaNetwork.has_node_id], the existence test
    of a (type, id) pair, which creates nothing. *)
Definition has_node_id (g : MetaNetwork) (t : node_type) (node_id : string) : bool :=
  match id_index_dict g t !! node_id with
  | Some _ => true
  | None => false
  end.

(** Modelled from the spec: [MetaNetwork.get_node_index], the lookup that
    fails with a LookupError when the id was never registered. *)
Definition get_node_index (g : MetaNetwork) (t : node_type) (node_id : string)
  : result nat :=
  match id_index_dict g t !! node_id with
  | Some i => Ok i
  | None => Raise KeyError
  end.

(** Modelled from the spec: [MetaNetwork.get_or_create_node_index], with
    the index-creation discipline of the tokens: the existing index, or
    the next one of the type. *)
Definition get_or_create_node_index (g : MetaNetwork) (t : node_type) (node_id : string)
  : nat * MetaNetwork :=
  match id_index_dict g t !! node_id with
  | Some i => (i, g)
  | None =>
      let node_index := num_nodes g t in
      (node_index, set_id_index_dict g t (<[node_id := node_index]> (id_index_dict g t)))
  end.

(** Modelled from the spec: [MetaNetwork.set_node_attr]. *)
Definition set_node_attr (g : MetaNetwork) (t : node_type) (node_index : nat)
    (attr_name : string) (value : attr_value) : MetaNetwork :=
  {| node_id_index_dict := node_id_index_dict g;
     label_id_index_dict := label_id_index_dict g;
     node_attr_dict := <[(t, node_index, attr_name) := value]> (node_attr_dict g);
     edge_list := edge_list g |}.

(** Modelled from the spec: [MetaNetwork.get_node_attr], which fails with
    a LookupError when the attribute was never set. *)
Definition get_node_attr (g : MetaNetwork) (t : node_type) (node_index : nat)
    (attr_name : string) : result attr_value :=
  match node_attr_dict g !! (t, node_index, attr_name) with
  | Some v => Ok v
  | None => Raise KeyError
  end.

(** Modelled from the spec: [MetaNetwork.get_node_attrs], the batch form
    of [get_node_attr], in the order of the indices given. *)
Fixpoint get_node_attrs (g : MetaNetwork) (t : node_type) (node_indices : list nat)
    (attr_name : string) : result (list attr_value) :=
  match node_indices with
  | [] => Ok []
  | i :: rest =>
      v <- get_node_attr g t i attr_name ;;
      vs <- get_node_attrs g t rest attr_name ;;
      Ok (v :: vs)
  end.

(** Modelled from the spec: [MetaNetwork.add_edges], which records the
    connection with its weight. *)
Definition add_edges (g : MetaNetwork) (t0 t1 : node_type) (i0 i1 : nat) (w : float)
  : MetaNetwork :=
  {| node_id_index_dict := node_id_index_dict g;
     label_id_index_dict := label_id_index_dict g;
     node_attr_dict := node_attr_dict g;
     edge_list := edge_list g ++ [(t0, t1, i0, i1, w)] |}.

(** ** Files *)

(** The data directory, as the files the loader opens in it: each one is
    the list of its lines in the order the iteration over the file yields
    them, or [None] when the file does not exist. *)
Record DataDir : Type := mkDataDir {
  docs_txt : option (list string);
  labels_txt : option (list string);
  adjedges_txt : option (list string);
  edgelist_txt : option (list string)
}.

(** [open(path, "r", encoding="utf-8")] *)
Definition open_lines (f : option (list string)) : result (list string) :=
  match f with
  | Some lines => Ok lines
  | None => Raise FileNotFoundError
  end.

(** ** GraphDataset *)

Definition FORMAT_ADJEDGES : string := "adjedges".
Definition FORMAT_EDGELIST : string := "edgelist".

(** [GraphDataset] extends [MetaNetwork]: [base] is the inherited state. *)
Record GraphDataset : Type := mkGraphDataset {
  base : MetaNetwork;
  data_dir : DataDir;
  data_format : string;
  ignore_featureless_node : bool;
  tokenizer : Tokenizer
}.

Definition with_base (self : GraphDataset) (g : MetaNetwork) : GraphDataset :=
  {| base := g; data_dir := data_dir self; data_format := data_format self;
     ignore_featureless_node := ignore_featureless_node self;
     tokenizer := tokenizer self |}.

Definition with_tokenizer (self : GraphDataset) (t : Tokenizer) : GraphDataset :=
  {| base := base self; data_dir := data_dir self; data_format := data_format self;
     ignore_featureless_node := ignore_featureless_node self;
     tokenizer := t |}.

(** The body of the loop of [_read_docs]. *)
Definition _read_docs_line (self : GraphDataset) (line : string) : result GraphDataset :=
  match re_split_ws_1 line with
  | [node_id; sentence] =>
      let '(node_index, g) := get_or_create_node_index (base self) N_TYPE_NODE node_id in
      r <- tokenize_to_indices (tokenizer self) sentence true ;;
      let '(token_indices, tok) := r in
      Ok (with_tokenizer
            (with_base self (set_node_attr g N_TYPE_NODE node_index "features"
                                           (AttrList token_indices)))
            tok)
  | _ => Raise ValueError
  end.

Definition _read_docs (self : GraphDataset) : result GraphDataset :=
  f <- open_lines (docs_txt (data_dir self)) ;;
  for_each _read_docs_line self f.

(** The body of the loop of [_read_labels]. *)
Definition _read_labels_line (self : GraphDataset) (line : string) : result GraphDataset :=
  match str_split line with
  | [node_id; label_id] =>
      r <- (if ignore_featureless_node self
            then node_index <- get_node_index (base self) N_TYPE_NODE node_id ;;
                 Ok (node_index, base self)
            else Ok (get_or_create_node_index (base self) N_TYPE_NODE node_id)) ;;
      let '(node_index, g) := r in
      let '(label_index, g) := get_or_create_node_index g N_TYPE_LABEL label_id in
      Ok (with_base self (set_node_attr g N_TYPE_NODE node_index "label"
                                        (AttrInt label_index)))
  | _ => Raise ValueError
  end.

Definition _read_labels (self : GraphDataset) : result GraphDataset :=
  f <- open_lines (labels_txt (data_dir self)) ;;
  for_each _read_labels_line self f.

(** The body of the inner loop of [_read_adjedges], over the neighbours. *)
Definition _read_adjedges_neighbor (node_index0 : nat) (self : GraphDataset)
    (node_id1 : string) : result GraphDataset :=
  if ignore_featureless_node self && negb (has_node_id (base self) N_TYPE_NODE node_id1)
  then Ok self
  else
    let '(node_index1, g) := get_or_create_node_index (base self) N_TYPE_NODE node_id1 in
    if decide (node_index0 ≠ node_index1)
    then Ok (with_base self
               (add_edges g N_TYPE_NODE N_TYPE_NODE node_index0 node_index1 float_1_0))
    else Ok (with_base self g).

(** The body of the outer loop of [_read_adjedges]. *)
Definition _read_adjedges_line (self : GraphDataset) (line : string) : result GraphDataset :=
  match str_split line with
  | [] => Raise IndexError
  | node_id0 :: neighbors =>
      if ignore_featureless_node self && negb (has_node_id (base self) N_TYPE_NODE node_id0)
      then Ok self
      else
        let '(node_index0, g) := get_or_create_node_index (base self) N_TYPE_NODE node_id0 in
        for_each (_read_adjedges_neighbor node_index0) (with_base self g) neighbors
  end.

Definition _read_adjedges (self : GraphDataset) : result GraphDataset :=
  f <- open_lines (adjedges_txt (data_dir self)) ;;
  for_each _read_adjedges_line self f.

(** [items[i]] *)
Definition item (items : list string) (i : nat) : result string :=
  match items !! i with
  | Some x => Ok x
  | None => Raise IndexError
  end.

(** The body of the loop of [_read_edgelist].  The local variable [weight]
    of the method lives across the iterations: it is part of the loop
    state, [None] as long as no assignment to it was run. *)
Definition _read_edgelist_line (st : GraphDataset * option float) (line : string)
  : result (GraphDataset * option float) :=
  let '(self, weight) := st in
  let items := str_split line in
  node_id0 <- item items 0 ;;
  node_id1 <- item items 1 ;;
  weight <- (if decide (length items = 3)
             then x <- item items 2 ;;
                  match float_of_str x with
                  | Some w => Ok (Some w)
                  | None => Raise ValueError
                  end
             else Ok weight) ;;
  if ignore_featureless_node self && negb (has_node_id (base self) N_TYPE_NODE node_id0)
  then Ok (self, weight)
  else
    let '(node_index0, g) := get_or_create_node_index (base self) N_TYPE_NODE node_id0 in
    if ignore_featureless_node self && negb (has_node_id g N_TYPE_NODE node_id1)
    then Ok (with_base self g, weight)
    else
      let '(node_index1, g) := get_or_create_node_index g N_TYPE_NODE node_id1 in
      if decide (node_index0 ≠ node_index1)
      then match weight with
           | Some w =>
               Ok (with_base self
                     (add_edges g N_TYPE_NODE N_TYPE_NODE node_index0 node_index1 w),
                   weight)
           | None => Raise UnboundLocalError
           end
      else Ok (with_base self g, weight).

Definition _read_edgelist (self : GraphDataset) : result GraphDataset :=
  f <- open_lines (edgelist_txt (data_dir self)) ;;
  st <- for_each _read_edgelist_line (self, None) f ;;
  Ok (fst st).

Definition _read_structure (self : GraphDataset) : result GraphDataset :=
  if decide (data_format self = FORMAT_ADJEDGES)
  then _read_adjedges self
  else _read_edgelist self.

(** The first part of [GraphDataset.__init__]: the call of
    [MetaNetwork.__init__] and the assignments to the fields, before any
    file is read. *)
Definition GraphDataset_init_fields (data_dir : DataDir) (data_format : string)
    (ignore_featureless_node : bool) (tokenizer : option Tokenizer) : GraphDataset :=
  {| base := MetaNetwork_new;
     data_dir := data_dir;
     data_format := data_format;
     ignore_featureless_node := true;
     tokenizer := match tokenizer with
                  | None => EnglishWordTokenizer
                  | Some t => t
                  end |}.

(** [GraphDataset.__init__]; the defaults of the Python signature are
    [FORMAT_ADJEDGES], [true] and [None]. *)
Definition GraphDataset_init (data_dir : DataDir) (data_format : string)
    (ignore_featureless_node : bool) (tokenizer : option Tokenizer)
  : result GraphDataset :=
  let self := GraphDataset_init_fields data_dir data_format ignore_featureless_node
                                      tokenizer in
  self <- _read_docs self ;;
  self <- _read_labels self ;;
  _read_structure self.

(** ** Matrices *)

(** A [scipy.sparse.csr_matrix] with integer cells: its shape and its
    stored cells; a cell that is not stored reads as zero. *)
Record csr : Type := mkCsr {
  csr_shape : nat * nat;
  csr_cells : gmap (nat * nat) Z
}.

Definition csr_get (m : csr) (i j : nat) : Z := default 0%Z (csr_cells m !! (i, j)).

(** The entries of the coordinate form are added up cell by cell. *)
Fixpoint csr_accumulate (data : list Z) (row col : list nat) (cells : gmap (nat * nat) Z)
  : gmap (nat * nat) Z :=
  match data, row, col with
  | v :: data', r :: row', c :: col' =>
      csr_accumulate data' row' col'
        (<[(r, c) := (default 0%Z (cells !! (r, c)) + v)%Z]> cells)
  | _, _, _ => cells
  end.

(** [csr_matrix((data, (row, col)), shape=shape)]: the three lists have
    one length and every coordinate lies inside the shape, or the call
    raises [ValueError]; entries at the same coordinates are summed. *)
Definition csr_matrix (data : list Z) (row col : list nat) (shape : nat * nat)
  : result csr :=
  if bool_decide (length row = length data) && bool_decide (length col = length data)
     && forallb (fun r => Nat.ltb r (fst shape)) row
     && forallb (fun c => Nat.ltb c (snd shape)) col
  then Ok {| csr_shape := shape; csr_cells := csr_accumulate data row col ∅ |}
  else Raise ValueError.

(** [m.todense()], row by row. *)
Definition todense (m : csr) : list (list Z) :=
  map (fun i => map (fun j => csr_get m i j) (seq 0 (snd (csr_shape m))))
      (seq 0 (fst (csr_shape m))).

Inductive Matrix : Type :=
| SparseMatrix (m : csr)
| DenseMatrix (rows : list (list float32)).

(** The three lists [data], [row] and [col] of [feature_matrix]. *)
Definition coo : Type := list Z * list nat * list nat.

(** The body of the inner loop of [feature_matrix]. *)
Definition feature_matrix_token (node_index : nat) (acc : coo) (token_index : nat) : coo :=
  let '(data, row, col) := acc in
  (data ++ [1%Z], row ++ [node_index], col ++ [token_index]).

(** The body of the outer loop of [feature_matrix]. *)
Definition feature_matrix_node (self : GraphDataset) (acc : coo) (node_index : nat)
  : result coo :=
  v <- get_node_attr (base self) N_TYPE_NODE node_index "features" ;;
  match v with
  | AttrList token_indices =>
      Ok (fold_left (feature_matrix_token node_index) token_indices acc)
  | AttrInt _ => Raise TypeError
  end.

Definition feature_matrix (self : GraphDataset) (bag_of_words sparse : bool)
  : result Matrix :=
  if bag_of_words then
    let num_nodes := num_nodes (base self) N_TYPE_NODE in
    let feature_dim := num_tokens (tokenizer self) in
    acc <- for_each (feature_matrix_node self) ([], [], []) (seq 0 num_nodes) ;;
    let '(data, row, col) := acc in
    feature_matrix <- csr_matrix data row col (num_nodes, feature_dim) ;;
    if negb sparse
    then Ok (DenseMatrix (map (map float32_of_int) (todense feature_matrix)))
    else Ok (SparseMatrix feature_matrix)
  else Raise NotImplementedError.

Definition num_classes (self : GraphDataset) : nat := num_nodes (base self) N_TYPE_LABEL.

(** The result of [label_list_or_matrix]: [np.array(label_indices)], or
    the matrix of zeros and ones. *)
Inductive LabelArray : Type :=
| LabelVector (v : list attr_value)
| LabelMatrix (rows : list (list Z)).

(** One row of [label_matrix[np.arange(num_nodes), label_indices] = 1]. *)
Definition one_hot_row (width : nat) (v : attr_value) : result (list Z) :=
  match v with
  | AttrInt label_index =>
      if Nat.ltb label_index width
      then Ok (<[label_index := 1%Z]> (replicate width 0%Z))
      else Raise IndexError
  | AttrList _ => Raise IndexError
  end.

Fixpoint one_hot_rows (width : nat) (vs : list attr_value) : result (list (list Z)) :=
  match vs with
  | [] => Ok []
  | v :: vs' =>
      r <- one_hot_row width v ;;
      rs <- one_hot_rows width vs' ;;
      Ok (r :: rs)
  end.

Definition label_list_or_matrix (self : GraphDataset) (one_hot : bool)
  : result LabelArray :=
  label_indices <- get_node_attrs (base self) N_TYPE_NODE
                     (seq 0 (num_nodes (base self) N_TYPE_NODE)) "label" ;;
  if one_hot then
    label_matrix <- one_hot_rows (num_classes self) label_indices ;;
    Ok (LabelMatrix label_matrix)
  else Ok (LabelVector label_indices).

(** [adj_matrix] hands over to [MetaNetwork.adj_matrix], which is not part
    of the sources: the method of the container is a parameter. *)
Definition adj_matrix {AdjMatrix : Type}
    (super_adj_matrix : MetaNetwork -> node_type -> node_type -> bool -> AdjMatrix)
    (self : GraphDataset) (node_type0 node_type1 : node_type) (sparse : bool)
  : AdjMatrix :=
  super_adj_matrix (base self) node_type0 node_type1 sparse.

End Dataset.

(** ** Specification-side definitions *)

(** Every character of [s] satisfies [p]. *)
Fixpoint all_chars (p : ascii -> bool) (s : string) : bool :=
  match s with
  | EmptyString => true
  | String c s' => p c && all_chars p s'
  end.

(** [s] read as a first separator followed by words, each word followed
    by its separator. *)
Fixpoint weave (sep0 : string) (fields : list (string * string)) : string :=
  match fields with
  | [] => sep0
  | (w, sep) :: rest => sep0 ++ w ++ weave sep rest
  end.

(** Every separator between two words is not empty (the one after the
    last word may be). *)
Fixpoint inner_seps_nonempty (fields : list (string * string)) : Prop :=
  match fields with
  | [] => True
  | [_] => True
  | (_, sep) :: rest => sep ≠ EmptyString ∧ inner_seps_nonempty rest
  end.

(** "Splitting [s] on whitespace runs gives [ws]": [s] is the words of
    [ws], in order, each not empty and free of whitespace, with runs of
    whitespace around and between them. *)
Definition splits_on_whitespace (s : string) (ws : list string) : Prop :=
  ∃ (sep0 : string) (fields : list (string * string)),
    s = weave sep0 fields ∧
    ws = map fst fields ∧
    all_chars isspace sep0 = true ∧
    Forall (fun f => fst f ≠ EmptyString ∧
                     all_chars (fun c => negb (isspace c)) (fst f) = true ∧
                     all_chars isspace (snd f) = true) fields ∧
    inner_seps_nonempty fields.

(** The tokenizers that arise from a new one by calls of its methods. *)
Definition Tokenizer_reachable (t : Tokenizer) : Prop :=
  ∃ (cls : TokenizerClass) (token_ids : list string),
    t = snd (get_or_create_token_indices (Tokenizer_new cls) token_ids).

(** The third field of the last line, in a sequence of edge-list lines,
    that has exactly three fields. *)
Fixpoint last_weight_field (lines : list string) : option string :=
  match lines with
  | [] => None
  | line :: rest =>
      match last_weight_field rest with
      | Some x => Some x
      | None =>
          match str_split line with
          | [_; _; x] => Some x
          | _ => None
          end
      end
  end.

(** The weight parsed most recently in a sequence of edge-list lines. *)
Definition last_parsed_weight `{Floats} (lines : list string) : option float :=
  match last_weight_field lines with
  | Some x => float_of_str x
  | None => None
  end.

Local Close Scope string_scope.

(** The two dictionaries are inverse to each other and the indices in use
    are the numbers below [num_tokens]. *)
Definition Tokenizer_inv (t : Tokenizer) : Prop :=
  (∀ token_id i, token_id_index_dict t !! token_id = Some i ↔
                 token_index_id_dict t !! i = Some token_id) ∧
  (∀ i, is_Some (token_index_id_dict t !! i) ↔ i < num_tokens t).

Section Invariants.
Context `{FL : Floats}.

(** What the labels pass and the structure pass leave as it is when the
    filter is on: the fields of the dataset, the tokenizer, the NODE
    indices and the attributes named ["features"]. *)
Definition Frame (s s' : GraphDataset) : Prop :=
  ignore_featureless_node s' = ignore_featureless_node s ∧
  tokenizer s' = tokenizer s ∧
  data_dir s' = data_dir s ∧
  data_format s' = data_format s ∧
  node_id_index_dict (base s') = node_id_index_dict (base s) ∧
  (∀ t i, node_attr_dict (base s') !! (t, i, "features")
          = node_attr_dict (base s) !! (t, i, "features")).

(** Every NODE index carries a list under ["features"]. *)
Definition all_featured (s : GraphDataset) : Prop :=
  ∀ n, n < num_nodes (base s) N_TYPE_NODE →
       ∃ l, node_attr_dict (base s) !! (N_TYPE_NODE, n, "features") = Some (AttrList l).

(** The stored token indices are indices of the tokenizer. *)
Definition features_in_vocabulary (s : GraphDataset) : Prop :=
  Tokenizer_inv (tokenizer s) ∧
  ∀ n l, node_attr_dict (base s) !! (N_TYPE_NODE, n, "features") = Some (AttrList l) →
         Forall (fun t => t < num_tokens (tokenizer s)) l.

(** An edge joins two distinct NODE indices. *)
Definition proper_edge (e : edge) : Prop :=
  let '(t0, t1, i0, i1, _) := e in
  t0 = N_TYPE_NODE ∧ t1 = N_TYPE_NODE ∧ i0 ≠ i1.

(** The list under ["features"] of a NODE index, empty when there is
    none. *)
Definition features_of (s : GraphDataset) (n : nat) : list nat :=
  match node_attr_dict (base s) !! (N_TYPE_NODE, n, "features") with
  | Some (AttrList l) => l
  | _ => []
  end.

(** The three lists of [feature_matrix] that hold the coordinates [es],
    each with the entry 1. *)
Definition coo_of (es : list (nat * nat)) : coo :=
  (map (fun _ => 1%Z) es, map fst es, map snd es).

(** The coordinates that [feature_matrix] collects for the NODE indices
    [nodes]: one per occurrence of a token in the features of a node. *)
Definition node_entries (s : GraphDataset) (nodes : list nat) : list (nat * nat) :=
  flat_map (fun n => map (pair n) (features_of s n)) nodes.

End Invariants.

Definition coord_eq_dec : ∀ x y : nat * nat, {x = y} + {x ≠ y} :=
  fun x y => decide (x = y).

(** ** Example data *)

Definition nl : string := String "010"%char EmptyString.

Fixpoint digits_value (acc : N) (s : string) : option N :=
  match s with
  | EmptyString => Some acc
  | String c s' =>
      let n := N_of_ascii c in
      if ((48 <=? n) && (n <=? 57))%N then digits_value (acc * 10 + (n - 48))%N s'
      else None
  end.

Definition decimal_of_str (s : string) : option Z :=
  match s with
  | EmptyString => None
  | _ => option_map Z.of_N (digits_value 0%N s)
  end.

(** An instance of [Floats] to run the loader on examples: the weights
    that are written as a plain sequence of decimal digits, with their
    value as an integer. *)
Definition DecimalFloats : Floats :=
  {| float := Z; float_of_str := decimal_of_str; float_1_0 := 1%Z;
     float32 := Z; float32_of_int := fun z => z |}.

(** The two documents of the specification's examples, their labels, and
    a structure file in each format. *)
Definition example_dir : DataDir :=
  {| docs_txt := Some ["n1 the cat sat" +:+ nl; "n2 the dog ran" +:+ nl];
     labels_txt := Some ["n1 L0" +:+ nl; "n2 L1" +:+ nl];
     adjedges_txt := Some ["n1 n2 n3" +:+ nl];
     edgelist_txt := Some ["n1 n2 2" +:+ nl; "n2 n1" +:+ nl] |}.

(** A document in which a token occurs twice. *)
Definition repeated_token_dir : DataDir :=
  {| docs_txt := Some ["n1 the cat the" +:+ nl];
     labels_txt := Some [];
     adjedges_txt := Some [];
     edgelist_txt := None |}.

(** An edge list whose only line names one node twice and has no
    weight. *)
Definition self_pair_dir : DataDir :=
  {| docs_txt := Some ["n1 the cat sat" +:+ nl];
     labels_txt := Some [];
     adjedges_txt := None;
     edgelist_txt := Some ["n1 n1" +:+ nl] |}.

(** Two documents and an edge list whose only line has no weight. *)
Definition unweighted_dir : DataDir :=
  {| docs_txt := Some ["n1 the cat sat" +:+ nl; "n2 the dog ran" +:+ nl];
     labels_txt := Some [];
     adjedges_txt := None;
     edgelist_txt := Some ["n1 n2" +:+ nl] |}.

(** A labels file that names a node without document. *)
Definition unknown_label_dir : DataDir :=
  {| docs_txt := Some ["n1 the cat sat" +:+ nl];
     labels_txt := Some ["n1 L0" +:+ nl; "n9 L1" +:+ nl];
     adjedges_txt := Some [];
     edgelist_txt := None |}.

(** The dataset under construction after the documents pass, after the
    labels pass, and as the constructor returns it, on a directory where
    these succeed. *)
Definition after_docs `{FL : Floats} (dir : DataDir) (fmt : string) : GraphDataset :=
  let self := GraphDataset_init_fields dir fmt true None in
  result_get self (_read_docs self).

Definition after_labels `{FL : Floats} (dir : DataDir) (fmt : string) : GraphDataset :=
  result_get (after_docs dir fmt) (_read_labels (after_docs dir fmt)).

Definition constructed `{FL : Floats} (dir : DataDir) (fmt : string) : GraphDataset :=
  result_get (after_labels dir fmt) (GraphDataset_init dir fmt true None).

(** The identifiers of [ids] that are not in [seen], each once, in the
    order of their first occurrence. *)
Fixpoint first_seen (seen ids : list string) : list string :=
  match ids with
  | [] => []
  | id :: rest =>
      if decide (id ∈ seen) then first_seen seen rest
      else id :: first_seen (seen ++ [id]) rest
  end.

(** The index table of a tokenizer lists the identifiers [order]: index
    [k] stands for the [k]-th of them. *)
Definition Tokenizer_enumerates (t : Tokenizer) (order : list string) : Prop :=
  Tokenizer_inv t ∧ ∀ k, token_index_id_dict t !! k = order !! k.

(** [" ".join(words)] *)
Fixpoint join_space (words : list string) : string :=
  match words with
  | [] => EmptyString
  | [w] => w
  | w :: rest => w +:+ String " "%char (join_space rest)
  end.


Section MoreInvariants.
Context `{FL : Floats}.

(** Everything of the dataset but its edge list is the same in [s] and
    in [s']. *)
Definition Keeps (s s' : GraphDataset) : Prop :=
  ignore_featureless_node s' = ignore_featureless_node s ∧
  tokenizer s' = tokenizer s ∧
  data_dir s' = data_dir s ∧
  data_format s' = data_format s ∧
  node_id_index_dict (base s') = node_id_index_dict (base s) ∧
  label_id_index_dict (base s') = label_id_index_dict (base s) ∧
  node_attr_dict (base s') = node_attr_dict (base s).

(** The edge that a neighbour of an adjacency line gives under the
    filter, with the NODE index table [d]: none for an unknown identifier
    and none for the node [i0] itself. *)
Definition known_neighbor_edge (d : gmap string nat) (i0 : nat) (node_id1 : string)
  : option edge :=
  match d !! node_id1 with
  | Some i1 =>
      if decide (i0 ≠ i1)
      then Some (N_TYPE_NODE, N_TYPE_NODE, i0, i1, float_1_0)
      else None
  | None => None
  end.

(** An edge between the indices that the table [d] gives to two
    identifiers, which differ. *)
Definition edge_from_table (d : gmap string nat) (e : edge) : Prop :=
  ∃ id0 id1 i0 i1 x,
    e = (N_TYPE_NODE, N_TYPE_NODE, i0, i1, x) ∧
    d !! id0 = Some i0 ∧ d !! id1 = Some i1 ∧ i0 ≠ i1.

(** Both endpoints of the edge are below [n]. *)
Definition edge_in_range (n : nat) (e : edge) : Prop :=
  let '(_, _, i0, i1, _) := e in i0 < n ∧ i1 < n.

(** The label indices are below [num_classes], and every ["label"]
    attribute of a NODE index is one of them. *)
Definition labels_valid (s : GraphDataset) : Prop :=
  (∀ id i, label_id_index_dict (base s) !! id = Some i → i < num_classes s) ∧
  (∀ n v, node_attr_dict (base s) !! (N_TYPE_NODE, n, "label") = Some v →
          ∃ li, v = AttrInt li ∧ li < num_classes s).

(** The dataset [s] with another data directory. *)
Definition with_data_dir (s : GraphDataset) (d : DataDir) : GraphDataset :=
  {| base := base s; data_dir := d; data_format := data_format s;
     ignore_featureless_node := ignore_featureless_node s;
     tokenizer := tokenizer s |}.

End MoreInvariants.

(** An index table gives indices below its size, and different indices
    to different identifiers. *)
Definition index_table_ok (d : gmap string nat) : Prop :=
  (∀ id i, d !! id = Some i → i < size d) ∧
  (∀ id1 id2 i, d !! id1 = Some i → d !! id2 = Some i → id1 = id2).

Definition result_map {A B : Type} (f : A → B) (r : result A) : result B :=
  match r with
  | Ok a => Ok (f a)
  | Raise e => Raise e
  end.

(** The sum of a list of integers. *)
Definition Zsum (l : list Z) : Z := foldr Z.add 0%Z l.


(** Two documents of which only the first has a label. *)
Definition unlabelled_dir : DataDir :=
  {| docs_txt := Some ["n1 the cat sat" +:+ nl; "n2 the dog ran" +:+ nl];
     labels_txt := Some ["n1 L0" +:+ nl];
     adjedges_txt := Some [];
     edgelist_txt := None |}.

(** The example directory without its edge list. *)
Definition example_dir_adjedges_only : DataDir :=
  {| docs_txt := docs_txt example_dir;
     labels_txt := labels_txt example_dir;
     adjedges_txt := adjedges_txt example_dir;
     edgelist_txt := None |}.


(** The index table [d] lists the identifiers [order]: index [k] is
    given to the [k]-th of them. *)
Definition table_lists (d : gmap string nat) (order : list string) : Prop :=
  size d = length order ∧ ∀ id k, d !! id = Some k ↔ order !! k = Some id.

(** The node id of a line of [docs.txt]: its part before the first run
    of whitespace. *)
Definition doc_node_id (line : string) : string :=
  match re_split_ws_1 line with
  | node_id :: _ => node_id
  | [] => EmptyString
  end.

(** The label id of a line of [labels.txt]: its second field. *)
Definition line_label_id (line : string) : string :=
  match str_split line with
  | [_; label_id] => label_id
  | _ => EmptyString
  end.


(** * Properties *)

(** ** The tokenizer's index tables *)

Lemma Tokenizer_new_inv cls : Tokenizer_inv (Tokenizer_new cls).
Proof.
  split; simpl.
  - intros token_id i. rewrite !lookup_empty. split; discriminate.
  - intros i. unfold num_tokens. simpl. rewrite lookup_empty, map_size_empty.
    split; [intros [? ?]; discriminate | lia].
Qed.

Lemma get_or_create_token_index_inv t token_id :
  Tokenizer_inv t → Tokenizer_inv (snd (get_or_create_token_index t token_id)).
Proof.
  intros [Hbij Hran]. unfold get_or_create_token_index.
  destruct (token_id_index_dict t !! token_id) as [j|] eqn:E; simpl; [by split |].
  assert (Hfresh : token_index_id_dict t !! num_tokens t = None).
  { destruct (token_index_id_dict t !! num_tokens t) eqn:E'; [|done].
    assert (is_Some (token_index_id_dict t !! num_tokens t)) as Hs by eauto.
    apply Hran in Hs. lia. }
  split; simpl.
  - intros id' i.
    destruct (decide (token_id = id')) as [->|Hne].
    + rewrite lookup_insert_eq.
      destruct (decide (num_tokens t = i)) as [->|Hni].
      * rewrite lookup_insert_eq. done.
      * rewrite lookup_insert_ne by done. split; [congruence |].
        intros Hi. apply Hbij in Hi. congruence.
    + rewrite lookup_insert_ne by done.
      destruct (decide (num_tokens t = i)) as [<-|Hni].
      * rewrite lookup_insert_eq. split; [|congruence].
        intros Hi. apply Hbij in Hi. congruence.
      * rewrite lookup_insert_ne by done. apply Hbij.
  - intros i. unfold num_tokens at 2. simpl.
    rewrite map_size_insert_None by done. fold (num_tokens t).
    destruct (decide (num_tokens t = i)) as [<-|Hni].
    + rewrite lookup_insert_eq. split; [lia | eauto].
    + rewrite lookup_insert_ne by done. rewrite Hran. lia.
Qed.

Lemma get_or_create_token_indices_inv token_ids : ∀ t,
  Tokenizer_inv t → Tokenizer_inv (snd (get_or_create_token_indices t token_ids)).
Proof.
  induction token_ids as [|token_id rest IH]; intros t Ht; simpl; [done |].
  pose proof (get_or_create_token_index_inv t token_id Ht) as H1.
  destruct (get_or_create_token_index t token_id) as [i t1]. simpl in H1.
  specialize (IH t1 H1).
  destruct (get_or_create_token_indices t1 rest) as [indices t2]. done.
Qed.

Lemma Tokenizer_reachable_inv t : Tokenizer_reachable t → Tokenizer_inv t.
Proof.
  intros (cls & token_ids & ->).
  apply get_or_create_token_indices_inv, Tokenizer_new_inv.
Qed.

Lemma get_or_create_token_indices_app ids1 : ∀ t ids2,
  get_or_create_token_indices t (ids1 ++ ids2) =
  let '(l1, t1) := get_or_create_token_indices t ids1 in
  let '(l2, t2) := get_or_create_token_indices t1 ids2 in
  (l1 ++ l2, t2).
Proof.
  induction ids1 as [|a ids1 IH]; intros t ids2; simpl.
  - by destruct (get_or_create_token_indices t ids2).
  - destruct (get_or_create_token_index t a) as [i t1].
    rewrite IH.
    destruct (get_or_create_token_indices t1 ids1) as [l1 t2].
    by destruct (get_or_create_token_indices t2 ids2).
Qed.

Lemma Tokenizer_reachable_step t token_id :
  Tokenizer_reachable t → Tokenizer_reachable (snd (get_or_create_token_index t token_id)).
Proof.
  intros (cls & token_ids & ->).
  exists cls, (token_ids ++ [token_id]).
  rewrite get_or_create_token_indices_app.
  destruct (get_or_create_token_indices (Tokenizer_new cls) token_ids) as [l1 t1].
  simpl. by destruct (get_or_create_token_index t1 token_id).
Qed.

Lemma Tokenizer_inv_lt t token_id i :
  Tokenizer_inv t → token_id_index_dict t !! token_id = Some i → i < num_tokens t.
Proof.
  intros [Hbij Hran] Hi. apply Hran. apply Hbij in Hi. eauto.
Qed.

Lemma Tokenizer_inv_inj t id1 id2 i :
  Tokenizer_inv t →
  token_id_index_dict t !! id1 = Some i → token_id_index_dict t !! id2 = Some i →
  id1 = id2.
Proof.
  intros [Hbij _] H1 H2. apply Hbij in H1, H2. congruence.
Qed.

Lemma get_or_create_token_index_lookup t token_id :
  token_id_index_dict (snd (get_or_create_token_index t token_id)) !! token_id
  = Some (fst (get_or_create_token_index t token_id)).
Proof.
  unfold get_or_create_token_index.
  destruct (token_id_index_dict t !! token_id) eqn:E; simpl; [done |].
  apply lookup_insert_eq.
Qed.

Lemma get_or_create_token_index_keeps t token_id id' i :
  token_id_index_dict t !! id' = Some i →
  token_id_index_dict (snd (get_or_create_token_index t token_id)) !! id' = Some i.
Proof.
  intros Hi. unfold get_or_create_token_index.
  destruct (token_id_index_dict t !! token_id) eqn:E; simpl; [done |].
  rewrite lookup_insert_ne; [done | congruence].
Qed.

(** C3.  On a tokenizer reached by any sequence of calls,
    [get_or_create_token_index] returns the index already recorded for a
    known identifier and leaves the tokenizer as it is; for a new one it
    returns [num_tokens()], which grows by one, and records the identifier
    in both dictionaries.  A repeated call returns the same index and
    changes nothing.  Two calls with distinct identifiers return distinct
    indices, no two identifiers share an index, and the indices in use are
    exactly the numbers below [num_tokens()]. *)
Theorem get_or_create_token_index_spec
    (cls : TokenizerClass) (calls : list string) (token_id : string) :
  let t := snd (get_or_create_token_indices (Tokenizer_new cls) calls) in
  let i := fst (get_or_create_token_index t token_id) in
  let t' := snd (get_or_create_token_index t token_id) in
  (∀ j, token_id_index_dict t !! token_id = Some j → i = j ∧ t' = t) ∧
  (token_id_index_dict t !! token_id = None →
     i = num_tokens t ∧ num_tokens t' = S (num_tokens t) ∧
     token_id_index_dict t' = <[token_id := i]> (token_id_index_dict t) ∧
     token_index_id_dict t' = <[i := token_id]> (token_index_id_dict t)) ∧
  token_id_index_dict t' !! token_id = Some i ∧
  token_index_id_dict t' !! i = Some token_id ∧
  get_or_create_token_index t' token_id = (i, t') ∧
  (∀ other, other ≠ token_id →
     fst (get_or_create_token_index t' other) ≠ i) ∧
  (∀ id1 id2 i1 i2,
     token_id_index_dict t' !! id1 = Some i1 →
     token_id_index_dict t' !! id2 = Some i2 →
     id1 ≠ id2 → i1 ≠ i2) ∧
  (∀ k, k < num_tokens t' ↔ ∃ id, token_id_index_dict t' !! id = Some k).
Proof.
  intros t i t'.
  assert (Hr : Tokenizer_reachable t) by (exists cls, calls; done).
  assert (Hinv : Tokenizer_inv t) by (by apply Tokenizer_reachable_inv).
  assert (Hinv' : Tokenizer_inv t') by (by apply get_or_create_token_index_inv).
  assert (Hlook : token_id_index_dict t' !! token_id = Some i)
    by apply get_or_create_token_index_lookup.
  split; [|split; [|split; [|split; [|split; [|split; [|split]]]]]].
  - intros j Hj. subst i t'. unfold get_or_create_token_index. by rewrite Hj.
  - intros Hn. subst i t'. unfold get_or_create_token_index. rewrite Hn. simpl.
    split; [done |]. split; [|done].
    unfold num_tokens at 1. simpl. by rewrite map_size_insert_None.
  - done.
  - destruct Hinv' as [Hbij _]. by apply Hbij.
  - unfold get_or_create_token_index at 1. by rewrite Hlook.
  - intros other Hne Heq.
    pose proof (get_or_create_token_index_lookup t' other) as Ho.
    rewrite Heq in Ho.
    pose proof (get_or_create_token_index_keeps t' other token_id i Hlook) as Hk.
    apply Hne. eapply Tokenizer_inv_inj; [|exact Ho|exact Hk].
    by apply get_or_create_token_index_inv.
  - intros id1 id2 i1 i2 H1 H2 Hne ->. apply Hne.
    by eapply Tokenizer_inv_inj.
  - intros k. destruct Hinv' as [Hbij Hran]. rewrite <- Hran. split.
    + intros [id Hid]. exists id. by apply Hbij.
    + intros [id Hid]. exists id. by apply Hbij.
Qed.

(** ** Splitting on whitespace *)

Lemma weave_cons c sep0 fields :
  weave (String c sep0) fields = String c (weave sep0 fields).
Proof. destruct fields as [|[w sep] rest]; reflexivity. Qed.

Lemma append_cons a s1 s2 : (String a s1 ++ s2 = String a (s1 ++ s2))%string.
Proof. reflexivity. Qed.

Lemma append_empty_l s : (EmptyString ++ s = s)%string.
Proof. reflexivity. Qed.

Lemma append_snoc cur c s :
  ((cur ++ String c EmptyString) ++ s = cur ++ String c s)%string.
Proof.
  induction cur as [|a cur IH]; [reflexivity |].
  by rewrite !append_cons, IH.
Qed.

Lemma append_empty_r s : (s ++ EmptyString = s)%string.
Proof. induction s as [|a s IH]; [reflexivity |]. by rewrite append_cons, IH. Qed.

Lemma all_chars_append p s1 s2 :
  all_chars p (s1 ++ s2)%string = all_chars p s1 && all_chars p s2.
Proof.
  induction s1 as [|a s1 IH]; [reflexivity |].
  rewrite append_cons. simpl. rewrite IH. by rewrite andb_assoc.
Qed.

Lemma inner_seps_nonempty_cons w sep fields :
  sep ≠ EmptyString → inner_seps_nonempty fields →
  inner_seps_nonempty ((w, sep) :: fields).
Proof. intros Hsep Hf. destruct fields; simpl; auto. Qed.

(** The scan, started with the word [cur] already read, cuts [cur ++ s]
    into words and runs of whitespace. *)
Lemma split_from_weave s : ∀ cur,
  all_chars (fun c => negb (isspace c)) cur = true →
  ∃ sep0 fields,
    (cur ++ s)%string = weave sep0 fields ∧
    split_from cur s = map fst fields ∧
    all_chars isspace sep0 = true ∧
    Forall (fun f => fst f ≠ EmptyString ∧
                     all_chars (fun c => negb (isspace c)) (fst f) = true ∧
                     all_chars isspace (snd f) = true) fields ∧
    inner_seps_nonempty fields.
Proof.
  induction s as [|c s IH]; intros cur Hcur.
  - destruct cur as [|a cur].
    + exists EmptyString, []. repeat split; constructor.
    + exists EmptyString, [(String a cur, EmptyString)].
      split; [simpl weave; by rewrite append_empty_l |].
      split; [reflexivity |]. split; [reflexivity |].
      split; [|exact I].
      constructor; [|constructor]. simpl. repeat split; [discriminate | done].
  - simpl. destruct (isspace c) eqn:Ec.
    + destruct (IH EmptyString eq_refl) as (sep0 & fields & Hs & Hr & Hsep & Hall & Hin).
      rewrite append_empty_l in Hs.
      destruct cur as [|a cur].
      * exists (String c sep0), fields.
        split; [by rewrite weave_cons, append_empty_l, Hs |].
        split; [done |]. split; [simpl; by rewrite Ec |]. done.
      * exists EmptyString, ((String a cur, String c sep0) :: fields).
        split.
        { simpl weave. by rewrite append_empty_l, weave_cons, <- Hs. }
        split; [simpl; by rewrite Hr |]. split; [reflexivity |].
        split.
        { constructor; [|done]. simpl fst; simpl snd.
          split; [discriminate |]. split; [done |]. simpl. by rewrite Ec. }
        apply inner_seps_nonempty_cons; [discriminate | done].
    + destruct (IH (cur ++ String c EmptyString)%string)
        as (sep0 & fields & Hs & Hr & Hrest).
      { rewrite all_chars_append, Hcur. simpl. by rewrite Ec. }
      exists sep0, fields. rewrite append_snoc in Hs. done.
Qed.

Lemma str_split_splits s : splits_on_whitespace s (str_split s).
Proof.
  destruct (split_from_weave s EmptyString eq_refl)
    as (sep0 & fields & Hs & Hr & Hsep & Hall & Hin).
  exists sep0, fields. done.
Qed.

Lemma all_chars_weave p sep0 fields :
  all_chars p (weave sep0 fields) = true →
  Forall (fun f => all_chars p (fst f) = true) fields.
Proof.
  revert sep0. induction fields as [|[w sep] rest IH]; intros sep0 H; [constructor |].
  simpl in H. rewrite !all_chars_append in H.
  apply andb_true_iff in H as [_ H]. apply andb_true_iff in H as [Hw H].
  constructor; [done | by eapply IH].
Qed.

Lemma all_chars_and p q s :
  all_chars p s = true → all_chars q s = true →
  all_chars (fun c => p c && q c) s = true.
Proof.
  induction s as [|c s IH]; [done |]. simpl.
  intros [-> ?]%andb_true_iff [-> ?]%andb_true_iff. simpl. auto.
Qed.

Lemma all_chars_impl (p q : ascii → bool) s :
  (∀ c, p c = true → q c = true) → all_chars p s = true → all_chars q s = true.
Proof.
  intros Hpq. induction s as [|c s IH]; [done |]. simpl.
  intros [?%Hpq ?%IH]%andb_true_iff. by apply andb_true_iff.
Qed.

Lemma get_map_chars f s : ∀ n,
  String.get n (map_chars f s) = option_map f (String.get n s).
Proof.
  induction s as [|c s IH]; intros n; [done |].
  destruct n as [|n]; simpl; [done | apply IH].
Qed.

(** After lowercasing, a character of the class [a-zA-Z] is one of
    [a-z]; a character that is neither such a letter nor whitespace does
    not exist once the others were replaced by spaces. *)
Lemma lowered_letter_or_space c :
  let c' := lower_char c in
  let r := if is_letter c' then c' else " "%char in
  (is_lower_az r || isspace r) = true ∧ (isspace r = true → r = " "%char).
Proof. destruct c as [[] [] [] [] [] [] [] []]; vm_compute; split; done. Qed.

(** C7.  [EnglishWordTokenizer.tokenize] of ["Cats, Dogs! 123"] is
    [["cats"; "dogs"]].  For every text, lowercasing changes the text
    character by character, the substitution keeps the characters of
    [a-zA-Z] and puts a space for every other one, and the result of
    [tokenize] is that text split on its runs of whitespace; every token
    is a non-empty word of the letters [a-z]. *)
Theorem EnglishWordTokenizer_tokenize_spec :
  EnglishWordTokenizer_tokenize "Cats, Dogs! 123" = ["cats"; "dogs"] ∧
  ∀ s : string,
    tokenize EnglishWordTokenizer s = Ok (EnglishWordTokenizer_tokenize s) ∧
    (∀ n, String.get n (str_lower s) = option_map lower_char (String.get n s)) ∧
    (∀ n, String.get n (punc_re_sub_space (str_lower s)) =
          option_map (fun c => if is_letter c then c else " "%char)
                     (String.get n (str_lower s))) ∧
    splits_on_whitespace (punc_re_sub_space (str_lower s))
                         (EnglishWordTokenizer_tokenize s) ∧
    Forall (fun w => w ≠ EmptyString ∧ all_chars is_lower_az w = true)
           (EnglishWordTokenizer_tokenize s).
Proof.
  split; [reflexivity |]. intros s.
  split; [reflexivity |].
  split; [intros n; apply get_map_chars |].
  split; [intros n; apply get_map_chars |].
  split; [apply str_split_splits |].
  unfold EnglishWordTokenizer_tokenize.
  destruct (str_split_splits (punc_re_sub_space (str_lower s)))
    as (sep0 & fields & Hs & Hr & Hsep & Hall & Hin).
  rewrite Hr.
  assert (Hchars : all_chars (fun c => is_lower_az c || isspace c)
                             (weave sep0 fields) = true).
  { rewrite <- Hs. unfold punc_re_sub_space, str_lower.
    clear. induction s as [|c s IH]; [done |]. simpl. rewrite IH.
    by destruct (lowered_letter_or_space c) as [-> _]. }
  apply all_chars_weave in Hchars.
  rewrite Forall_map. rewrite Forall_forall in Hall, Hchars |- *.
  intros f Hf. destruct (Hall f Hf) as (Hne & Hns & _).
  split; [done |].
  pose proof (all_chars_and _ _ _ (Hchars f Hf) Hns) as Hboth.
  revert Hboth. apply all_chars_impl. intros c.
  destruct (is_lower_az c); [done |]. simpl. by destruct (isspace c).
Qed.

(** ** The passes of the construction *)

Section Passes.
Context `{FL : Floats}.

Lemma for_each_invariant {S A : Type} (body : S → A → result S) (P : S → Prop) :
  (∀ s x s', P s → body s x = Ok s' → P s') →
  ∀ xs s s', P s → for_each body s xs = Ok s' → P s'.
Proof.
  intros Hbody. induction xs as [|x xs IH]; intros s s' Hs Hrun; simpl in Hrun.
  - by simplify_eq.
  - destruct (body s x) as [s1|e] eqn:E; simpl in Hrun; [|discriminate].
    eapply IH; [|exact Hrun]. by eapply Hbody.
Qed.

Lemma for_each_app {S A : Type} (body : S → A → result S) xs ys s :
  for_each body s (xs ++ ys) = (s' <- for_each body s xs ;; for_each body s' ys).
Proof.
  revert s. induction xs as [|x xs IH]; intros s; simpl; [done |].
  destruct (body s x); simpl; [apply IH | done].
Qed.

Lemma Frame_refl s : Frame s s.
Proof. by repeat split. Qed.

Lemma Frame_trans s1 s2 s3 : Frame s1 s2 → Frame s2 s3 → Frame s1 s3.
Proof.
  intros (A1 & A2 & A3 & A4 & A5 & A6) (B1 & B2 & B3 & B4 & B5 & B6).
  repeat split; try congruence; intros t i; by rewrite B6, A6.
Qed.

Lemma has_node_id_true g t node_id :
  has_node_id g t node_id = true →
  ∃ i, id_index_dict g t !! node_id = Some i ∧
       get_or_create_node_index g t node_id = (i, g).
Proof.
  unfold has_node_id, get_or_create_node_index.
  destruct (id_index_dict g t !! node_id) as [i|]; [|discriminate].
  intros _. by exists i.
Qed.

Lemma get_or_create_label_frame g label_id :
  let g' := snd (get_or_create_node_index g N_TYPE_LABEL label_id) in
  node_id_index_dict g' = node_id_index_dict g ∧
  node_attr_dict g' = node_attr_dict g ∧
  edge_list g' = edge_list g.
Proof.
  unfold get_or_create_node_index.
  by destruct (id_index_dict g N_TYPE_LABEL !! label_id).
Qed.

Lemma get_or_create_node_edges g t node_id :
  edge_list (snd (get_or_create_node_index g t node_id)) = edge_list g.
Proof.
  unfold get_or_create_node_index.
  destruct (id_index_dict g t !! node_id); [done |]. by destruct t.
Qed.

Lemma _read_labels_line_frame s line s' :
  ignore_featureless_node s = true →
  _read_labels_line s line = Ok s' →
  Frame s s' ∧ edge_list (base s') = edge_list (base s).
Proof.
  intros Hflag. unfold _read_labels_line.
  destruct (str_split line) as [|node_id [|label_id [|? ?]]]; try discriminate.
  rewrite Hflag.
  destruct (get_node_index (base s) N_TYPE_NODE node_id) as [i|e]; [|discriminate].
  simpl.
  pose proof (get_or_create_label_frame (base s) label_id) as (Hn & Ha & He).
  destruct (get_or_create_node_index (base s) N_TYPE_LABEL label_id) as [li g].
  simpl in Hn, Ha, He. intros [= <-]. simpl.
  split; [|done]. repeat split; try done.
  intros t j. simpl. rewrite lookup_insert_ne by congruence. by rewrite Ha.
Qed.

Lemma _read_adjedges_neighbor_frame i0 s node_id1 s' :
  ignore_featureless_node s = true →
  _read_adjedges_neighbor i0 s node_id1 = Ok s' →
  Frame s s' ∧
  (edge_list (base s') = edge_list (base s) ∨
   ∃ i1, i0 ≠ i1 ∧
         edge_list (base s') =
         edge_list (base s) ++ [(N_TYPE_NODE, N_TYPE_NODE, i0, i1, float_1_0)]).
Proof.
  intros Hflag. unfold _read_adjedges_neighbor. rewrite Hflag. simpl.
  destruct (has_node_id (base s) N_TYPE_NODE node_id1) eqn:Eh; simpl.
  - destruct (has_node_id_true _ _ _ Eh) as (i1 & _ & ->).
    destruct (decide (i0 ≠ i1)) as [Hne|Heq]; intros [= <-]; simpl.
    + split; [by repeat split |]. right. by exists i1.
    + split; [by repeat split |]. by left.
  - intros [= <-]. split; [apply Frame_refl | by left].
Qed.

Lemma _read_adjedges_neighbors_frame i0 neighbors : ∀ s s',
  ignore_featureless_node s = true →
  Forall proper_edge (edge_list (base s)) →
  for_each (_read_adjedges_neighbor i0) s neighbors = Ok s' →
  Frame s s' ∧ Forall proper_edge (edge_list (base s')).
Proof.
  induction neighbors as [|node_id1 rest IH]; intros s s' Hflag He Hrun; simpl in Hrun.
  - simplify_eq. split; [apply Frame_refl | done].
  - destruct (_read_adjedges_neighbor i0 s node_id1) as [s2|e] eqn:E; [|discriminate].
    simpl in Hrun.
    destruct (_read_adjedges_neighbor_frame _ _ _ _ Hflag E) as [Hf2 Hedge].
    destruct (IH s2 s') as [Hf3 He3]; [| |done|].
    + destruct Hf2 as (-> & _). done.
    + destruct Hedge as [-> | (i1 & Hne & ->)]; [done |].
      apply Forall_app. split; [done |]. constructor; [|constructor]. by repeat split.
    + split; [by eapply Frame_trans | done].
Qed.

Lemma _read_adjedges_line_frame s line s' :
  ignore_featureless_node s = true →
  Forall proper_edge (edge_list (base s)) →
  _read_adjedges_line s line = Ok s' →
  Frame s s' ∧ Forall proper_edge (edge_list (base s')).
Proof.
  intros Hflag Hedges. unfold _read_adjedges_line.
  destruct (str_split line) as [|node_id0 neighbors]; [discriminate |].
  rewrite Hflag. simpl.
  destruct (has_node_id (base s) N_TYPE_NODE node_id0) eqn:Eh; simpl.
  - destruct (has_node_id_true _ _ _ Eh) as (i0 & _ & ->).
    intros Hrun.
    apply _read_adjedges_neighbors_frame in Hrun as [Hf He]; [|done..].
    split; [|done]. eapply Frame_trans; [|exact Hf]. by repeat split.
  - intros [= <-]. split; [apply Frame_refl | done].
Qed.

Lemma _read_edgelist_line_frame s w line s' w' :
  ignore_featureless_node s = true →
  Forall proper_edge (edge_list (base s)) →
  _read_edgelist_line (s, w) line = Ok (s', w') →
  Frame s s' ∧ Forall proper_edge (edge_list (base s')).
Proof.
  intros Hflag Hedges. unfold _read_edgelist_line.
  destruct (item (str_split line) 0) as [node_id0|]; [|discriminate]. simpl.
  destruct (item (str_split line) 1) as [node_id1|]; [|discriminate]. simpl.
  match goal with |- context [bind ?r _] => destruct r as [w1|] end;
    [|discriminate].
  simpl. rewrite Hflag. simpl.
  destruct (has_node_id (base s) N_TYPE_NODE node_id0) eqn:Eh0; simpl.
  - destruct (has_node_id_true _ _ _ Eh0) as (i0 & _ & ->).
    destruct (has_node_id (base s) N_TYPE_NODE node_id1) eqn:Eh1; simpl.
    + destruct (has_node_id_true _ _ _ Eh1) as (i1 & _ & ->).
      destruct (decide (i0 ≠ i1)) as [Hne|Heq].
      * destruct w1 as [x|]; [|discriminate]. intros [= <- <-]. simpl.
        split; [by repeat split |].
        apply Forall_app. split; [done |]. constructor; [|constructor].
        by repeat split.
      * intros [= <- <-]. split; [by repeat split | done].
    + intros [= <- <-]. split; [by repeat split | done].
  - intros [= <- <-]. split; [apply Frame_refl | done].
Qed.

Lemma get_or_create_token_index_bound t token_id :
  Tokenizer_inv t →
  fst (get_or_create_token_index t token_id)
    < num_tokens (snd (get_or_create_token_index t token_id)) ∧
  num_tokens t ≤ num_tokens (snd (get_or_create_token_index t token_id)).
Proof.
  intros Hinv. unfold get_or_create_token_index.
  destruct (token_id_index_dict t !! token_id) as [i|] eqn:E; simpl.
  - split; [by eapply Tokenizer_inv_lt | done].
  - unfold num_tokens. simpl. rewrite map_size_insert_None by done. lia.
Qed.

Lemma get_or_create_token_indices_bound token_ids : ∀ t,
  Tokenizer_inv t →
  Forall (fun i => i < num_tokens (snd (get_or_create_token_indices t token_ids)))
         (fst (get_or_create_token_indices t token_ids)) ∧
  num_tokens t ≤ num_tokens (snd (get_or_create_token_indices t token_ids)).
Proof.
  induction token_ids as [|token_id rest IH]; intros t Hinv; simpl.
  - split; [constructor | done].
  - pose proof (get_or_create_token_index_bound t token_id Hinv) as [Hi Hle].
    pose proof (get_or_create_token_index_inv t token_id Hinv) as Hinv1.
    destruct (get_or_create_token_index t token_id) as [i t1]. simpl in *.
    destruct (IH t1 Hinv1) as [Hall Hle1].
    destruct (get_or_create_token_indices t1 rest) as [indices t2]. simpl in *.
    split; [|lia]. constructor; [lia | done].
Qed.

Lemma get_or_create_node_index_facts g node_id :
  let i := fst (get_or_create_node_index g N_TYPE_NODE node_id) in
  let g' := snd (get_or_create_node_index g N_TYPE_NODE node_id) in
  node_attr_dict g' = node_attr_dict g ∧
  edge_list g' = edge_list g ∧
  (∀ n, n < num_nodes g' N_TYPE_NODE → n = i ∨ n < num_nodes g N_TYPE_NODE).
Proof.
  unfold get_or_create_node_index. simpl.
  destruct (node_id_index_dict g !! node_id) as [i|] eqn:E; simpl.
  - repeat split. intros n Hn. by right.
  - repeat split. intros n. unfold num_nodes. simpl.
    rewrite map_size_insert_None by done. lia.
Qed.

Lemma tokenize_to_indices_create t sentence l t' :
  tokenize_to_indices t sentence true = Ok (l, t') →
  ∃ token_ids, tokenize t sentence = Ok token_ids ∧
               get_or_create_token_indices t token_ids = (l, t').
Proof.
  unfold tokenize_to_indices.
  destruct (tokenize t sentence) as [token_ids|]; [|discriminate].
  simpl. intros [= Heq]. by exists token_ids.
Qed.

(** One line of [docs.txt]: the filter flag and the edges stay, every
    NODE index still has its features, and the features still lie in the
    vocabulary. *)
Lemma _read_docs_line_facts s line s' :
  _read_docs_line s line = Ok s' →
  ignore_featureless_node s' = ignore_featureless_node s ∧
  edge_list (base s') = edge_list (base s) ∧
  (all_featured s → all_featured s') ∧
  (features_in_vocabulary s → features_in_vocabulary s').
Proof.
  unfold _read_docs_line.
  destruct (re_split_ws_1 line) as [|node_id [|sentence [|? ?]]]; try discriminate.
  pose proof (get_or_create_node_index_facts (base s) node_id) as (Ha & He & Hn).
  destruct (get_or_create_node_index (base s) N_TYPE_NODE node_id) as [i g].
  simpl in Ha, He, Hn.
  destruct (tokenize_to_indices (tokenizer s) sentence true) as [[l t']|] eqn:Et;
    [|discriminate].
  simpl. intros [= <-]. simpl.
  split; [done |]. split; [done |]. split.
  - intros Hfeat n Hn'. simpl.
    destruct (decide (n = i)) as [->|Hni].
    + exists l. apply lookup_insert_eq.
    + rewrite lookup_insert_ne by congruence. rewrite Ha.
      apply Hfeat. destruct (Hn n Hn'); [done | done].
  - intros [Hinv Hvoc].
    apply tokenize_to_indices_create in Et as (token_ids & _ & Eg).
    pose proof (get_or_create_token_indices_bound token_ids _ Hinv) as [Hall Hle].
    pose proof (get_or_create_token_indices_inv token_ids _ Hinv) as Hinv'.
    rewrite Eg in Hall, Hle, Hinv'. simpl in Hall, Hle, Hinv'.
    split; [done |]. simpl. intros n l0.
    destruct (decide (n = i)) as [->|Hni].
    + rewrite lookup_insert_eq. by intros [= <-].
    + rewrite lookup_insert_ne by congruence. rewrite Ha. intros Hl.
      eapply Forall_impl; [by eapply Hvoc |]. simpl. lia.
Qed.

Lemma _read_docs_facts s s' :
  _read_docs s = Ok s' →
  ignore_featureless_node s' = ignore_featureless_node s ∧
  edge_list (base s') = edge_list (base s) ∧
  (all_featured s → all_featured s') ∧
  (features_in_vocabulary s → features_in_vocabulary s').
Proof.
  unfold _read_docs.
  destruct (open_lines (docs_txt (data_dir s))) as [f|]; [|discriminate]. simpl.
  apply (for_each_invariant _read_docs_line
           (fun s1 => ignore_featureless_node s1 = ignore_featureless_node s ∧
                      edge_list (base s1) = edge_list (base s) ∧
                      (all_featured s → all_featured s1) ∧
                      (features_in_vocabulary s → features_in_vocabulary s1)));
    [|split; [done |]; split; [done |]; split; auto].
  intros s1 x s2 (I1 & I2 & I3 & I4) Hstep.
  apply _read_docs_line_facts in Hstep as (J1 & J2 & J3 & J4).
  split; [congruence |]. split; [congruence |]. split; auto.
Qed.

Lemma _read_labels_frame s s' :
  ignore_featureless_node s = true →
  _read_labels s = Ok s' →
  Frame s s' ∧ edge_list (base s') = edge_list (base s).
Proof.
  intros Hflag. unfold _read_labels.
  destruct (open_lines (labels_txt (data_dir s))) as [f|]; [|discriminate]. simpl.
  apply (for_each_invariant _read_labels_line
           (fun s1 => Frame s s1 ∧ edge_list (base s1) = edge_list (base s)));
    [|split; [apply Frame_refl | done]].
  intros s1 x s2 [Hf He] Hstep.
  apply _read_labels_line_frame in Hstep as [Hf2 He2].
  - split; [by eapply Frame_trans | congruence].
  - destruct Hf as (-> & _). done.
Qed.

Lemma _read_structure_frame s s' :
  ignore_featureless_node s = true →
  Forall proper_edge (edge_list (base s)) →
  _read_structure s = Ok s' →
  Frame s s' ∧ Forall proper_edge (edge_list (base s')).
Proof.
  intros Hflag Hedges. unfold _read_structure.
  destruct (decide (data_format s = FORMAT_ADJEDGES)) as [_|_].
  - unfold _read_adjedges.
    destruct (open_lines (adjedges_txt (data_dir s))) as [f|]; [|discriminate]. simpl.
    apply (for_each_invariant _read_adjedges_line
             (fun s1 => Frame s s1 ∧ Forall proper_edge (edge_list (base s1))));
      [|split; [apply Frame_refl | done]].
    intros s1 x s2 [Hf He] Hstep.
    apply _read_adjedges_line_frame in Hstep as [Hf2 He2]; [| |done].
    + split; [by eapply Frame_trans | done].
    + destruct Hf as (-> & _). done.
  - unfold _read_edgelist.
    destruct (open_lines (edgelist_txt (data_dir s))) as [f|]; [|discriminate]. simpl.
    destruct (for_each _read_edgelist_line (s, None) f) as [[s2 w2]|] eqn:E;
      [|discriminate].
    simpl. intros [= <-].
    apply (for_each_invariant _read_edgelist_line
             (fun st => Frame s (fst st) ∧ Forall proper_edge (edge_list (base (fst st))))
             ) with (s' := (s2, w2)) (s := (s, None)) (xs := f);
      [|split; [apply Frame_refl | done]|done].
    intros [s1 w1] x [s3 w3] [Hf He] Hstep. simpl in *.
    apply _read_edgelist_line_frame in Hstep as [Hf2 He2]; [| |done].
    + split; [by eapply Frame_trans | done].
    + destruct Hf as (-> & _). done.
Qed.

Lemma Frame_all_featured s s' : Frame s s' → all_featured s → all_featured s'.
Proof.
  intros (_ & _ & _ & _ & Hn & Ha) Hfeat n Hlt.
  unfold num_nodes in Hlt. simpl in Hlt. rewrite Hn in Hlt.
  rewrite Ha. by apply Hfeat.
Qed.

Lemma Frame_features_in_vocabulary s s' :
  Frame s s' → features_in_vocabulary s → features_in_vocabulary s'.
Proof.
  intros (_ & Ht & _ & _ & Hn & Ha) [Hinv Hvoc].
  split; rewrite Ht; [done |]. intros n l. rewrite Ha. apply Hvoc.
Qed.

(** The three passes of [__init__], seen from its result. *)
Lemma GraphDataset_init_passes dir fmt b tok ds :
  GraphDataset_init dir fmt b tok = Ok ds →
  ∃ s1 s2,
    _read_docs (GraphDataset_init_fields dir fmt b tok) = Ok s1 ∧
    _read_labels s1 = Ok s2 ∧
    _read_structure s2 = Ok ds.
Proof.
  unfold GraphDataset_init.
  destruct (_read_docs (GraphDataset_init_fields dir fmt b tok)) as [s1|] eqn:E1;
    [|discriminate].
  simpl. destruct (_read_labels s1) as [s2|] eqn:E2; [|discriminate].
  simpl. intros Hs. by exists s1, s2.
Qed.

(** What holds of every dataset that [__init__] returns. *)
Lemma GraphDataset_init_facts dir fmt b tok ds :
  GraphDataset_init dir fmt b tok = Ok ds →
  ∃ s1,
    _read_docs (GraphDataset_init_fields dir fmt b tok) = Ok s1 ∧
    Frame s1 ds ∧
    ignore_featureless_node ds = true ∧
    all_featured ds ∧
    Forall proper_edge (edge_list (base ds)) ∧
    (Tokenizer_inv (tokenizer (GraphDataset_init_fields dir fmt b tok)) →
     features_in_vocabulary ds).
Proof.
  intros Hinit.
  destruct (GraphDataset_init_passes _ _ _ _ _ Hinit) as (s1 & s2 & Hd & Hl & Hs).
  pose proof (_read_docs_facts _ _ Hd) as (D1 & D2 & D3 & D4).
  simpl in D1, D2.
  destruct (_read_labels_frame _ _ D1 Hl) as [Hf1 He1].
  assert (Hflag2 : ignore_featureless_node s2 = true)
    by (destruct Hf1 as (-> & _); done).
  assert (Hedges2 : Forall proper_edge (edge_list (base s2)))
    by (rewrite He1, D2; constructor).
  destruct (_read_structure_frame _ _ Hflag2 Hedges2 Hs) as [Hf2 He2].
  pose proof (Frame_trans _ _ _ Hf1 Hf2) as Hf.
  exists s1. split; [done |]. split; [done |].
  split; [destruct Hf2 as (-> & _); done |].
  assert (Hfeat1 : all_featured s1).
  { apply D3. intros n Hn. unfold num_nodes in Hn. simpl in Hn.
    rewrite map_size_empty in Hn. lia. }
  split; [by eapply Frame_all_featured |].
  split; [done |].
  intros Hinv. eapply Frame_features_in_vocabulary; [done |].
  apply D4. split; [done |]. simpl. intros n l. rewrite lookup_empty. discriminate.
Qed.

Lemma _read_docs_line_fields s line s' :
  _read_docs_line s line = Ok s' →
  data_dir s' = data_dir s ∧ data_format s' = data_format s.
Proof.
  unfold _read_docs_line.
  destruct (re_split_ws_1 line) as [|node_id [|sentence [|? ?]]]; try discriminate.
  destruct (get_or_create_node_index (base s) N_TYPE_NODE node_id) as [i g].
  destruct (tokenize_to_indices (tokenizer s) sentence true) as [[l t']|];
    [|discriminate].
  simpl. by intros [= <-].
Qed.

Lemma _read_docs_fields s s' :
  _read_docs s = Ok s' →
  data_dir s' = data_dir s ∧ data_format s' = data_format s.
Proof.
  unfold _read_docs.
  destruct (open_lines (docs_txt (data_dir s))) as [f|]; [|discriminate]. simpl.
  apply (for_each_invariant _read_docs_line
           (fun s1 => data_dir s1 = data_dir s ∧ data_format s1 = data_format s));
    [|done].
  intros s1 x s2 [I1 I2] Hstep.
  apply _read_docs_line_fields in Hstep as [J1 J2]. split; congruence.
Qed.

(** ** Edges *)

(** What one neighbour of an adjacency line does to the edges, whatever
    the filter flag is. *)
Lemma _read_adjedges_neighbor_edges i0 s node_id1 s' :
  _read_adjedges_neighbor i0 s node_id1 = Ok s' →
  let i1 := fst (get_or_create_node_index (base s) N_TYPE_NODE node_id1) in
  edge_list (base s') = edge_list (base s) ∨
  (i0 ≠ i1 ∧
   edge_list (base s') =
   edge_list (base s) ++ [(N_TYPE_NODE, N_TYPE_NODE, i0, i1, float_1_0)]).
Proof.
  unfold _read_adjedges_neighbor.
  destruct (ignore_featureless_node s &&
            negb (has_node_id (base s) N_TYPE_NODE node_id1)).
  - intros [= <-]. by left.
  - pose proof (get_or_create_node_edges (base s) N_TYPE_NODE node_id1) as He.
    destruct (get_or_create_node_index (base s) N_TYPE_NODE node_id1) as [i1 g].
    simpl in *.
    destruct (decide (i0 ≠ i1)) as [Hne|Heq]; intros [= <-]; simpl.
    + right. by rewrite He.
    + by left.
Qed.

(** What one line of the edge list does to the edges, whatever the filter
    flag is. *)
Lemma _read_edgelist_line_edges s w line s' w' node_id0 node_id1 :
  _read_edgelist_line (s, w) line = Ok (s', w') →
  str_split line !! 0 = Some node_id0 →
  str_split line !! 1 = Some node_id1 →
  let i0 := fst (get_or_create_node_index (base s) N_TYPE_NODE node_id0) in
  let g := snd (get_or_create_node_index (base s) N_TYPE_NODE node_id0) in
  let i1 := fst (get_or_create_node_index g N_TYPE_NODE node_id1) in
  edge_list (base s') = edge_list (base s) ∨
  (i0 ≠ i1 ∧ ∃ x, w' = Some x ∧
   edge_list (base s') =
   edge_list (base s) ++ [(N_TYPE_NODE, N_TYPE_NODE, i0, i1, x)]).
Proof.
  intros Hrun H0 H1. revert Hrun. unfold _read_edgelist_line, item.
  rewrite H0, H1. simpl.
  match goal with |- context [bind ?r _] => destruct r as [w1|] end;
    [|discriminate].
  simpl.
  destruct (ignore_featureless_node s &&
            negb (has_node_id (base s) N_TYPE_NODE node_id0)).
  { intros [= <- <-]. by left. }
  pose proof (get_or_create_node_edges (base s) N_TYPE_NODE node_id0) as He0.
  destruct (get_or_create_node_index (base s) N_TYPE_NODE node_id0) as [i0 g].
  simpl in *.
  destruct (ignore_featureless_node s && negb (has_node_id g N_TYPE_NODE node_id1)).
  { intros [= <- <-]. simpl. by left. }
  pose proof (get_or_create_node_edges g N_TYPE_NODE node_id1) as He1.
  destruct (get_or_create_node_index g N_TYPE_NODE node_id1) as [i1 g1].
  simpl in *.
  destruct (decide (i0 ≠ i1)) as [Hne|Heq].
  - destruct w1 as [x|]; [|discriminate]. intros [= <- <-]. simpl.
    right. split; [done |]. exists x. split; [done |]. by rewrite He1, He0.
  - intros [= <- <-]. simpl. left. by rewrite He1, He0.
Qed.

(** The local variable [weight] after one line of the edge list. *)
Lemma _read_edgelist_line_weight s w line s' w' :
  _read_edgelist_line (s, w) line = Ok (s', w') →
  w' = match str_split line with
       | [_; _; x] => float_of_str x
       | _ => w
       end.
Proof.
  unfold _read_edgelist_line, item.
  destruct (str_split line) as [|a [|b [|x [|y rest]]]]; simpl; try discriminate.
  - destruct (ignore_featureless_node s && negb (has_node_id (base s) N_TYPE_NODE a));
      [by intros [= <- <-] |].
    destruct (get_or_create_node_index (base s) N_TYPE_NODE a) as [i0 g].
    destruct (ignore_featureless_node s && negb (has_node_id g N_TYPE_NODE b));
      [by intros [= <- <-] |].
    destruct (get_or_create_node_index g N_TYPE_NODE b) as [i1 g1].
    destruct (decide (i0 ≠ i1)); [|by intros [= <- <-]].
    destruct w; [by intros [= <- <-] | discriminate].
  - destruct (float_of_str x) as [wx|]; [|discriminate]. simpl.
    destruct (ignore_featureless_node s && negb (has_node_id (base s) N_TYPE_NODE a));
      [by intros [= <- <-] |].
    destruct (get_or_create_node_index (base s) N_TYPE_NODE a) as [i0 g].
    destruct (ignore_featureless_node s && negb (has_node_id g N_TYPE_NODE b));
      [by intros [= <- <-] |].
    destruct (get_or_create_node_index g N_TYPE_NODE b) as [i1 g1].
    destruct (decide (i0 ≠ i1)); by intros [= <- <-].
  - destruct (ignore_featureless_node s && negb (has_node_id (base s) N_TYPE_NODE a));
      [by intros [= <- <-] |].
    destruct (get_or_create_node_index (base s) N_TYPE_NODE a) as [i0 g].
    destruct (ignore_featureless_node s && negb (has_node_id g N_TYPE_NODE b));
      [by intros [= <- <-] |].
    destruct (get_or_create_node_index g N_TYPE_NODE b) as [i1 g1].
    destruct (decide (i0 ≠ i1)); [|by intros [= <- <-]].
    destruct w; [by intros [= <- <-] | discriminate].
Qed.

(** The local variable [weight] after a sequence of lines. *)
Lemma _read_edgelist_lines_weight lines : ∀ s w st,
  for_each _read_edgelist_line (s, w) lines = Ok st →
  snd st = match last_weight_field lines with
           | Some x => float_of_str x
           | None => w
           end.
Proof.
  induction lines as [|line rest IH]; intros s w st Hrun; cbn [for_each] in Hrun.
  - by simplify_eq.
  - destruct (_read_edgelist_line (s, w) line) as [[s1 w1]|] eqn:E; [|discriminate].
    cbn [bind] in Hrun. apply IH in Hrun. rewrite Hrun. simpl.
    destruct (last_weight_field rest); [done |].
    apply _read_edgelist_line_weight in E. rewrite E.
    by destruct (str_split line) as [|a [|b [|x [|y r]]]].
Qed.

(** A line of two known identifiers with different indices, read when
    [weight] holds [w]: the edge is added with [w]; read when [weight]
    was never assigned: the read of [weight] fails. *)
Lemma _read_edgelist_line_two_known s w line id0 id1 i0 i1 :
  str_split line = [id0; id1] →
  node_id_index_dict (base s) !! id0 = Some i0 →
  node_id_index_dict (base s) !! id1 = Some i1 →
  i0 ≠ i1 →
  _read_edgelist_line (s, w) line =
  match w with
  | Some x =>
      Ok (with_base s (add_edges (base s) N_TYPE_NODE N_TYPE_NODE i0 i1 x), w)
  | None => Raise UnboundLocalError
  end.
Proof.
  intros Hs H0 H1 Hne. unfold _read_edgelist_line, item. rewrite Hs. simpl.
  unfold has_node_id, get_or_create_node_index. simpl. rewrite H0. simpl.
  rewrite andb_false_r. rewrite H1. simpl. rewrite andb_false_r.
  destruct (decide (i0 ≠ i1)); [done | contradiction].
Qed.

(** A line of two fields read when [weight] is assigned does not fail. *)
Lemma _read_edgelist_line_two_fields s x line id0 id1 :
  str_split line = [id0; id1] →
  ∃ s', _read_edgelist_line (s, Some x) line = Ok (s', Some x).
Proof.
  intros Hs. unfold _read_edgelist_line, item. rewrite Hs. simpl.
  destruct (ignore_featureless_node s && negb (has_node_id (base s) N_TYPE_NODE id0));
    [by eexists |].
  destruct (get_or_create_node_index (base s) N_TYPE_NODE id0) as [i0 g].
  destruct (ignore_featureless_node s && negb (has_node_id g N_TYPE_NODE id1));
    [by eexists |].
  destruct (get_or_create_node_index g N_TYPE_NODE id1) as [i1 g1].
  destruct (decide (i0 ≠ i1)); by eexists.
Qed.

(** The labels pass with the filter on stops at the first line that names
    an unknown node. *)
Lemma _read_labels_lines_unknown lines : ∀ s,
  ignore_featureless_node s = true →
  Forall (fun l => length (str_split l) = 2) lines →
  (∃ l node_id label_id,
     l ∈ lines ∧ str_split l = [node_id; label_id] ∧
     has_node_id (base s) N_TYPE_NODE node_id = false) →
  for_each _read_labels_line s lines = Raise KeyError.
Proof.
  induction lines as [|line rest IH]; intros s Hflag Hall (l & nid & lid & Hin & Hl & Hno).
  - by apply elem_of_nil in Hin.
  - apply Forall_cons in Hall as [Hlen Hall]. simpl.
    destruct (_read_labels_line s line) as [s1|e] eqn:E; simpl.
    + destruct (_read_labels_line_frame _ _ _ Hflag E) as [(Hf1 & _ & _ & _ & Hn & _) _].
      apply IH; [congruence | done |].
      apply elem_of_cons in Hin as [->|Hin].
      * exfalso. revert E. unfold _read_labels_line. rewrite Hl, Hflag.
        unfold get_node_index. unfold has_node_id in Hno.
        destruct (id_index_dict (base s) N_TYPE_NODE !! nid); [discriminate |].
        simpl. discriminate.
      * exists l, nid, lid. split; [done |]. split; [done |].
        revert Hno. unfold has_node_id. simpl. by rewrite Hn.
    + revert E. unfold _read_labels_line.
      destruct (str_split line) as [|a [|b [|? ?]]]; try discriminate Hlen.
      rewrite Hflag. unfold get_node_index.
      destruct (id_index_dict (base s) N_TYPE_NODE !! a) as [i|]; simpl.
      * by destruct (get_or_create_node_index (base s) N_TYPE_LABEL b).
      * by intros [= <-].
Qed.

(** ** The feature matrix *)

Lemma feature_matrix_token_coo n es t :
  feature_matrix_token n (coo_of es) t = coo_of (es ++ [(n, t)]).
Proof. unfold coo_of, feature_matrix_token. by rewrite !map_app. Qed.

Lemma fold_tokens_coo n l : ∀ es,
  fold_left (feature_matrix_token n) l (coo_of es) = coo_of (es ++ map (pair n) l).
Proof.
  induction l as [|t l IH]; intros es; cbn [fold_left map].
  - by rewrite app_nil_r.
  - by rewrite feature_matrix_token_coo, IH, <- app_assoc.
Qed.

Lemma features_of_lookup s n l :
  node_attr_dict (base s) !! (N_TYPE_NODE, n, "features") = Some (AttrList l) →
  features_of s n = l.
Proof. unfold features_of. by intros ->. Qed.

(** The outer loop of [feature_matrix] over nodes that all have features
    does not fail and collects their entries. *)
Lemma feature_loop_coo s nodes : ∀ es,
  (∀ n, n ∈ nodes →
        ∃ l, node_attr_dict (base s) !! (N_TYPE_NODE, n, "features") = Some (AttrList l)) →
  for_each (feature_matrix_node s) (coo_of es) nodes
  = Ok (coo_of (es ++ node_entries s nodes)).
Proof.
  induction nodes as [|n nodes IH]; intros es Hfeat; simpl.
  - by rewrite app_nil_r.
  - destruct (Hfeat n) as [l Hl]; [by left |].
    unfold feature_matrix_node at 1, get_node_attr. rewrite Hl. simpl.
    rewrite fold_tokens_coo, IH.
    + by rewrite (features_of_lookup _ _ _ Hl), <- app_assoc.
    + intros m Hm. apply Hfeat. by right.
Qed.

Lemma csr_accumulate_get es : ∀ cells i j,
  default 0%Z (csr_accumulate (map (fun _ => 1%Z) es) (map fst es) (map snd es) cells
               !! (i, j))
  = (default 0%Z (cells !! (i, j)) + Z.of_nat (count_occ coord_eq_dec es (i, j)))%Z.
Proof.
  induction es as [|[r c] es IH]; intros cells i j; cbn [map csr_accumulate fst snd].
  - simpl. lia.
  - rewrite IH. destruct (decide ((r, c) = (i, j))) as [[= -> ->]|Hne].
    + rewrite lookup_insert_eq, count_occ_cons_eq by done. simpl. lia.
    + rewrite lookup_insert_ne, count_occ_cons_neq by done. lia.
Qed.

Lemma count_occ_row m l n t :
  count_occ coord_eq_dec (map (pair m) l) (n, t)
  = if decide (m = n) then count_occ Nat.eq_dec l t else 0.
Proof.
  induction l as [|x l IH]; cbn [map]; [by destruct (decide (m = n)) |].
  destruct (decide ((m, x) = (n, t))) as [[= -> ->]|Hne].
  - rewrite count_occ_cons_eq, IH by done.
    rewrite !decide_True by done. by rewrite count_occ_cons_eq.
  - rewrite count_occ_cons_neq, IH by done.
    destruct (decide (m = n)) as [->|]; [|done].
    rewrite count_occ_cons_neq; [done | congruence].
Qed.

Lemma count_occ_node_entries s nodes n t :
  NoDup nodes →
  count_occ coord_eq_dec (node_entries s nodes) (n, t)
  = if decide (n ∈ nodes) then count_occ Nat.eq_dec (features_of s n) t else 0.
Proof.
  unfold node_entries. induction 1 as [|m nodes Hm Hnd IH]; simpl.
  - done.
  - rewrite count_occ_app, count_occ_row, IH.
    destruct (decide (m = n)) as [->|Hne].
    + rewrite decide_False by done. rewrite decide_True by left. lia.
    + destruct (decide (n ∈ nodes)) as [Hin|Hnin].
      * rewrite decide_True by (by right). done.
      * rewrite decide_False; [done |]. intros [?|?]%elem_of_cons; [congruence | done].
Qed.

Lemma node_entries_bounds s nodes :
  Forall (fun e => fst e ∈ nodes ∧ snd e ∈ features_of s (fst e)) (node_entries s nodes).
Proof.
  unfold node_entries. induction nodes as [|n nodes IH]; simpl; [constructor |].
  apply Forall_app. split.
  - apply Forall_map, Forall_forall. intros t Ht. simpl. split; [left | done].
  - eapply Forall_impl; [exact IH |]. intros [m t] [? ?]. split; [by right | done].
Qed.

Lemma features_of_bound s n :
  features_in_vocabulary s →
  Forall (fun t => t < num_tokens (tokenizer s)) (features_of s n).
Proof.
  intros [_ Hvoc]. unfold features_of.
  destruct (node_attr_dict (base s) !! (N_TYPE_NODE, n, "features")) as [[l|]|] eqn:E;
    [by eapply Hvoc | constructor | constructor].
Qed.

(** On a dataset where every NODE index has features inside the
    vocabulary, the bag-of-words matrix is built without failure and its
    cells are the occurrence counts. *)
Lemma feature_matrix_counts s :
  all_featured s → features_in_vocabulary s →
  let N := num_nodes (base s) N_TYPE_NODE in
  let T := num_tokens (tokenizer s) in
  ∃ m, feature_matrix s true true = Ok (SparseMatrix m) ∧
       feature_matrix s true false
       = Ok (DenseMatrix (map (map float32_of_int) (todense m))) ∧
       csr_shape m = (N, T) ∧
       ∀ n t, csr_get m n t =
              Z.of_nat (if decide (n < N)
                        then count_occ Nat.eq_dec (features_of s n) t else 0).
Proof.
  intros Hfeat Hvoc N T.
  set (es := node_entries s (seq 0 N)).
  assert (Hloop : for_each (feature_matrix_node s) ([], [], []) (seq 0 N)
                  = Ok (coo_of es)).
  { change ([], [], []) with (coo_of []). rewrite feature_loop_coo; [done |].
    intros n Hn. apply Hfeat. apply elem_of_seq in Hn. lia. }
  assert (Hcheck : csr_matrix (map (fun _ => 1%Z) es) (map fst es) (map snd es) (N, T)
                   = Ok {| csr_shape := (N, T);
                           csr_cells := csr_accumulate (map (fun _ => 1%Z) es)
                                          (map fst es) (map snd es) ∅ |}).
  { unfold csr_matrix.
    rewrite !bool_decide_eq_true_2 by (by rewrite !length_map).
    assert (Hr : forallb (fun r => Nat.ltb r (fst (N, T))) (map fst es) = true).
    { apply forallb_forall. intros r Hr. apply in_map_iff in Hr as ([n t] & <- & He).
      pose proof (node_entries_bounds s (seq 0 N)) as Hb.
      rewrite Forall_forall in Hb. apply list_elem_of_In in He.
      destruct (Hb _ He) as [Hn _]. simpl in *. apply elem_of_seq in Hn.
      apply Nat.ltb_lt. lia. }
    assert (Hc : forallb (fun c => Nat.ltb c (snd (N, T))) (map snd es) = true).
    { apply forallb_forall. intros c Hc. apply in_map_iff in Hc as ([n t] & <- & He).
      pose proof (node_entries_bounds s (seq 0 N)) as Hb.
      rewrite Forall_forall in Hb. apply list_elem_of_In in He.
      destruct (Hb _ He) as [_ Ht]. simpl in *.
      pose proof (features_of_bound s n Hvoc) as Hlt.
      rewrite Forall_forall in Hlt. apply Nat.ltb_lt. by apply Hlt. }
    by rewrite Hr, Hc. }
  eexists. unfold feature_matrix.
  fold N. fold T. rewrite Hloop. cbn [bind coo_of]. rewrite Hcheck. cbn [bind negb].
  split; [reflexivity |]. split; [reflexivity |]. split; [reflexivity |].
  intros n t. unfold csr_get. cbn [csr_cells].
  rewrite csr_accumulate_get, lookup_empty. cbn [default].
  subst es. rewrite count_occ_node_entries by apply NoDup_seq.
  destruct (decide (n < N)) as [Hlt|Hge].
  - rewrite decide_True; [lia |]. apply elem_of_seq. lia.
  - rewrite decide_False; [lia |]. rewrite elem_of_seq. lia.
Qed.

End Passes.

Section Claims.
Context `{FL : Floats}.

(** C1.  Whatever value is passed for [ignore_featureless_node], the
    constructor stores [true] in the field, the field is [true] when the
    labels pass starts, when the structure pass starts and in the dataset
    returned, and the whole construction gives the same result as with
    the other value of the argument. *)
Theorem ignore_featureless_node_hardcoded
    (dir : DataDir) (fmt : string) (b : bool) (tok : option Tokenizer) :
  ignore_featureless_node (GraphDataset_init_fields dir fmt b tok) = true ∧
  GraphDataset_init dir fmt b tok = GraphDataset_init dir fmt true tok ∧
  GraphDataset_init dir fmt b tok = GraphDataset_init dir fmt false tok ∧
  (∀ s1, _read_docs (GraphDataset_init_fields dir fmt b tok) = Ok s1 →
         ignore_featureless_node s1 = true ∧
         ∀ s2, _read_labels s1 = Ok s2 → ignore_featureless_node s2 = true) ∧
  (∀ ds, GraphDataset_init dir fmt b tok = Ok ds → ignore_featureless_node ds = true).
Proof.
  split; [reflexivity |]. split; [reflexivity |]. split; [reflexivity |].
  split.
  - intros s1 Hd. apply _read_docs_facts in Hd as (D1 & _). simpl in D1.
    split; [done |]. intros s2 Hl.
    apply _read_labels_frame in Hl as [(-> & _) _]; done.
  - intros ds Hinit.
    by destruct (GraphDataset_init_facts _ _ _ _ _ Hinit) as (_ & _ & _ & ? & _).
Qed.

(** C4.  In a dataset returned by the constructor, for either format,
    every edge joins two NODE indices that differ.  In the adjacency
    format a neighbour either leaves the edges as they are or adds one
    edge between the two resolved indices, which differ; an edge-list
    line does the same; so when the two identifiers resolve to the same
    index, no edge is added. *)
Theorem no_self_loops
    (dir : DataDir) (fmt : string) (b : bool) (tok : option Tokenizer)
    (ds : GraphDataset) :
  GraphDataset_init dir fmt b tok = Ok ds →
  Forall proper_edge (edge_list (base ds)) ∧
  (∀ i0 s node_id1 s',
     _read_adjedges_neighbor i0 s node_id1 = Ok s' →
     let i1 := fst (get_or_create_node_index (base s) N_TYPE_NODE node_id1) in
     (edge_list (base s') = edge_list (base s) ∨
      (i0 ≠ i1 ∧
       edge_list (base s') =
       edge_list (base s) ++ [(N_TYPE_NODE, N_TYPE_NODE, i0, i1, float_1_0)])) ∧
     (i0 = i1 → edge_list (base s') = edge_list (base s))) ∧
  (∀ s w line s' w' node_id0 node_id1,
     _read_edgelist_line (s, w) line = Ok (s', w') →
     str_split line !! 0 = Some node_id0 →
     str_split line !! 1 = Some node_id1 →
     let i0 := fst (get_or_create_node_index (base s) N_TYPE_NODE node_id0) in
     let g := snd (get_or_create_node_index (base s) N_TYPE_NODE node_id0) in
     let i1 := fst (get_or_create_node_index g N_TYPE_NODE node_id1) in
     (edge_list (base s') = edge_list (base s) ∨
      (i0 ≠ i1 ∧ ∃ x, w' = Some x ∧
       edge_list (base s') =
       edge_list (base s) ++ [(N_TYPE_NODE, N_TYPE_NODE, i0, i1, x)])) ∧
     (i0 = i1 → edge_list (base s') = edge_list (base s))).
Proof.
  intros Hinit. split; [|split].
  - by destruct (GraphDataset_init_facts _ _ _ _ _ Hinit) as (_ & _ & _ & _ & _ & ? & _).
  - intros i0 s node_id1 s' Hstep i1.
    pose proof (_read_adjedges_neighbor_edges _ _ _ _ Hstep) as Hedge.
    split; [exact Hedge |].
    intros Heq. destruct Hedge as [? | [Hne _]]; [done |]. by destruct Hne.
  - intros s w line s' w' node_id0 node_id1 Hstep H0 H1 i0 g i1.
    pose proof (_read_edgelist_line_edges _ _ _ _ _ _ _ Hstep H0 H1) as Hedge.
    split; [exact Hedge |].
    intros Heq. destruct Hedge as [? | [Hne _]]; [done |]. by destruct Hne.
Qed.

(** C6.  A line of [labels.txt] with a node identifier that is not
    registered: with the filter flag on, the line raises [KeyError] and
    creates nothing; with the flag off, the line creates the node, with
    the next NODE index.  In the constructor, where the flag is on, a
    labels file of two-field lines in which such a line occurs makes the
    construction fail with [KeyError]. *)
Theorem labels_unknown_node
    (s : GraphDataset) (line node_id label_id : string) :
  str_split line = [node_id; label_id] →
  has_node_id (base s) N_TYPE_NODE node_id = false →
  (ignore_featureless_node s = true → _read_labels_line s line = Raise KeyError) ∧
  (ignore_featureless_node s = false →
   ∃ s', _read_labels_line s line = Ok s' ∧
         node_id_index_dict (base s') !! node_id = Some (num_nodes (base s) N_TYPE_NODE) ∧
         num_nodes (base s') N_TYPE_NODE = S (num_nodes (base s) N_TYPE_NODE)) ∧
  (∀ dir fmt b tok lines,
     _read_docs (GraphDataset_init_fields dir fmt b tok) = Ok s →
     labels_txt dir = Some lines →
     Forall (fun l => length (str_split l) = 2) lines →
     line ∈ lines →
     GraphDataset_init dir fmt b tok = Raise KeyError).
Proof.
  intros Hl Hno.
  assert (Hnone : node_id_index_dict (base s) !! node_id = None).
  { revert Hno. unfold has_node_id. simpl.
    by destruct (node_id_index_dict (base s) !! node_id). }
  split; [|split].
  - intros Hflag. unfold _read_labels_line, get_node_index. rewrite Hl, Hflag.
    simpl. by rewrite Hnone.
  - intros Hflag. unfold _read_labels_line. rewrite Hl, Hflag. simpl.
    unfold get_or_create_node_index at 1. simpl. rewrite Hnone.
    pose proof (get_or_create_label_frame
                  (set_id_index_dict (base s) N_TYPE_NODE
                     (<[node_id := num_nodes (base s) N_TYPE_NODE]>
                        (id_index_dict (base s) N_TYPE_NODE))) label_id)
      as (Hn & _ & _).
    destruct (get_or_create_node_index _ N_TYPE_LABEL label_id) as [li g].
    simpl in Hn. eexists. split; [reflexivity |]. simpl.
    unfold num_nodes. simpl. rewrite Hn.
    split; [apply lookup_insert_eq | by apply map_size_insert_None].
  - intros dir fmt b tok lines Hd Hlab Hall Hin.
    pose proof (_read_docs_facts _ _ Hd) as (D1 & _). simpl in D1.
    pose proof (_read_docs_fields _ _ Hd) as (F1 & _). simpl in F1.
    unfold GraphDataset_init. rewrite Hd. simpl.
    unfold _read_labels. rewrite F1, Hlab. simpl.
    rewrite (_read_labels_lines_unknown lines s D1 Hall); [done |].
    by exists line, node_id, label_id.
Qed.

(** After any lines of the edge list among which a weight was parsed,
    the local variable [weight] holds the weight parsed most recently.
    A following line of two fields is read without failure and leaves
    [weight] as it is; the only edge it can add carries that weight, and
    it adds this edge when its two identifiers are known with different
    indices. *)
Lemma _read_edgelist_line_carried
    (s : GraphDataset) (pre : list string) (st : GraphDataset * option float)
    (line id0 id1 : string) (w : float) :
  for_each _read_edgelist_line (s, None) pre = Ok st →
  last_parsed_weight pre = Some w →
  str_split line = [id0; id1] →
  snd st = Some w ∧
  ∃ s', _read_edgelist_line st line = Ok (s', Some w) ∧
        (let i0 := fst (get_or_create_node_index (base (fst st)) N_TYPE_NODE id0) in
         let g := snd (get_or_create_node_index (base (fst st)) N_TYPE_NODE id0) in
         let i1 := fst (get_or_create_node_index g N_TYPE_NODE id1) in
         edge_list (base s') = edge_list (base (fst st)) ∨
         (i0 ≠ i1 ∧
          edge_list (base s') =
          edge_list (base (fst st)) ++ [(N_TYPE_NODE, N_TYPE_NODE, i0, i1, w)])) ∧
        (∀ i0 i1,
           node_id_index_dict (base (fst st)) !! id0 = Some i0 →
           node_id_index_dict (base (fst st)) !! id1 = Some i1 →
           i0 ≠ i1 →
           edge_list (base s') =
           edge_list (base (fst st)) ++ [(N_TYPE_NODE, N_TYPE_NODE, i0, i1, w)]).
Proof.
  intros Hrun Hw Hl.
  apply _read_edgelist_lines_weight in Hrun.
  unfold last_parsed_weight in Hw.
  destruct (last_weight_field pre) as [x|]; [|discriminate].
  rewrite Hw in Hrun. split; [done |].
  destruct st as [s1 w1]. simpl in *. subst w1.
  destruct (_read_edgelist_line_two_fields s1 w line id0 id1 Hl) as [s' Hstep].
  exists s'. split; [done |]. split.
  - pose proof (_read_edgelist_line_edges s1 (Some w) line s' (Some w) id0 id1 Hstep)
      as Hedge.
    rewrite Hl in Hedge. specialize (Hedge eq_refl eq_refl). simpl in Hedge.
    destruct Hedge as [?|(Hne & x' & [= <-] & He)]; [by left | by right].
  - intros i0 i1 H0 H1 Hne.
    rewrite (_read_edgelist_line_two_known s1 (Some w) line id0 id1 i0 i1) in Hstep
      by done.
    by simplify_eq.
Qed.

Lemma _read_edgelist_line_appends s w line s' w' :
  _read_edgelist_line (s, w) line = Ok (s', w') →
  ∃ rest, edge_list (base s') = edge_list (base s) ++ rest.
Proof.
  intros Hstep. destruct (str_split line) as [|a [|c r]] eqn:Hl.
  - revert Hstep. unfold _read_edgelist_line, item. by rewrite Hl.
  - revert Hstep. unfold _read_edgelist_line, item. by rewrite Hl.
  - pose proof (_read_edgelist_line_edges s w line s' w' a c Hstep) as He.
    rewrite Hl in He. specialize (He eq_refl eq_refl). cbv zeta in He.
    destruct He as [He|(_ & x & _ & He)]; rewrite He.
    + exists []. by rewrite app_nil_r.
    + by eexists.
Qed.

(** The loop of [_read_edgelist] only appends to the edge list. *)
Lemma _read_edgelist_lines_append lines st st' :
  for_each _read_edgelist_line st lines = Ok st' →
  ∃ rest, edge_list (base (fst st')) = edge_list (base (fst st)) ++ rest.
Proof.
  apply (for_each_invariant _read_edgelist_line
           (fun st1 => ∃ rest, edge_list (base (fst st1))
                               = edge_list (base (fst st)) ++ rest)).
  - intros [s1 w1] x [s2 w2] [rest Hrest] Hstep. simpl in *.
    destruct (_read_edgelist_line_appends _ _ _ _ _ Hstep) as [rest2 He].
    exists (rest ++ rest2). by rewrite He, Hrest, app_assoc.
  - exists []. by rewrite app_nil_r.
Qed.

(** C2.  In a construction from the edge-list format that succeeds, take
    a line of [edgelist.txt] of exactly two fields that comes after
    lines among which a weight was parsed.  When the loop of
    [_read_edgelist] reaches the line, the local variable [weight] holds
    the weight parsed most recently; the line is read without failure
    and leaves [weight] as it is; the only edge it can add carries that
    weight, not 1.0; and when its two identifiers are known with
    different indices, the dataset that [_read_edgelist] and the
    constructor return has this edge, with that weight, right after the
    edges of the lines before. *)
Theorem edgelist_weight_carried_over
    (dir : DataDir) (fmt : string) (b : bool) (tok : option Tokenizer)
    (s1 s2 ds : GraphDataset) (pre post : list string)
    (st : GraphDataset * option float) (line id0 id1 : string) (w : float) :
  fmt ≠ FORMAT_ADJEDGES →
  _read_docs (GraphDataset_init_fields dir fmt b tok) = Ok s1 →
  _read_labels s1 = Ok s2 →
  edgelist_txt dir = Some (pre ++ line :: post) →
  for_each _read_edgelist_line (s2, None) pre = Ok st →
  last_parsed_weight pre = Some w →
  str_split line = [id0; id1] →
  GraphDataset_init dir fmt b tok = Ok ds →
  snd st = Some w ∧
  _read_edgelist s2 = Ok ds ∧
  ∃ s' rest,
    _read_edgelist_line st line = Ok (s', Some w) ∧
    (let i0 := fst (get_or_create_node_index (base (fst st)) N_TYPE_NODE id0) in
     let g := snd (get_or_create_node_index (base (fst st)) N_TYPE_NODE id0) in
     let i1 := fst (get_or_create_node_index g N_TYPE_NODE id1) in
     edge_list (base s') = edge_list (base (fst st)) ∨
     (i0 ≠ i1 ∧
      edge_list (base s') =
      edge_list (base (fst st)) ++ [(N_TYPE_NODE, N_TYPE_NODE, i0, i1, w)])) ∧
    edge_list (base ds) = edge_list (base s') ++ rest ∧
    (∀ i0 i1,
       node_id_index_dict (base (fst st)) !! id0 = Some i0 →
       node_id_index_dict (base (fst st)) !! id1 = Some i1 →
       i0 ≠ i1 →
       edge_list (base ds) =
       edge_list (base (fst st)) ++ (N_TYPE_NODE, N_TYPE_NODE, i0, i1, w) :: rest).
Proof.
  intros Hfmt Hd Hlab Hfile Hrun Hw Hl Hinit.
  destruct (_read_edgelist_line_carried s2 pre st line id0 id1 w Hrun Hw Hl)
    as (Hsnd & s' & Hstep & Halt & Hknown).
  pose proof (_read_docs_facts _ _ Hd) as (D1 & _). simpl in D1.
  pose proof (_read_docs_fields _ _ Hd) as (F1 & F2). simpl in F1, F2.
  destruct (_read_labels_frame _ _ D1 Hlab) as [(_ & _ & G1 & G2 & _) _].
  assert (Hedge : _read_edgelist s2 = Ok ds).
  { revert Hinit. unfold GraphDataset_init. rewrite Hd. cbn [bind].
    rewrite Hlab. cbn [bind]. unfold _read_structure. rewrite G2, F2.
    by destruct (decide (fmt = FORMAT_ADJEDGES)). }
  assert (Hfin : ∃ stf, for_each _read_edgelist_line (s', Some w) post = Ok stf ∧
                        ds = fst stf).
  { generalize Hedge. unfold _read_edgelist. rewrite G1, F1, Hfile.
    cbn [open_lines bind].
    rewrite for_each_app, Hrun. cbn [bind for_each]. rewrite Hstep. cbn [bind].
    destruct (for_each _read_edgelist_line (s', Some w) post) as [stf|];
      [|discriminate].
    cbn [bind]. intros [= <-]. by exists stf. }
  destruct Hfin as (stf & Epost & ->).
  split; [exact Hsnd |]. split; [exact Hedge |].
  destruct (_read_edgelist_lines_append _ _ _ Epost) as [rest Hrest].
  cbn [fst] in Hrest.
  exists s', rest. split; [exact Hstep |]. split; [exact Halt |].
  split; [exact Hrest |].
  intros i0 i1 H0 H1 Hne. rewrite Hrest, (Hknown i0 i1 H0 H1 Hne).
  by rewrite <- app_assoc.
Qed.

(** A line of two known identifiers with the same index: the line is
    read without failure whatever [weight] is, assigned or not, and it
    changes neither [weight] nor anything of the dataset. *)
Lemma _read_edgelist_line_same_index s w line id0 id1 i :
  str_split line = [id0; id1] →
  node_id_index_dict (base s) !! id0 = Some i →
  node_id_index_dict (base s) !! id1 = Some i →
  _read_edgelist_line (s, w) line = Ok (with_base s (base s), w).
Proof.
  intros Hs H0 H1. unfold _read_edgelist_line, item. rewrite Hs. simpl.
  unfold has_node_id, get_or_create_node_index. simpl. rewrite H0. simpl.
  rewrite andb_false_r. rewrite H1. simpl. rewrite andb_false_r.
  destruct (decide (i ≠ i)); [contradiction | done].
Qed.

(** C9, as amended.  In the edge-list format, when the labels pass has
    succeeded, take a two-field line whose two identifiers are known,
    while the lines before it have no third field and were read without
    failure, so that [weight] was never assigned.  When the two indices
    differ, the line fails with [UnboundLocalError], and so does the
    construction.  When the two indices are the same, the line raises
    nothing: the test for a self-loop skips the branch that reads
    [weight], the dataset, its edge list and [weight] stay as they are,
    and the construction goes on with the lines after it.  A line of two
    known identifiers with the same index raises nothing and changes
    nothing in every state of the loop, whether [weight] is assigned or
    not. *)
Theorem edgelist_unbound_weight
    (dir : DataDir) (fmt : string) (b : bool) (tok : option Tokenizer)
    (s1 s2 : GraphDataset) (pre post : list string)
    (st : GraphDataset * option float) (line id0 id1 : string) (i0 i1 : nat) :
  fmt ≠ FORMAT_ADJEDGES →
  _read_docs (GraphDataset_init_fields dir fmt b tok) = Ok s1 →
  _read_labels s1 = Ok s2 →
  edgelist_txt dir = Some (pre ++ line :: post) →
  Forall (fun l => length (str_split l) ≠ 3) pre →
  for_each _read_edgelist_line (s2, None) pre = Ok st →
  str_split line = [id0; id1] →
  node_id_index_dict (base (fst st)) !! id0 = Some i0 →
  node_id_index_dict (base (fst st)) !! id1 = Some i1 →
  snd st = None ∧
  (i0 ≠ i1 →
   _read_edgelist_line st line = Raise UnboundLocalError ∧
   GraphDataset_init dir fmt b tok = Raise UnboundLocalError) ∧
  (i0 = i1 →
   ∃ s', _read_edgelist_line st line = Ok (s', None) ∧
         base s' = base (fst st) ∧
         edge_list (base s') = edge_list (base (fst st)) ∧
         GraphDataset_init dir fmt b tok
         = (st' <- for_each _read_edgelist_line (s', None) post ;; Ok (fst st'))) ∧
  (∀ (s : GraphDataset) (w : option float) (l a c : string) (i : nat),
     str_split l = [a; c] →
     node_id_index_dict (base s) !! a = Some i →
     node_id_index_dict (base s) !! c = Some i →
     ∃ s', _read_edgelist_line (s, w) l = Ok (s', w) ∧
           base s' = base s ∧
           edge_list (base s') = edge_list (base s) ∧
           ignore_featureless_node s' = ignore_featureless_node s ∧
           tokenizer s' = tokenizer s).
Proof.
  intros Hfmt Hd Hlab Hfile Hpre Hrun Hl H0 H1.
  assert (Hw : snd st = None).
  { rewrite (_read_edgelist_lines_weight _ _ _ _ Hrun).
    assert (Hnone : last_weight_field pre = None); [|by rewrite Hnone].
    clear -Hpre. induction Hpre as [|l pre Hlen _ IH]; [done |].
    simpl. rewrite IH. by destruct (str_split l) as [|a [|c [|x [|y r]]]]. }
  pose proof (_read_docs_facts _ _ Hd) as (D1 & _). simpl in D1.
  pose proof (_read_docs_fields _ _ Hd) as (F1 & F2). simpl in F1, F2.
  destruct (_read_labels_frame _ _ D1 Hlab) as [(_ & _ & G1 & G2 & _) _].
  assert (Hinit : GraphDataset_init dir fmt b tok
                  = (st1 <- _read_edgelist_line st line ;;
                     st' <- for_each _read_edgelist_line st1 post ;; Ok (fst st'))).
  { unfold GraphDataset_init. rewrite Hd. cbn [bind]. rewrite Hlab. cbn [bind].
    unfold _read_structure. rewrite G2, F2.
    destruct (decide (fmt = FORMAT_ADJEDGES)) as [?|_]; [done |].
    unfold _read_edgelist. rewrite G1, F1, Hfile. cbn [open_lines bind].
    rewrite for_each_app, Hrun. cbn [bind for_each].
    by destruct (_read_edgelist_line st line). }
  split; [exact Hw |]. split; [|split].
  - intros Hne.
    assert (Hstep : _read_edgelist_line st line = Raise UnboundLocalError).
    { destruct st as [s3 w3]. cbn [fst snd] in *. subst w3.
      by rewrite (_read_edgelist_line_two_known s3 None line id0 id1 i0 i1). }
    split; [exact Hstep |]. rewrite Hinit, Hstep. done.
  - intros <-. destruct st as [s3 w3]. cbn [fst snd] in *. subst w3.
    pose proof (_read_edgelist_line_same_index s3 None line id0 id1 i0 Hl H0 H1)
      as Hstep.
    eexists. split; [exact Hstep |]. split; [done |]. split; [done |].
    rewrite Hinit, Hstep. done.
  - intros s w l a c i Hs Ha Hc. eexists.
    split; [by apply (_read_edgelist_line_same_index s w l a c i) |].
    by repeat split.
Qed.

(** C5.  On a dataset returned by the constructor (given a tokenizer
    that was only used through its methods, or none),
    [feature_matrix(bag_of_words=True)] returns a sparse matrix of shape
    [num_nodes] by [num_tokens]; the cell (n, t) of a node n is the number
    of occurrences of the token index t in the features of n, which are
    all below [num_tokens], and the cells of other rows are zero.  With
    [sparse=False] the result is the dense matrix of the same cells,
    converted to float32. *)
Theorem feature_matrix_bag_of_words
    (dir : DataDir) (fmt : string) (b : bool) (tok : option Tokenizer)
    (ds : GraphDataset) :
  (∀ t, tok = Some t → Tokenizer_reachable t) →
  GraphDataset_init dir fmt b tok = Ok ds →
  let N := num_nodes (base ds) N_TYPE_NODE in
  let T := num_tokens (tokenizer ds) in
  ∃ m,
    feature_matrix ds true true = Ok (SparseMatrix m) ∧
    csr_shape m = (N, T) ∧
    (∀ n, n < N →
       ∃ l, get_node_attr (base ds) N_TYPE_NODE n "features" = Ok (AttrList l) ∧
            Forall (fun t => t < T) l ∧
            ∀ t, csr_get m n t = Z.of_nat (count_occ Nat.eq_dec l t)) ∧
    (∀ n t, N ≤ n → csr_get m n t = 0%Z) ∧
    feature_matrix ds true false
    = Ok (DenseMatrix
            (map (fun n => map (fun t => float32_of_int (csr_get m n t)) (seq 0 T))
                 (seq 0 N))).
Proof.
  intros Htok Hinit N T.
  destruct (GraphDataset_init_facts _ _ _ _ _ Hinit)
    as (s1 & _ & _ & _ & Hfeat & _ & Hvoc).
  assert (Hvoc' : features_in_vocabulary ds).
  { apply Hvoc. simpl. destruct tok as [t|].
    - by apply Tokenizer_reachable_inv, Htok.
    - apply Tokenizer_new_inv. }
  destruct (feature_matrix_counts ds Hfeat Hvoc') as (m & Hsp & Hde & Hsh & Hget).
  exists m. split; [done |]. split; [done |]. split; [|split].
  - intros n Hn. destruct (Hfeat n Hn) as [l Hl].
    exists l. unfold get_node_attr. rewrite Hl. split; [done |].
    split; [by eapply (proj2 Hvoc') |].
    intros t. rewrite Hget. fold N. rewrite decide_True by done.
    by rewrite (features_of_lookup _ _ _ Hl).
  - intros n t Hn. rewrite Hget. fold N. rewrite decide_False by lia. done.
  - rewrite Hde. unfold todense. rewrite Hsh. cbn [fst snd].
    rewrite map_map. do 2 f_equal.
    apply map_ext. intros n. by rewrite map_map.
Qed.

(** C10.  A dataset returned by the constructor has the NODE indices that
    the documents pass created and no other; a line of [docs.txt] keeps
    every NODE index provided with features; so in the result every NODE
    index below [num_nodes] has a list under ["features"], and the loop
    of [feature_matrix] over the nodes does not fail. *)
Theorem nodes_created_by_docs_pass
    (dir : DataDir) (fmt : string) (b : bool) (tok : option Tokenizer)
    (ds : GraphDataset) :
  GraphDataset_init dir fmt b tok = Ok ds →
  (∃ s1, _read_docs (GraphDataset_init_fields dir fmt b tok) = Ok s1 ∧
         node_id_index_dict (base ds) = node_id_index_dict (base s1) ∧
         num_nodes (base ds) N_TYPE_NODE = num_nodes (base s1) N_TYPE_NODE) ∧
  (∀ s line s', _read_docs_line s line = Ok s' → all_featured s → all_featured s') ∧
  (∀ n, n < num_nodes (base ds) N_TYPE_NODE →
        ∃ l, get_node_attr (base ds) N_TYPE_NODE n "features" = Ok (AttrList l)) ∧
  (∃ acc, for_each (feature_matrix_node ds) ([], [], [])
                   (seq 0 (num_nodes (base ds) N_TYPE_NODE)) = Ok acc).
Proof.
  intros Hinit.
  destruct (GraphDataset_init_facts _ _ _ _ _ Hinit)
    as (s1 & Hd & (_ & _ & _ & _ & Hn & _) & _ & Hfeat & _).
  split; [|split; [|split]].
  - exists s1. split; [done |]. split; [done |]. unfold num_nodes. simpl. by rewrite Hn.
  - intros s line s' Hstep. by apply _read_docs_line_facts in Hstep as (_ & _ & ? & _).
  - intros n Hlt. destruct (Hfeat n Hlt) as [l Hl].
    exists l. unfold get_node_attr. by rewrite Hl.
  - eexists. change ([], [], []) with (coo_of []). apply feature_loop_coo.
    intros n Hin. apply Hfeat. apply elem_of_seq in Hin. lia.
Qed.

End Claims.

(** * Further properties *)

(** ** Lookups in the tokenizer *)

Lemma get_or_create_token_index_class t token_id :
  tokenizer_class (snd (get_or_create_token_index t token_id)) = tokenizer_class t.
Proof.
  unfold get_or_create_token_index.
  by destruct (token_id_index_dict t !! token_id).
Qed.

Lemma get_or_create_token_indices_class token_ids : ∀ t,
  tokenizer_class (snd (get_or_create_token_indices t token_ids)) = tokenizer_class t.
Proof.
  induction token_ids as [|token_id rest IH]; intros t; simpl; [done |].
  pose proof (get_or_create_token_index_class t token_id) as Hc.
  destruct (get_or_create_token_index t token_id) as [i t1]. simpl in Hc.
  specialize (IH t1).
  destruct (get_or_create_token_indices t1 rest) as [indices t2]. simpl in *.
  congruence.
Qed.

Lemma get_or_create_token_indices_keeps token_ids : ∀ t id' i,
  token_id_index_dict t !! id' = Some i →
  token_id_index_dict (snd (get_or_create_token_indices t token_ids)) !! id' = Some i.
Proof.
  induction token_ids as [|token_id rest IH]; intros t id' i Hi; simpl; [done |].
  pose proof (get_or_create_token_index_keeps t token_id id' i Hi) as Hk.
  destruct (get_or_create_token_index t token_id) as [j t1]. simpl in Hk.
  specialize (IH t1 id' i Hk).
  by destruct (get_or_create_token_indices t1 rest) as [indices t2].
Qed.

(** After the creating pass over [token_ids], each identifier is
    recorded with the index that the pass returned for it. *)
Lemma get_or_create_token_indices_registered token_ids : ∀ t,
  Forall2 (fun id i =>
             token_id_index_dict (snd (get_or_create_token_indices t token_ids)) !! id
             = Some i)
          token_ids (fst (get_or_create_token_indices t token_ids)).
Proof.
  induction token_ids as [|token_id rest IH]; intros t; simpl; [constructor |].
  pose proof (get_or_create_token_index_lookup t token_id) as Hl.
  destruct (get_or_create_token_index t token_id) as [i t1]. simpl in Hl.
  pose proof (get_or_create_token_indices_keeps rest t1 token_id i Hl) as Hk.
  specialize (IH t1).
  destruct (get_or_create_token_indices t1 rest) as [indices t2]. simpl in *.
  by constructor.
Qed.

Lemma get_token_indices_known t token_ids l :
  Forall2 (fun id i => token_id_index_dict t !! id = Some i) token_ids l →
  get_token_indices t token_ids = Ok l ∧
  get_or_create_token_indices t token_ids = (l, t).
Proof.
  induction 1 as [|id i ids l Hi _ [IH1 IH2]]; simpl; [done |].
  unfold get_token_index, get_or_create_token_index. rewrite Hi. simpl.
  rewrite IH1, IH2. done.
Qed.

(** X1.  [get_token_index] finds, after [get_or_create_token_index], the
    index that call returned; it raises [KeyError] for an identifier that
    was never registered; and an index that it finds stays the same when
    other identifiers are registered. *)
Theorem get_token_index_after_create (t : Tokenizer) (token_id : string) :
  get_token_index (snd (get_or_create_token_index t token_id)) token_id
  = Ok (fst (get_or_create_token_index t token_id)) ∧
  (token_id_index_dict t !! token_id = None →
   get_token_index t token_id = Raise KeyError) ∧
  (∀ other i,
     get_token_index t other = Ok i →
     get_token_index (snd (get_or_create_token_index t token_id)) other = Ok i).
Proof.
  split; [|split].
  - unfold get_token_index. by rewrite get_or_create_token_index_lookup.
  - intros Hn. unfold get_token_index. by rewrite Hn.
  - intros other i. unfold get_token_index.
    destruct (token_id_index_dict t !! other) as [j|] eqn:E; [|discriminate].
    intros [= ->].
    by rewrite (get_or_create_token_index_keeps t token_id other i E).
Qed.

(** X2.  After [tokenize_to_indices] has encoded a text with creation of
    indices, encoding the same text again, without creation or with it,
    returns the same indices and leaves the tokenizer as it is. *)
Theorem tokenize_to_indices_again
    (t : Tokenizer) (s : string) (l : list nat) (t' : Tokenizer) :
  tokenize_to_indices t s true = Ok (l, t') →
  tokenize_to_indices t' s false = Ok (l, t') ∧
  tokenize_to_indices t' s true = Ok (l, t').
Proof.
  unfold tokenize_to_indices at 1.
  destruct (tokenize t s) as [token_ids|] eqn:Et; [|discriminate].
  simpl. intros [= Hg].
  pose proof (get_or_create_token_indices_registered token_ids t) as Hreg.
  pose proof (get_or_create_token_indices_class token_ids t) as Hcls.
  rewrite Hg in Hreg, Hcls. simpl in Hreg, Hcls.
  destruct (get_token_indices_known _ _ _ Hreg) as [H1 H2].
  assert (Et' : tokenize t' s = Ok token_ids).
  { revert Et. unfold tokenize. by rewrite Hcls. }
  unfold tokenize_to_indices. rewrite Et'. simpl. by rewrite H1, H2.
Qed.

(** X3.  On a tokenizer that was only used through its methods, the
    indices that [tokenize_to_indices] returns are as many as the tokens
    of the text and decode, through [token_index_id_dict], to these
    tokens in their order. *)
Theorem tokenize_to_indices_decode
    (t : Tokenizer) (s : string) (l : list nat) (t' : Tokenizer) :
  Tokenizer_reachable t →
  tokenize_to_indices t s true = Ok (l, t') →
  ∃ token_ids,
    tokenize t s = Ok token_ids ∧
    length l = length token_ids ∧
    map (fun i => token_index_id_dict t' !! i) l = map Some token_ids.
Proof.
  intros Hr. unfold tokenize_to_indices.
  destruct (tokenize t s) as [token_ids|] eqn:Et; [|discriminate].
  simpl. intros [= Hg]. exists token_ids. split; [done |].
  pose proof (get_or_create_token_indices_registered token_ids t) as Hreg.
  pose proof (get_or_create_token_indices_inv token_ids t
                (Tokenizer_reachable_inv _ Hr)) as [Hbij _].
  rewrite Hg in Hreg, Hbij. simpl in Hreg, Hbij.
  split; [symmetry; by eapply Forall2_length |].
  clear Hg Et. induction Hreg as [|id i ids l' Hi _ IH]; simpl; [done |].
  f_equal; [by apply Hbij | exact IH].
Qed.

(** X4.  Without creation of indices, [tokenize_to_indices] raises
    [KeyError] when some token of the text is not registered; when all
    are, it returns their recorded indices, in order, and the tokenizer
    as it was. *)
Theorem tokenize_to_indices_lookup_only
    (t : Tokenizer) (s : string) (token_ids : list string) :
  tokenize t s = Ok token_ids →
  ((∃ id, id ∈ token_ids ∧ token_id_index_dict t !! id = None) →
   tokenize_to_indices t s false = Raise KeyError) ∧
  ((∀ id, id ∈ token_ids → is_Some (token_id_index_dict t !! id)) →
   ∃ l, tokenize_to_indices t s false = Ok (l, t) ∧
        Forall2 (fun id i => token_id_index_dict t !! id = Some i) token_ids l).
Proof.
  intros Et. unfold tokenize_to_indices. rewrite Et. simpl. clear Et. split.
  - intros (id & Hin & Hnone).
    assert (Hraise : get_token_indices t token_ids = Raise KeyError);
      [|by rewrite Hraise].
    induction token_ids as [|a rest IH]; [by apply elem_of_nil in Hin |].
    simpl. unfold get_token_index.
    destruct (token_id_index_dict t !! a) as [i|] eqn:Ea; simpl; [|done].
    apply elem_of_cons in Hin as [->|Hin]; [congruence |].
    by rewrite (IH Hin).
  - intros Hall.
    assert (Hl : ∃ l, Forall2 (fun id i => token_id_index_dict t !! id = Some i)
                              token_ids l).
    { induction token_ids as [|a rest IH]; [by exists [] |].
      destruct (Hall a) as [i Hi]; [by left |].
      destruct IH as [l Hl]; [intros id Hid; apply Hall; by right |].
      exists (i :: l). by constructor. }
    destruct Hl as [l Hl]. exists l. split; [|done].
    by rewrite (proj1 (get_token_indices_known _ _ _ Hl)).
Qed.

(** ** The order of the token indices *)

Lemma first_seen_spec ids : ∀ seen,
  NoDup seen →
  NoDup (seen ++ first_seen seen ids) ∧
  ∀ id, id ∈ seen ++ first_seen seen ids ↔ id ∈ seen ∨ id ∈ ids.
Proof.
  induction ids as [|a rest IH]; intros seen Hnd; simpl.
  - rewrite app_nil_r. split; [done |]. intros id. rewrite elem_of_nil. tauto.
  - destruct (decide (a ∈ seen)) as [Hin|Hnin].
    + destruct (IH seen Hnd) as [H1 H2]. split; [done |].
      intros id. rewrite H2, elem_of_cons. split; [tauto |].
      intros [?|[->|?]]; tauto.
    + assert (Hnd' : NoDup (seen ++ [a])).
      { apply NoDup_app. split; [done |]. split; [|apply NoDup_singleton].
        intros x Hx ->%list_elem_of_singleton. done. }
      destruct (IH (seen ++ [a]) Hnd') as [H1 H2].
      rewrite <- app_assoc in H1, H2. simpl in H1, H2. split; [done |].
      intros id. rewrite H2, elem_of_app, list_elem_of_singleton, elem_of_cons. tauto.
Qed.

Lemma Tokenizer_enumerates_size t order :
  Tokenizer_enumerates t order → num_tokens t = length order.
Proof.
  intros [[_ Hran] Henum].
  assert (Hlt : ∀ k, k < length order ↔ k < num_tokens t).
  { intros k. rewrite <- Hran, Henum. symmetry. apply lookup_lt_is_Some. }
  destruct (Nat.lt_trichotomy (num_tokens t) (length order)) as [Hc|[Hc|Hc]];
    [|done|].
  - apply Hlt in Hc. lia.
  - apply Hlt in Hc. lia.
Qed.

Lemma Tokenizer_enumerates_known t order id :
  Tokenizer_enumerates t order →
  id ∈ order ↔ is_Some (token_id_index_dict t !! id).
Proof.
  intros [[Hbij _] Henum]. rewrite list_elem_of_lookup. split.
  - intros [k Hk]. exists k. apply Hbij. by rewrite Henum.
  - intros [k Hk]. exists k. rewrite <- Henum. by apply Hbij.
Qed.

Lemma get_or_create_token_index_enumerates t order id :
  Tokenizer_enumerates t order →
  Tokenizer_enumerates (snd (get_or_create_token_index t id))
                       (order ++ first_seen order [id]).
Proof.
  intros Hen. pose proof (Tokenizer_enumerates_known t order id Hen) as Hknown.
  pose proof (Tokenizer_enumerates_size t order Hen) as Hsize.
  destruct Hen as [Hinv Henum].
  split; [by apply get_or_create_token_index_inv |].
  unfold get_or_create_token_index. simpl.
  destruct (token_id_index_dict t !! id) as [i|] eqn:E; simpl.
  - rewrite decide_True by (apply Hknown; eauto). by rewrite app_nil_r.
  - rewrite decide_False by (rewrite Hknown; by intros [? ?]).
    intros k. destruct (decide (num_tokens t = k)) as [<-|Hne].
    + rewrite lookup_insert_eq, Hsize.
      rewrite lookup_app_r by done. by rewrite Nat.sub_diag.
    + rewrite lookup_insert_ne by done. rewrite Henum.
      destruct (decide (k < length order)) as [Hlt|Hge].
      * by rewrite lookup_app_l.
      * rewrite lookup_ge_None_2 by lia.
        symmetry. apply lookup_ge_None_2. rewrite length_app. simpl. lia.
Qed.

Lemma get_or_create_token_indices_enumerates ids : ∀ t order,
  Tokenizer_enumerates t order →
  Tokenizer_enumerates (snd (get_or_create_token_indices t ids))
                       (order ++ first_seen order ids).
Proof.
  induction ids as [|a rest IH]; intros t order Hen; simpl.
  - by rewrite app_nil_r.
  - pose proof (get_or_create_token_index_enumerates t order a Hen) as H1.
    destruct (get_or_create_token_index t a) as [i t1]. simpl in H1.
    specialize (IH t1 _ H1).
    destruct (get_or_create_token_indices t1 rest) as [indices t2]. simpl in IH.
    destruct (decide (a ∈ order)) as [Hin|Hnin].
    + by rewrite app_nil_r in IH.
    + by rewrite <- app_assoc in IH.
Qed.

(** X5.  The token indices follow the order of first occurrence: after
    any sequence of [get_or_create_token_index] calls on a new tokenizer,
    index [k] stands for the [k]-th distinct identifier of the sequence,
    in both dictionaries, and [num_tokens()] is the number of distinct
    identifiers. *)
Theorem token_indices_first_seen (cls : TokenizerClass) (calls : list string) :
  let t := snd (get_or_create_token_indices (Tokenizer_new cls) calls) in
  let order := first_seen [] calls in
  NoDup order ∧
  (∀ id, id ∈ order ↔ id ∈ calls) ∧
  num_tokens t = length order ∧
  (∀ k, token_index_id_dict t !! k = order !! k) ∧
  (∀ k id, token_id_index_dict t !! id = Some k ↔ order !! k = Some id).
Proof.
  intros t order.
  assert (Hen : Tokenizer_enumerates t order).
  { apply (get_or_create_token_indices_enumerates calls (Tokenizer_new cls) []).
    split; [apply Tokenizer_new_inv |]. intros k. simpl. by rewrite lookup_empty. }
  destruct (first_seen_spec calls [] NoDup_nil_2) as [Hnd Hel].
  split; [exact Hnd |]. split.
  { intros id. specialize (Hel id). simpl in Hel. rewrite elem_of_nil in Hel. tauto. }
  split; [by apply Tokenizer_enumerates_size |].
  destruct Hen as [[Hbij _] Henum]. split; [exact Henum |].
  intros k id. rewrite <- Henum. apply Hbij.
Qed.

(** ** Splitting and joining *)

Lemma split_from_all_space s : ∀ cur,
  all_chars isspace s = true → split_from cur s = emit cur [].
Proof.
  induction s as [|c s IH]; intros cur Hs; simpl in *; [done |].
  apply andb_true_iff in Hs as [-> Hs]. rewrite (IH EmptyString Hs).
  by destruct cur.
Qed.

Lemma split_from_nil s : ∀ cur,
  split_from cur s = [] → cur = EmptyString ∧ all_chars isspace s = true.
Proof.
  induction s as [|c s IH]; intros cur Hs; simpl in *.
  - by destruct cur.
  - destruct (isspace c) eqn:Ec.
    + destruct cur as [|a cur]; [|discriminate]. simpl in Hs.
      by destruct (IH _ Hs) as [_ ->].
    + destruct (IH _ Hs) as [Hcur _]. by destruct cur.
Qed.

Lemma str_split_nil_iff s : str_split s = [] ↔ all_chars isspace s = true.
Proof.
  split.
  - intros Hs. by destruct (split_from_nil _ _ Hs).
  - intros Hs. unfold str_split. by rewrite split_from_all_space.
Qed.

(** A word without whitespace in front of the text joins the word that
    the scan is reading. *)
Lemma split_from_word w : ∀ cur s,
  all_chars (fun c => negb (isspace c)) w = true →
  split_from cur (w +:+ s) = split_from (cur +:+ w) s.
Proof.
  induction w as [|c w IH]; intros cur s Hw.
  - by rewrite append_empty_l, append_empty_r.
  - simpl in Hw. apply andb_true_iff in Hw as [Hc Hw].
    rewrite append_cons. simpl.
    apply negb_true_iff in Hc. rewrite Hc.
    rewrite IH by done. f_equal. apply append_snoc.
Qed.

Lemma str_split_join_space ws :
  Forall (fun w => w ≠ EmptyString ∧
                   all_chars (fun c => negb (isspace c)) w = true) ws →
  str_split (join_space ws) = ws.
Proof.
  induction 1 as [|w ws [Hne Hw] Hall IH]; [done |].
  unfold str_split in *. destruct ws as [|w2 rest].
  - simpl. rewrite <- (append_empty_r w) at 1.
    rewrite split_from_word by done. rewrite append_empty_l. simpl.
    by destruct w.
  - change (join_space (w :: w2 :: rest))
      with (w +:+ String " "%char (join_space (w2 :: rest))).
    rewrite split_from_word by done. rewrite append_empty_l.
    cbn [split_from]. change (isspace " "%char) with true. cbn iota.
    rewrite IH. by destruct w.
Qed.

(** X6.  [WhiteSpaceTokenizer.tokenize] cuts the text at its runs of
    whitespace into non-empty words without whitespace; the result is
    empty exactly for a text of whitespace only (the empty text
    included); and joining words that are non-empty and without
    whitespace by single spaces, then tokenizing, gives the words
    back. *)
Theorem WhiteSpaceTokenizer_tokenize_spec (s : string) :
  tokenize WhiteSpaceTokenizer s = Ok (WhiteSpaceTokenizer_tokenize s) ∧
  splits_on_whitespace s (WhiteSpaceTokenizer_tokenize s) ∧
  (WhiteSpaceTokenizer_tokenize s = [] ↔ all_chars isspace s = true) ∧
  (∀ ws, Forall (fun w => w ≠ EmptyString ∧
                          all_chars (fun c => negb (isspace c)) w = true) ws →
         WhiteSpaceTokenizer_tokenize (join_space ws) = ws).
Proof.
  split; [reflexivity |]. split; [apply str_split_splits |].
  split; [apply str_split_nil_iff |]. apply str_split_join_space.
Qed.

Lemma EnglishWordTokenizer_tokens_lower s :
  Forall (fun w => w ≠ EmptyString ∧ all_chars is_lower_az w = true)
         (EnglishWordTokenizer_tokenize s).
Proof.
  unfold EnglishWordTokenizer_tokenize.
  destruct (str_split_splits (punc_re_sub_space (str_lower s)))
    as (sep0 & fields & Hs & Hr & Hsep & Hall & Hin).
  rewrite Hr.
  assert (Hchars : all_chars (fun c => is_lower_az c || isspace c)
                             (weave sep0 fields) = true).
  { rewrite <- Hs. unfold punc_re_sub_space, str_lower.
    clear. induction s as [|c s IH]; [done |]. simpl. rewrite IH.
    by destruct (lowered_letter_or_space c) as [-> _]. }
  apply all_chars_weave in Hchars.
  rewrite Forall_map. rewrite Forall_forall in Hall, Hchars |- *.
  intros f Hf. destruct (Hall f Hf) as (Hne & Hns & _).
  split; [done |].
  pose proof (all_chars_and _ _ _ (Hchars f Hf) Hns) as Hboth.
  revert Hboth. apply all_chars_impl. intros c.
  destruct (is_lower_az c); [done |]. simpl. by destruct (isspace c).
Qed.

(** Lowercasing and the substitution leave a letter of [a-z] and a space
    as they are. *)
Lemma lower_az_or_space_fixed c :
  (is_lower_az c || Ascii.eqb c " "%char) = true →
  (if is_letter (lower_char c) then lower_char c else " "%char) = c ∧
  (is_lower_az c = true → isspace c = false).
Proof. destruct c as [[] [] [] [] [] [] [] []]; vm_compute; split; done. Qed.

Lemma all_chars_join_space p ws :
  p " "%char = true →
  Forall (fun w => all_chars p w = true) ws →
  all_chars p (join_space ws) = true.
Proof.
  intros Hsp. induction 1 as [|w ws Hw Hall IH]; [done |].
  destruct ws as [|w2 rest]; [done |].
  change (join_space (w :: w2 :: rest))
    with (w +:+ String " "%char (join_space (w2 :: rest))).
  rewrite all_chars_append, Hw. cbn [all_chars]. by rewrite Hsp, IH.
Qed.

(** X7.  [EnglishWordTokenizer.tokenize] gives back every list of
    non-empty words over [a-z] from their join by single spaces; so
    tokenizing the join of its own result changes nothing. *)
Theorem EnglishWordTokenizer_tokenize_idempotent :
  (∀ ws, Forall (fun w => w ≠ EmptyString ∧ all_chars is_lower_az w = true) ws →
         EnglishWordTokenizer_tokenize (join_space ws) = ws) ∧
  (∀ s, EnglishWordTokenizer_tokenize (join_space (EnglishWordTokenizer_tokenize s))
        = EnglishWordTokenizer_tokenize s).
Proof.
  assert (Hws : ∀ ws,
             Forall (fun w => w ≠ EmptyString ∧ all_chars is_lower_az w = true) ws →
             EnglishWordTokenizer_tokenize (join_space ws) = ws).
  { intros ws Hall. unfold EnglishWordTokenizer_tokenize.
    assert (Hj : all_chars (fun c => is_lower_az c || Ascii.eqb c " "%char)
                           (join_space ws) = true).
    { apply all_chars_join_space; [done |].
      eapply Forall_impl; [exact Hall |]. intros w [_ Hw].
      revert Hw. apply all_chars_impl. by intros c ->. }
    assert (Hfix : punc_re_sub_space (str_lower (join_space ws)) = join_space ws).
    { unfold punc_re_sub_space, str_lower. revert Hj. generalize (join_space ws).
      intros j. induction j as [|c j IH]; [done |]. simpl.
      intros [Hc Hj]%andb_true_iff.
      destruct (lower_az_or_space_fixed c Hc) as [-> _]. by rewrite IH. }
    rewrite Hfix. apply str_split_join_space.
    eapply Forall_impl; [exact Hall |]. intros w [Hne Hw]. split; [done |].
    revert Hw. apply all_chars_impl. intros c Hc.
    assert (Hc' : (is_lower_az c || Ascii.eqb c " "%char) = true) by (by rewrite Hc).
    destruct (lower_az_or_space_fixed c Hc') as [_ Hsp]. by rewrite Hsp. }
  split; [exact Hws |].
  intros s. apply Hws, EnglishWordTokenizer_tokens_lower.
Qed.

(** ** The lines of the input files *)

Lemma lstrip_ws_split s :
  ∃ ws, all_chars isspace ws = true ∧ s = ws +:+ lstrip_ws s ∧
        lstrip_ws (lstrip_ws s) = lstrip_ws s.
Proof.
  induction s as [|c s (ws & Hws & Hs & Hl)]; [by exists EmptyString |].
  simpl. destruct (isspace c) eqn:Ec.
  - exists (String c ws). simpl. rewrite Ec, Hws, append_cons, <- Hs. done.
  - exists EmptyString. simpl. by rewrite Ec.
Qed.

Lemma lstrip_ws_all_space s : all_chars isspace s = true → lstrip_ws s = EmptyString.
Proof.
  induction s as [|c s IH]; [done |]. simpl.
  intros [-> Hs]%andb_true_iff. by apply IH.
Qed.

Lemma re_split_ws_1_no_space s :
  all_chars (fun c => negb (isspace c)) s = true → re_split_ws_1 s = [s].
Proof.
  induction s as [|c s IH]; [done |]. simpl.
  intros [Hc Hs]%andb_true_iff. apply negb_true_iff in Hc. rewrite Hc.
  by rewrite (IH Hs).
Qed.

(** [re.split(r"\s+", s, 1)] on a text with whitespace: the part before
    the first run of whitespace, and the part after that run. *)
Lemma re_split_ws_1_space s :
  all_chars (fun c => negb (isspace c)) s = false →
  ∃ pre ws rest,
    s = pre +:+ ws +:+ rest ∧
    all_chars (fun c => negb (isspace c)) pre = true ∧
    ws ≠ EmptyString ∧ all_chars isspace ws = true ∧
    lstrip_ws rest = rest ∧
    re_split_ws_1 s = [pre; rest].
Proof.
  induction s as [|c s IH]; [discriminate |]. simpl.
  destruct (isspace c) eqn:Ec; simpl.
  - intros _. destruct (lstrip_ws_split s) as (ws & Hws & Hs & Hl).
    exists EmptyString, (String c ws), (lstrip_ws s).
    rewrite append_empty_l, append_cons, <- Hs. simpl. rewrite Ec, Hws. done.
  - intros Hs. destruct (IH Hs) as (pre & ws & rest & -> & Hpre & Hne & Hws & Hl & Hr).
    exists (String c pre), ws, rest. rewrite Hr. simpl. rewrite Ec, Hpre. done.
Qed.

Section Lines.
Context `{FL : Floats}.

Lemma tokenize_not_base t s :
  tokenizer_class t ≠ Tokenizer_base → ∃ token_ids, tokenize t s = Ok token_ids.
Proof. unfold tokenize. destruct (tokenizer_class t); [done | eauto | eauto]. Qed.

Lemma get_or_create_node_index_lookup g t node_id :
  id_index_dict (snd (get_or_create_node_index g t node_id)) t !! node_id
  = Some (fst (get_or_create_node_index g t node_id)).
Proof.
  unfold get_or_create_node_index.
  destruct (id_index_dict g t !! node_id) eqn:E; simpl; [done |].
  destruct t; simpl; apply lookup_insert_eq.
Qed.

(** What [_read_docs_line] does with a line that it can cut in two. *)
Lemma _read_docs_line_cut s line node_id sentence token_ids :
  re_split_ws_1 line = [node_id; sentence] →
  tokenize (tokenizer s) sentence = Ok token_ids →
  _read_docs_line s line =
  Ok (with_tokenizer
        (with_base s
           (set_node_attr (snd (get_or_create_node_index (base s) N_TYPE_NODE node_id))
              N_TYPE_NODE (fst (get_or_create_node_index (base s) N_TYPE_NODE node_id))
              "features"
              (AttrList (fst (get_or_create_token_indices (tokenizer s) token_ids)))))
        (snd (get_or_create_token_indices (tokenizer s) token_ids))).
Proof.
  intros Hl Ht. unfold _read_docs_line, tokenize_to_indices. rewrite Hl, Ht.
  destruct (get_or_create_node_index (base s) N_TYPE_NODE node_id) as [i g].
  simpl. by destruct (get_or_create_token_indices (tokenizer s) token_ids).
Qed.

(** X8.  A line of [docs.txt] without any whitespace (the empty line, or
    a last line that has only a node id and no newline) raises
    [ValueError].  A line with whitespace is cut at its first run of
    whitespace into the node id, which is empty when the line starts
    with whitespace, and the rest of the line, which is not split
    further; the line then fails with [NotImplementedError] under the
    abstract tokenizer and otherwise succeeds and registers the id. *)
Theorem read_docs_line_parse (s : GraphDataset) (line : string) :
  (all_chars (fun c => negb (isspace c)) line = true →
   _read_docs_line s line = Raise ValueError) ∧
  (all_chars (fun c => negb (isspace c)) line = false →
   ∃ node_id ws sentence,
     line = node_id +:+ ws +:+ sentence ∧
     all_chars (fun c => negb (isspace c)) node_id = true ∧
     ws ≠ EmptyString ∧ all_chars isspace ws = true ∧
     lstrip_ws sentence = sentence ∧
     re_split_ws_1 line = [node_id; sentence] ∧
     (tokenizer_class (tokenizer s) = Tokenizer_base →
      _read_docs_line s line = Raise NotImplementedError) ∧
     (tokenizer_class (tokenizer s) ≠ Tokenizer_base →
      ∃ s', _read_docs_line s line = Ok s' ∧
            has_node_id (base s') N_TYPE_NODE node_id = true)).
Proof.
  split.
  - intros Hl. unfold _read_docs_line. by rewrite (re_split_ws_1_no_space _ Hl).
  - intros Hl.
    destruct (re_split_ws_1_space _ Hl) as (node_id & ws & sentence & H1 & H2 & H3 & H4 & H5 & H6).
    exists node_id, ws, sentence. repeat (split; [done |]). split.
    + intros Hb. unfold _read_docs_line, tokenize_to_indices, tokenize.
      rewrite H6, Hb.
      by destruct (get_or_create_node_index (base s) N_TYPE_NODE node_id).
    + intros Hb. destruct (tokenize_not_base _ sentence Hb) as [token_ids Ht].
      eexists. split; [by apply (_read_docs_line_cut s line node_id sentence token_ids) |].
      unfold has_node_id. simpl.
      pose proof (get_or_create_node_index_lookup (base s) N_TYPE_NODE node_id) as Hn.
      simpl in Hn. by rewrite Hn.
Qed.

(** X9.  A line of [docs.txt] that is cut into a node id and a text
    whose tokens are [token_ids]: the node keeps its index when it is
    known, and gets the next index otherwise; its features become the
    indices of the tokens, replacing earlier ones; the tokenizer is the
    one after the creating calls; every other attribute, the label
    indices and the edges stay. *)
Theorem read_docs_line_effect
    (s : GraphDataset) (line node_id sentence : string) (token_ids : list string) :
  re_split_ws_1 line = [node_id; sentence] →
  tokenize (tokenizer s) sentence = Ok token_ids →
  let i := fst (get_or_create_node_index (base s) N_TYPE_NODE node_id) in
  let l := fst (get_or_create_token_indices (tokenizer s) token_ids) in
  ∃ s', _read_docs_line s line = Ok s' ∧
        node_id_index_dict (base s') !! node_id = Some i ∧
        get_node_attr (base s') N_TYPE_NODE i "features" = Ok (AttrList l) ∧
        tokenizer s' = snd (get_or_create_token_indices (tokenizer s) token_ids) ∧
        (∀ j, node_id_index_dict (base s) !! node_id = Some j →
              i = j ∧ node_id_index_dict (base s') = node_id_index_dict (base s)) ∧
        (node_id_index_dict (base s) !! node_id = None →
         i = num_nodes (base s) N_TYPE_NODE ∧
         num_nodes (base s') N_TYPE_NODE = S (num_nodes (base s) N_TYPE_NODE)) ∧
        (∀ k, k ≠ (N_TYPE_NODE, i, "features") →
              node_attr_dict (base s') !! k = node_attr_dict (base s) !! k) ∧
        label_id_index_dict (base s') = label_id_index_dict (base s) ∧
        edge_list (base s') = edge_list (base s).
Proof.
  intros Hl Ht i l. eexists.
  split; [by apply (_read_docs_line_cut s line node_id sentence token_ids) |].
  subst i l. simpl.
  pose proof (get_or_create_node_index_lookup (base s) N_TYPE_NODE node_id) as Hn.
  simpl in Hn. split; [exact Hn |].
  split; [unfold get_node_attr; simpl; by rewrite lookup_insert_eq |].
  split; [done |].
  unfold get_or_create_node_index. simpl.
  destruct (node_id_index_dict (base s) !! node_id) as [j|] eqn:E; simpl.
  - split; [by intros j' [= <-] |]. split; [done |].
    split; [intros k Hk; by rewrite lookup_insert_ne |]. done.
  - split; [done |]. split.
    { intros _. split; [done |]. unfold num_nodes. simpl.
      by rewrite map_size_insert_None. }
    split; [intros k Hk; by rewrite lookup_insert_ne |]. done.
Qed.

(** X11.  A line of the edge list with fewer than two fields raises
    [IndexError].  A line of three fields whose third field is no float
    raises [ValueError], also when the filter would skip the line.  A
    line of four or more fields is read like the line of its first two
    fields: the other fields are ignored and no weight is parsed. *)
Theorem read_edgelist_line_fields
    (s : GraphDataset) (w : option float) (line : string) :
  (length (str_split line) < 2 →
   _read_edgelist_line (s, w) line = Raise IndexError) ∧
  (∀ a b x, str_split line = [a; b; x] → float_of_str x = None →
            _read_edgelist_line (s, w) line = Raise ValueError) ∧
  (∀ a b c rest line2,
     str_split line = a :: b :: c :: rest → rest ≠ [] →
     str_split line2 = [a; b] →
     _read_edgelist_line (s, w) line = _read_edgelist_line (s, w) line2).
Proof.
  split; [|split].
  - intros Hlen. unfold _read_edgelist_line, item.
    destruct (str_split line) as [|a [|b rest]]; simpl in *; [done | done | lia].
  - intros a b x Hl Hx. unfold _read_edgelist_line, item. rewrite Hl. simpl.
    by rewrite Hx.
  - intros a b c rest line2 Hl Hrest Hl2. unfold _read_edgelist_line, item.
    rewrite Hl, Hl2. simpl.
    destruct (decide (S (S (S (length rest))) = 3)) as [Heq|_]; [|done].
    destruct rest; [done | simpl in Heq; lia].
Qed.

(** X12.  A line of whitespace only, the empty line included, raises
    [IndexError] in [adjedges.txt] and in [edgelist.txt] and
    [ValueError] in [labels.txt].  In [docs.txt] the empty line raises
    [ValueError], and a line of one or more whitespace characters
    registers a node with the empty identifier and no features (under a
    tokenizer that is not the abstract one). *)
Theorem whitespace_line
    (s : GraphDataset) (w : option float) (line : string) :
  all_chars isspace line = true →
  _read_adjedges_line s line = Raise IndexError ∧
  _read_edgelist_line (s, w) line = Raise IndexError ∧
  _read_labels_line s line = Raise ValueError ∧
  (line = EmptyString → _read_docs_line s line = Raise ValueError) ∧
  (line ≠ EmptyString → tokenizer_class (tokenizer s) ≠ Tokenizer_base →
   ∃ s', _read_docs_line s line = Ok s' ∧
         has_node_id (base s') N_TYPE_NODE EmptyString = true ∧
         get_node_attr (base s') N_TYPE_NODE
           (fst (get_or_create_node_index (base s) N_TYPE_NODE EmptyString)) "features"
         = Ok (AttrList []) ∧
         tokenizer s' = tokenizer s).
Proof.
  intros Hsp. pose proof (proj2 (str_split_nil_iff line) Hsp) as Hnil.
  split; [unfold _read_adjedges_line; by rewrite Hnil |].
  split; [unfold _read_edgelist_line, item; by rewrite Hnil |].
  split; [unfold _read_labels_line; by rewrite Hnil |].
  split; [by intros -> |].
  intros Hne Hb.
  assert (Hcut : re_split_ws_1 line = [EmptyString; EmptyString]).
  { destruct line as [|c rest]; [done |]. simpl in *.
    apply andb_true_iff in Hsp as [-> Hrest]. by rewrite lstrip_ws_all_space. }
  assert (Ht : tokenize (tokenizer s) EmptyString = Ok []).
  { unfold tokenize. by destruct (tokenizer_class (tokenizer s)). }
  eexists.
  split; [by apply (_read_docs_line_cut s line EmptyString EmptyString []) |].
  simpl. split; [|split; [|done]].
  - unfold has_node_id. simpl.
    pose proof (get_or_create_node_index_lookup (base s) N_TYPE_NODE EmptyString) as Hn.
    simpl in Hn. by rewrite Hn.
  - unfold get_node_attr. simpl. by rewrite lookup_insert_eq.
Qed.

End Lines.

(** ** The structure pass under the filter *)

Section Structure.
Context `{FL : Floats}.

Lemma Keeps_refl s : Keeps s s.
Proof. by repeat split. Qed.

Lemma Keeps_trans s1 s2 s3 : Keeps s1 s2 → Keeps s2 s3 → Keeps s1 s3.
Proof.
  intros (A1 & A2 & A3 & A4 & A5 & A6 & A7) (B1 & B2 & B3 & B4 & B5 & B6 & B7).
  repeat split; congruence.
Qed.

Lemma Keeps_Frame s s' : Keeps s s' → Frame s s'.
Proof.
  intros (A1 & A2 & A3 & A4 & A5 & A6 & A7).
  repeat split; try done. intros t i. by rewrite A7.
Qed.

(** One neighbour of an adjacency line, with the filter on. *)
Lemma _read_adjedges_neighbor_filter i0 s node_id1 :
  ignore_featureless_node s = true →
  ∃ s', _read_adjedges_neighbor i0 s node_id1 = Ok s' ∧
        Keeps s s' ∧
        edge_list (base s') =
        edge_list (base s) ++
        option_list (known_neighbor_edge (node_id_index_dict (base s)) i0 node_id1).
Proof.
  intros Hflag. unfold _read_adjedges_neighbor, known_neighbor_edge.
  rewrite Hflag. unfold has_node_id, get_or_create_node_index. simpl.
  destruct (node_id_index_dict (base s) !! node_id1) as [i1|]; simpl.
  - destruct (decide (i0 ≠ i1)); eexists; (split; [reflexivity |]); simpl.
    + split; [by repeat split | done].
    + split; [by repeat split | by rewrite app_nil_r].
  - exists s. split; [done |]. split; [apply Keeps_refl | by rewrite app_nil_r].
Qed.

Lemma _read_adjedges_neighbors_filter i0 neighbors : ∀ s,
  ignore_featureless_node s = true →
  ∃ s', for_each (_read_adjedges_neighbor i0) s neighbors = Ok s' ∧
        Keeps s s' ∧
        edge_list (base s') =
        edge_list (base s) ++
        omap (known_neighbor_edge (node_id_index_dict (base s)) i0) neighbors.
Proof.
  induction neighbors as [|node_id1 rest IH]; intros s Hflag.
  - exists s. simpl. split; [done |]. split; [apply Keeps_refl | by rewrite app_nil_r].
  - destruct (_read_adjedges_neighbor_filter i0 s node_id1 Hflag)
      as (s1 & Hstep & Hk1 & He1).
    assert (Hflag1 : ignore_featureless_node s1 = true)
      by (destruct Hk1 as (-> & _); done).
    destruct (IH s1 Hflag1) as (s' & Hrun & Hk2 & He2).
    exists s'. cbn [for_each]. rewrite Hstep. cbn [bind].
    split; [done |]. split; [by eapply Keeps_trans |].
    rewrite He2, He1.
    destruct Hk1 as (_ & _ & _ & _ & -> & _).
    rewrite <- app_assoc. f_equal. simpl.
    by destruct (known_neighbor_edge (node_id_index_dict (base s)) i0 node_id1).
Qed.

(** X10.  A line of [adjedges.txt] read with the filter on: when its
    first identifier is unknown the line changes nothing; when it is
    known with index [i0], the line adds, in the order of the
    neighbours, one edge of weight 1.0 from [i0] to every neighbour that
    is known and is not [i0] itself, and changes nothing else. *)
Theorem adjedges_line_under_filter
    (s : GraphDataset) (line node_id0 : string) (neighbors : list string) :
  ignore_featureless_node s = true →
  str_split line = node_id0 :: neighbors →
  (node_id_index_dict (base s) !! node_id0 = None →
   _read_adjedges_line s line = Ok s) ∧
  (∀ i0, node_id_index_dict (base s) !! node_id0 = Some i0 →
         ∃ s', _read_adjedges_line s line = Ok s' ∧
               Keeps s s' ∧
               edge_list (base s') =
               edge_list (base s) ++
               omap (known_neighbor_edge (node_id_index_dict (base s)) i0) neighbors).
Proof.
  intros Hflag Hl. unfold _read_adjedges_line. rewrite Hl, Hflag.
  unfold has_node_id, get_or_create_node_index. simpl. split.
  - by intros ->.
  - intros i0 ->. simpl.
    destruct (_read_adjedges_neighbors_filter i0 neighbors (with_base s (base s)) Hflag)
      as (s' & Hrun & Hk & He).
    exists s'. split; [done |]. split; [|done].
    eapply Keeps_trans; [|exact Hk]. by repeat split.
Qed.

Lemma known_neighbor_edge_from_table d i0 id0 node_id1 e :
  d !! id0 = Some i0 →
  known_neighbor_edge d i0 node_id1 = Some e →
  edge_from_table d e ∧ snd e = float_1_0.
Proof.
  intros H0. unfold known_neighbor_edge.
  destruct (d !! node_id1) as [i1|] eqn:E1; [|discriminate].
  destruct (decide (i0 ≠ i1)); [|discriminate]. intros [= <-].
  split; [|done]. by exists id0, node_id1, i0, i1, float_1_0.
Qed.

Lemma _read_adjedges_line_filter s line s' :
  ignore_featureless_node s = true →
  _read_adjedges_line s line = Ok s' →
  Keeps s s' ∧
  ∃ new, edge_list (base s') = edge_list (base s) ++ new ∧
         Forall (fun e => edge_from_table (node_id_index_dict (base s)) e ∧
                          snd e = float_1_0) new.
Proof.
  intros Hflag Hstep.
  destruct (str_split line) as [|node_id0 neighbors] eqn:Hl.
  { revert Hstep. unfold _read_adjedges_line. by rewrite Hl. }
  revert Hstep. unfold _read_adjedges_line. rewrite Hl, Hflag.
  unfold has_node_id, get_or_create_node_index. simpl.
  destruct (node_id_index_dict (base s) !! node_id0) as [i0|] eqn:E0; simpl.
  - destruct (_read_adjedges_neighbors_filter i0 neighbors (with_base s (base s)) Hflag)
      as (s2 & Hrun & Hk & He).
    rewrite Hrun. intros [= <-].
    split; [eapply Keeps_trans; [|exact Hk]; by repeat split |].
    eexists. split; [exact He |]. simpl.
    apply Forall_forall. intros e He'.
    apply list_elem_of_omap in He' as (node_id1 & _ & Hk1).
    by eapply known_neighbor_edge_from_table.
  - intros [= <-]. split; [apply Keeps_refl |].
    exists []. by rewrite app_nil_r.
Qed.

Lemma _read_edgelist_line_filter s w line s' w' :
  ignore_featureless_node s = true →
  _read_edgelist_line (s, w) line = Ok (s', w') →
  Keeps s s' ∧
  ∃ new, edge_list (base s') = edge_list (base s) ++ new ∧
         Forall (edge_from_table (node_id_index_dict (base s))) new.
Proof.
  intros Hflag. unfold _read_edgelist_line.
  destruct (item (str_split line) 0) as [node_id0|]; [|discriminate]. simpl.
  destruct (item (str_split line) 1) as [node_id1|]; [|discriminate]. simpl.
  match goal with |- context [bind ?r _] => destruct r as [w1|] end;
    [|discriminate].
  simpl. rewrite Hflag. unfold has_node_id, get_or_create_node_index. simpl.
  destruct (node_id_index_dict (base s) !! node_id0) as [i0|] eqn:E0; simpl.
  - destruct (node_id_index_dict (base s) !! node_id1) as [i1|] eqn:E1; simpl.
    + destruct (decide (i0 ≠ i1)) as [Hne|Heq].
      * destruct w1 as [x|]; [|discriminate]. intros [= <- <-]. simpl.
        split; [by repeat split |]. eexists. split; [reflexivity |].
        constructor; [|constructor]. by exists node_id0, node_id1, i0, i1, x.
      * intros [= <- <-]. split; [by repeat split |].
        exists []. by rewrite app_nil_r.
    + intros [= <- <-]. split; [by repeat split |]. exists []. by rewrite app_nil_r.
  - intros [= <- <-]. split; [apply Keeps_refl |]. exists []. by rewrite app_nil_r.
Qed.

(** The structure pass with the filter on: only edges are added, each
    between the indices of two known identifiers. *)
Lemma _read_structure_filter s s' :
  ignore_featureless_node s = true →
  _read_structure s = Ok s' →
  Keeps s s' ∧
  ∃ new, edge_list (base s') = edge_list (base s) ++ new ∧
         Forall (edge_from_table (node_id_index_dict (base s))) new ∧
         (data_format s = FORMAT_ADJEDGES → Forall (fun e => snd e = float_1_0) new).
Proof.
  intros Hflag. unfold _read_structure.
  destruct (decide (data_format s = FORMAT_ADJEDGES)) as [Hfmt|Hfmt].
  - unfold _read_adjedges.
    destruct (open_lines (adjedges_txt (data_dir s))) as [f|]; [|discriminate]. simpl.
    apply (for_each_invariant _read_adjedges_line
             (fun s1 => Keeps s s1 ∧
                ∃ new, edge_list (base s1) = edge_list (base s) ++ new ∧
                       Forall (edge_from_table (node_id_index_dict (base s))) new ∧
                       (data_format s = FORMAT_ADJEDGES →
                        Forall (fun e => snd e = float_1_0) new))).
    + intros s1 x s2 (Hk & new & He & Hall & Hw) Hstep.
      assert (Hflag1 : ignore_featureless_node s1 = true)
        by (destruct Hk as (-> & _); done).
      destruct (_read_adjedges_line_filter _ _ _ Hflag1 Hstep)
        as (Hk2 & new2 & He2 & Hall2).
      split; [by eapply Keeps_trans |].
      exists (new ++ new2). rewrite He2, He, <- app_assoc. split; [done |].
      destruct Hk as (_ & _ & _ & _ & Hd & _). rewrite Hd in Hall2.
      split.
      * apply Forall_app. split; [done |].
        eapply Forall_impl; [exact Hall2 |]. by intros e [? _].
      * intros Hf. apply Forall_app. split; [by apply Hw |].
        eapply Forall_impl; [exact Hall2 |]. by intros e [_ ?].
    + split; [apply Keeps_refl |]. exists []. rewrite app_nil_r.
      split; [done |]. split; [constructor | intros _; constructor].
  - unfold _read_edgelist.
    destruct (open_lines (edgelist_txt (data_dir s))) as [f|]; [|discriminate]. simpl.
    destruct (for_each _read_edgelist_line (s, None) f) as [[s2 w2]|] eqn:E;
      [|discriminate].
    simpl. intros [= <-].
    apply (for_each_invariant _read_edgelist_line
             (fun st => Keeps s (fst st) ∧
                ∃ new, edge_list (base (fst st)) = edge_list (base s) ++ new ∧
                       Forall (edge_from_table (node_id_index_dict (base s))) new ∧
                       (data_format s = FORMAT_ADJEDGES →
                        Forall (fun e => snd e = float_1_0) new)))
      with (s' := (s2, w2)) (s := (s, None)) (xs := f); [| |done].
    + intros [s1 w1] x [s3 w3] (Hk & new & He & Hall & Hw) Hstep. simpl in *.
      assert (Hflag1 : ignore_featureless_node s1 = true)
        by (destruct Hk as (-> & _); done).
      destruct (_read_edgelist_line_filter _ _ _ _ _ Hflag1 Hstep)
        as (Hk2 & new2 & He2 & Hall2).
      split; [by eapply Keeps_trans |].
      exists (new ++ new2). rewrite He2, He, <- app_assoc. split; [done |].
      destruct Hk as (_ & _ & _ & _ & Hd & _). rewrite Hd in Hall2.
      split; [by apply Forall_app | done].
    + simpl. split; [apply Keeps_refl |]. exists []. rewrite app_nil_r.
      split; [done |]. split; [constructor | done].
Qed.

End Structure.

(** ** The three passes, one after the other *)

Lemma index_table_ok_insert (d : gmap string nat) (k : string) :
  index_table_ok d → d !! k = None → index_table_ok (<[k := size d]> d).
Proof.
  intros [Hlt Hinj] Hnone. split.
  - intros k' i. rewrite map_size_insert_None by done.
    destruct (decide (k = k')) as [<-|Hne].
    + rewrite lookup_insert_eq. intros [= <-]. lia.
    + rewrite lookup_insert_ne by done. intros Hi. apply Hlt in Hi. lia.
  - intros k1 k2 i.
    destruct (decide (k = k1)) as [E1|Hne1]; destruct (decide (k = k2)) as [E2|Hne2].
    + congruence.
    + subst k1. rewrite lookup_insert_eq, lookup_insert_ne by done.
      intros [= <-] Hi. apply Hlt in Hi. lia.
    + subst k2. rewrite lookup_insert_eq, lookup_insert_ne by done.
      intros Hi [= <-]. apply Hlt in Hi. lia.
    + rewrite !lookup_insert_ne by done. apply Hinj.
Qed.

Section Construction.
Context `{FL : Floats}.

(** What a line of [docs.txt] leaves as it is, and what it only
    extends. *)
Lemma _read_docs_line_tables s line s' :
  _read_docs_line s line = Ok s' →
  label_id_index_dict (base s') = label_id_index_dict (base s) ∧
  (∀ t n name, name ≠ "features" →
     node_attr_dict (base s') !! (t, n, name) = node_attr_dict (base s) !! (t, n, name)) ∧
  (index_table_ok (node_id_index_dict (base s)) →
   index_table_ok (node_id_index_dict (base s'))) ∧
  (∀ id i, node_id_index_dict (base s) !! id = Some i →
           node_id_index_dict (base s') !! id = Some i) ∧
  (∀ id i, token_id_index_dict (tokenizer s) !! id = Some i →
           token_id_index_dict (tokenizer s') !! id = Some i) ∧
  tokenizer_class (tokenizer s') = tokenizer_class (tokenizer s).
Proof.
  unfold _read_docs_line, tokenize_to_indices.
  destruct (re_split_ws_1 line) as [|node_id [|sentence [|? ?]]]; try discriminate.
  destruct (tokenize (tokenizer s) sentence) as [token_ids|] eqn:Et.
  2:{ by destruct (get_or_create_node_index (base s) N_TYPE_NODE node_id). }
  pose proof (get_or_create_token_indices_keeps token_ids (tokenizer s)) as Hkeep.
  pose proof (get_or_create_token_indices_class token_ids (tokenizer s)) as Hcls.
  unfold get_or_create_node_index. simpl.
  destruct (get_or_create_token_indices (tokenizer s) token_ids) as [l t'].
  simpl in Hkeep, Hcls.
  destruct (node_id_index_dict (base s) !! node_id) as [i|] eqn:E; simpl;
    intros [= <-]; simpl.
  - split; [done |].
    split; [intros t n name Hn; rewrite lookup_insert_ne; [done | congruence] |].
    done.
  - split; [done |].
    split; [intros t n name Hn; rewrite lookup_insert_ne; [done | congruence] |].
    split; [intros Hok; by apply index_table_ok_insert |].
    split; [|done].
    intros id i Hi. rewrite lookup_insert_ne; [done | congruence].
Qed.

Lemma _read_docs_tables s s' :
  _read_docs s = Ok s' →
  label_id_index_dict (base s') = label_id_index_dict (base s) ∧
  (∀ t n name, name ≠ "features" →
     node_attr_dict (base s') !! (t, n, name) = node_attr_dict (base s) !! (t, n, name)) ∧
  (index_table_ok (node_id_index_dict (base s)) →
   index_table_ok (node_id_index_dict (base s'))).
Proof.
  unfold _read_docs.
  destruct (open_lines (docs_txt (data_dir s))) as [f|]; [|discriminate]. simpl.
  apply (for_each_invariant _read_docs_line
           (fun s1 =>
              label_id_index_dict (base s1) = label_id_index_dict (base s) ∧
              (∀ t n name, name ≠ "features" →
                 node_attr_dict (base s1) !! (t, n, name)
                 = node_attr_dict (base s) !! (t, n, name)) ∧
              (index_table_ok (node_id_index_dict (base s)) →
               index_table_ok (node_id_index_dict (base s1))))); [|done].
  intros s1 x s2 (I1 & I2 & I3) Hstep.
  apply _read_docs_line_tables in Hstep as (J1 & J2 & J3 & _).
  split; [congruence |]. split; [|auto].
  intros t n name Hn. by rewrite J2, I2.
Qed.

Lemma index_table_ok_empty : index_table_ok ∅.
Proof. split; intros ?; intros; by rewrite lookup_empty in *. Qed.

(** The passes of a construction that succeeds. *)
Lemma GraphDataset_init_structure dir fmt b tok ds :
  GraphDataset_init dir fmt b tok = Ok ds →
  ∃ s1 s2,
    _read_docs (GraphDataset_init_fields dir fmt b tok) = Ok s1 ∧
    _read_labels s1 = Ok s2 ∧
    _read_structure s2 = Ok ds ∧
    data_dir s2 = dir ∧ data_format s2 = fmt ∧
    ignore_featureless_node s1 = true ∧
    index_table_ok (node_id_index_dict (base s1)) ∧
    label_id_index_dict (base s1) = ∅ ∧
    (∀ n, node_attr_dict (base s1) !! (N_TYPE_NODE, n, "label") = None) ∧
    edge_list (base s1) = [] ∧
    Frame s1 s2 ∧ edge_list (base s2) = [] ∧
    Keeps s2 ds ∧
    Forall (edge_from_table (node_id_index_dict (base s2))) (edge_list (base ds)) ∧
    (fmt = FORMAT_ADJEDGES → Forall (fun e => snd e = float_1_0) (edge_list (base ds))).
Proof.
  intros Hinit.
  destruct (GraphDataset_init_passes _ _ _ _ _ Hinit) as (s1 & s2 & Hd & Hl & Hs).
  pose proof (_read_docs_facts _ _ Hd) as (D1 & D2 & _). simpl in D1, D2.
  pose proof (_read_docs_fields _ _ Hd) as (F1 & F2). simpl in F1, F2.
  pose proof (_read_docs_tables _ _ Hd) as (T1 & T2 & T3). simpl in T1, T2, T3.
  destruct (_read_labels_frame _ _ D1 Hl) as [Hf1 He1].
  assert (Hflag2 : ignore_featureless_node s2 = true)
    by (destruct Hf1 as (-> & _); done).
  destruct (_read_structure_filter _ _ Hflag2 Hs) as (Hk & new & He & Hall & Hw).
  assert (G : data_dir s2 = dir ∧ data_format s2 = fmt).
  { destruct Hf1 as (_ & _ & -> & -> & _). done. }
  destruct G as [G1 G2].
  exists s1, s2. repeat (split; [done |]).
  split; [apply T3, index_table_ok_empty |]. split; [done |].
  split; [intros n; rewrite T2 by done; apply lookup_empty |].
  split; [done |]. split; [done |]. split; [congruence |]. split; [done |].
  rewrite He, He1, D2. simpl. split; [done |].
  intros Hfmt. apply Hw. congruence.
Qed.

(** X13.  A construction that succeeds has found [docs.txt],
    [labels.txt] and the structure file of its format: [adjedges.txt]
    for the format ["adjedges"], [edgelist.txt] for every other format
    string; the dataset keeps the directory and the format it was given.
    Without [docs.txt] the construction raises [FileNotFoundError]. *)
Theorem construction_needs_files
    (dir : DataDir) (fmt : string) (b : bool) (tok : option Tokenizer)
    (ds : GraphDataset) :
  GraphDataset_init dir fmt b tok = Ok ds →
  is_Some (docs_txt dir) ∧
  is_Some (labels_txt dir) ∧
  (fmt = FORMAT_ADJEDGES → is_Some (adjedges_txt dir)) ∧
  (fmt ≠ FORMAT_ADJEDGES → is_Some (edgelist_txt dir)) ∧
  data_dir ds = dir ∧ data_format ds = fmt ∧
  (∀ dir', docs_txt dir' = None →
           GraphDataset_init dir' fmt b tok = Raise FileNotFoundError).
Proof.
  intros Hinit.
  destruct (GraphDataset_init_structure _ _ _ _ _ Hinit)
    as (s1 & s2 & Hd & Hl & Hs & G1 & G2 & _ & _ & _ & _ & _ & Hf & _ & Hk & _).
  pose proof (_read_docs_fields _ _ Hd) as (F1 & F2). simpl in F1, F2.
  split.
  { revert Hd. unfold _read_docs. simpl. by destruct (docs_txt dir); [eauto |]. }
  split.
  { revert Hl. unfold _read_labels. rewrite F1. by destruct (labels_txt dir); [eauto |]. }
  split.
  { intros ->. revert Hs. unfold _read_structure, _read_adjedges. rewrite G1, G2.
    rewrite decide_True by done. by destruct (adjedges_txt dir); [eauto |]. }
  split.
  { intros Hne. revert Hs. unfold _read_structure, _read_edgelist. rewrite G1, G2.
    rewrite decide_False by done. by destruct (edgelist_txt dir); [eauto |]. }
  destruct Hk as (_ & _ & K3 & K4 & _).
  split; [congruence |]. split; [congruence |].
  intros dir' Hnone. unfold GraphDataset_init, _read_docs. simpl. by rewrite Hnone.
Qed.

(** X15.  In a construction that succeeds, the documents pass creates no
    label index, no label attribute and no edge; the labels pass leaves
    the tokenizer, the NODE indices and the features as they are and
    adds no edge; the structure pass changes nothing but the edge
    list. *)
Theorem passes_change
    (dir : DataDir) (fmt : string) (b : bool) (tok : option Tokenizer)
    (ds : GraphDataset) :
  GraphDataset_init dir fmt b tok = Ok ds →
  ∃ s1 s2,
    _read_docs (GraphDataset_init_fields dir fmt b tok) = Ok s1 ∧
    _read_labels s1 = Ok s2 ∧
    _read_structure s2 = Ok ds ∧
    (label_id_index_dict (base s1) = ∅ ∧
     (∀ n, node_attr_dict (base s1) !! (N_TYPE_NODE, n, "label") = None) ∧
     edge_list (base s1) = []) ∧
    (tokenizer s2 = tokenizer s1 ∧
     node_id_index_dict (base s2) = node_id_index_dict (base s1) ∧
     (∀ t n, node_attr_dict (base s2) !! (t, n, "features")
             = node_attr_dict (base s1) !! (t, n, "features")) ∧
     edge_list (base s2) = []) ∧
    Keeps s2 ds.
Proof.
  intros Hinit.
  destruct (GraphDataset_init_structure _ _ _ _ _ Hinit)
    as (s1 & s2 & Hd & Hl & Hs & _ & _ & _ & _ & L1 & L2 & E1 & Hf & E2 & Hk & _).
  exists s1, s2. repeat (split; [done |]).
  destruct Hf as (_ & F2 & _ & _ & F5 & F6).
  split; [|exact Hk]. split; [exact F2 |]. split; [exact F5 |].
  split; [exact F6 | exact E2].
Qed.

(** X18.  In a dataset returned by the constructor, the NODE index table
    gives different indices, all below [num_nodes], to different
    identifiers, and both endpoints of every edge are indices of this
    table, hence below [num_nodes]. *)
Theorem edges_in_range
    (dir : DataDir) (fmt : string) (b : bool) (tok : option Tokenizer)
    (ds : GraphDataset) :
  GraphDataset_init dir fmt b tok = Ok ds →
  index_table_ok (node_id_index_dict (base ds)) ∧
  Forall (edge_from_table (node_id_index_dict (base ds))) (edge_list (base ds)) ∧
  Forall (edge_in_range (num_nodes (base ds) N_TYPE_NODE)) (edge_list (base ds)).
Proof.
  intros Hinit.
  destruct (GraphDataset_init_structure _ _ _ _ _ Hinit)
    as (s1 & s2 & _ & _ & _ & _ & _ & _ & Hok & _ & _ & _ & Hf & _ & Hk & Hall & _).
  destruct Hf as (_ & _ & _ & _ & F5 & _).
  destruct Hk as (_ & _ & _ & _ & K5 & _).
  rewrite <- F5, <- K5 in Hok. rewrite <- K5 in Hall.
  split; [done |]. split; [done |].
  eapply Forall_impl; [exact Hall |].
  intros e (id0 & id1 & i0 & i1 & x & -> & H0 & H1 & _). simpl.
  unfold num_nodes. simpl. split; by eapply (proj1 Hok).
Qed.

(** X19.  In a dataset constructed from the adjacency format, every edge
    has the weight 1.0. *)
Theorem adjedges_unit_weights
    (dir : DataDir) (b : bool) (tok : option Tokenizer) (ds : GraphDataset) :
  GraphDataset_init dir FORMAT_ADJEDGES b tok = Ok ds →
  Forall (fun e => snd e = float_1_0) (edge_list (base ds)).
Proof.
  intros Hinit.
  destruct (GraphDataset_init_structure _ _ _ _ _ Hinit)
    as (s1 & s2 & _ & _ & _ & _ & _ & _ & _ & _ & _ & _ & _ & _ & _ & _ & Hw).
  by apply Hw.
Qed.

End Construction.

(** ** Labels *)

Section Labels.
Context `{FL : Floats}.

(** A line of [labels.txt] keeps the labels valid, and gives a label
    only to the node that it names. *)
Lemma _read_labels_line_valid s line s' :
  ignore_featureless_node s = true →
  _read_labels_line s line = Ok s' →
  (labels_valid s → labels_valid s') ∧
  (∀ n, is_Some (node_attr_dict (base s') !! (N_TYPE_NODE, n, "label")) →
        is_Some (node_attr_dict (base s) !! (N_TYPE_NODE, n, "label")) ∨
        ∃ node_id label_id,
          str_split line = [node_id; label_id] ∧
          node_id_index_dict (base s) !! node_id = Some n).
Proof.
  intros Hflag. unfold _read_labels_line.
  destruct (str_split line) as [|node_id [|label_id [|? ?]]]; try discriminate.
  rewrite Hflag. unfold get_node_index. simpl.
  destruct (node_id_index_dict (base s) !! node_id) as [i|] eqn:En; [|discriminate].
  simpl. unfold get_or_create_node_index. simpl.
  destruct (label_id_index_dict (base s) !! label_id) as [li|] eqn:El; simpl;
    intros [= <-]; simpl.
  - split.
    + intros [Hd Ha]. split; [exact Hd |]. simpl. intros n v.
      destruct (decide (n = i)) as [->|Hne].
      * rewrite lookup_insert_eq. intros [= <-]. exists li. split; [done |].
        by eapply Hd.
      * rewrite lookup_insert_ne by congruence. apply Ha.
    + intros n. destruct (decide (n = i)) as [->|Hne].
      * intros _. right. by exists node_id, label_id.
      * rewrite lookup_insert_ne by congruence. by left.
  - split.
    + intros [Hd Ha]. unfold labels_valid, num_classes, num_nodes in *. simpl in *.
      rewrite map_size_insert_None by done. split.
      * intros id' j. destruct (decide (label_id = id')) as [<-|Hne].
        -- rewrite lookup_insert_eq. intros [= <-]. lia.
        -- rewrite lookup_insert_ne by done. intros Hj. apply Hd in Hj. lia.
      * intros n v. destruct (decide (n = i)) as [->|Hne].
        -- rewrite lookup_insert_eq. intros [= <-]. eexists. split; [done |]. lia.
        -- rewrite lookup_insert_ne by congruence. intros Hv.
           destruct (Ha n v Hv) as (lj & -> & Hlt). exists lj. split; [done |]. lia.
    + intros n. destruct (decide (n = i)) as [->|Hne].
      * intros _. right. by exists node_id, label_id.
      * rewrite lookup_insert_ne by congruence. by left.
Qed.

Lemma _read_labels_lines_valid lines : ∀ s s',
  ignore_featureless_node s = true →
  for_each _read_labels_line s lines = Ok s' →
  (labels_valid s → labels_valid s') ∧
  (∀ n, is_Some (node_attr_dict (base s') !! (N_TYPE_NODE, n, "label")) →
        is_Some (node_attr_dict (base s) !! (N_TYPE_NODE, n, "label")) ∨
        ∃ line node_id label_id,
          line ∈ lines ∧ str_split line = [node_id; label_id] ∧
          node_id_index_dict (base s) !! node_id = Some n).
Proof.
  induction lines as [|line rest IH]; intros s s' Hflag Hrun; cbn [for_each] in Hrun.
  - simplify_eq. split; [done |]. intros n Hn. by left.
  - destruct (_read_labels_line s line) as [s1|] eqn:E; [|discriminate].
    cbn [bind] in Hrun.
    destruct (_read_labels_line_frame _ _ _ Hflag E) as [(F1 & _ & _ & _ & F5 & _) _].
    destruct (_read_labels_line_valid _ _ _ Hflag E) as [V1 V2].
    destruct (IH s1 s') as [W1 W2]; [congruence | done |].
    split; [auto |].
    intros n Hn. destruct (W2 n Hn) as [Hs1|(l & nid & lid & Hin & Hl & Hd)].
    + destruct (V2 n Hs1) as [?|(nid & lid & Hl & Hd)]; [by left |].
      right. exists line, nid, lid. split; [by left | done].
    + right. exists l, nid, lid. split; [by right |]. split; [done |]. by rewrite <- F5.
Qed.

(** The labels of a dataset that the constructor returns. *)
Lemma GraphDataset_init_labels dir fmt b tok ds :
  GraphDataset_init dir fmt b tok = Ok ds →
  labels_valid ds ∧
  index_table_ok (node_id_index_dict (base ds)) ∧
  ∀ lines, labels_txt dir = Some lines →
    ∀ n, is_Some (node_attr_dict (base ds) !! (N_TYPE_NODE, n, "label")) →
         ∃ line node_id label_id,
           line ∈ lines ∧ str_split line = [node_id; label_id] ∧
           node_id_index_dict (base ds) !! node_id = Some n.
Proof.
  intros Hinit.
  destruct (GraphDataset_init_structure _ _ _ _ _ Hinit)
    as (s1 & s2 & Hd & Hl & Hs & _ & _ & Hflag & Hok & L1 & L2 & _ & Hf & _ & Hk & _).
  pose proof (_read_docs_fields _ _ Hd) as (F1 & _). simpl in F1.
  destruct Hk as (_ & _ & _ & _ & K5 & K6 & K7).
  destruct Hf as (_ & _ & _ & _ & G5 & _).
  assert (Hv1 : labels_valid s1).
  { split.
    - intros id i. rewrite L1, lookup_empty. discriminate.
    - intros n v. rewrite L2. discriminate. }
  unfold _read_labels in Hl. rewrite F1 in Hl.
  destruct (labels_txt dir) as [lines|] eqn:Elab; [|discriminate]. simpl in Hl.
  destruct (_read_labels_lines_valid _ _ _ Hflag Hl) as [V1 V2].
  split; [|split].
  - destruct (V1 Hv1) as [A1 A2]. unfold labels_valid, num_classes, num_nodes in *.
    simpl in *. rewrite K6, K7. done.
  - by rewrite K5, G5.
  - intros ? [= <-] n. rewrite K7, K5, G5. intros Hn.
    destruct (V2 n Hn) as [Hs1|?]; [|done].
    rewrite L2 in Hs1. by destruct Hs1.
Qed.

Lemma get_node_attrs_missing g t l name n :
  n ∈ l → node_attr_dict g !! (t, n, name) = None →
  get_node_attrs g t l name = Raise KeyError.
Proof.
  intros Hin Hnone. induction l as [|a l IH]; [by apply elem_of_nil in Hin |].
  simpl. unfold get_node_attr at 1.
  destruct (node_attr_dict g !! (t, a, name)) as [v|] eqn:E; simpl; [|done].
  apply elem_of_cons in Hin as [->|Hin]; [congruence |]. by rewrite (IH Hin).
Qed.

Lemma label_list_or_matrix_missing s one_hot n :
  n < num_nodes (base s) N_TYPE_NODE →
  node_attr_dict (base s) !! (N_TYPE_NODE, n, "label") = None →
  label_list_or_matrix s one_hot = Raise KeyError.
Proof.
  intros Hlt Hnone. unfold label_list_or_matrix.
  rewrite (get_node_attrs_missing _ _ _ _ n); [done | | done].
  apply elem_of_seq. lia.
Qed.

Lemma get_node_attrs_labels g width l :
  (∀ n, n ∈ l → ∃ li, node_attr_dict g !! (N_TYPE_NODE, n, "label") = Some (AttrInt li) ∧
                      li < width) →
  ∃ labels,
    get_node_attrs g N_TYPE_NODE l "label" = Ok (map AttrInt labels) ∧
    Forall2 (fun n li => get_node_attr g N_TYPE_NODE n "label" = Ok (AttrInt li))
            l labels ∧
    Forall (fun li => li < width) labels.
Proof.
  induction l as [|a l IH]; intros Hall.
  - exists []. by repeat split.
  - destruct (Hall a) as (li & Ha & Hlt); [by left |].
    destruct IH as (labels & Hg & Hf & Hw); [intros n Hn; apply Hall; by right |].
    exists (li :: labels). simpl. unfold get_node_attr at 1. rewrite Ha. simpl.
    rewrite Hg. simpl. split; [done |]. split; [|by constructor].
    constructor; [|done]. unfold get_node_attr. by rewrite Ha.
Qed.

Lemma one_hot_rows_labels width labels :
  Forall (fun li => li < width) labels →
  one_hot_rows width (map AttrInt labels)
  = Ok (map (fun li => <[li := 1%Z]> (replicate width 0%Z)) labels).
Proof.
  induction 1 as [|li labels Hlt _ IH]; [done |].
  simpl. rewrite (proj2 (Nat.ltb_lt li width) Hlt). simpl. by rewrite IH.
Qed.

(** X16.  [label_list_or_matrix] raises [KeyError], in both modes, on
    every dataset in which some NODE index below [num_nodes] has no
    label.  This is the case after a construction in which a document
    node is named by no line of [labels.txt]. *)
Theorem unlabelled_document_node
    (dir : DataDir) (fmt : string) (b : bool) (tok : option Tokenizer)
    (ds : GraphDataset) (lines : list string) (node_id : string) (n : nat)
    (one_hot : bool) :
  GraphDataset_init dir fmt b tok = Ok ds →
  labels_txt dir = Some lines →
  node_id_index_dict (base ds) !! node_id = Some n →
  (∀ line label_id, line ∈ lines → str_split line ≠ [node_id; label_id]) →
  label_list_or_matrix ds one_hot = Raise KeyError ∧
  (∀ (s : GraphDataset) m,
     m < num_nodes (base s) N_TYPE_NODE →
     node_attr_dict (base s) !! (N_TYPE_NODE, m, "label") = None →
     label_list_or_matrix s one_hot = Raise KeyError).
Proof.
  intros Hinit Hlab Hn Hno.
  split; [|intros s m; apply label_list_or_matrix_missing].
  destruct (GraphDataset_init_labels _ _ _ _ _ Hinit) as (_ & [Hlt Hinj] & Hsrc).
  apply (label_list_or_matrix_missing ds one_hot n).
  - unfold num_nodes. simpl. by eapply Hlt.
  - destruct (node_attr_dict (base ds) !! (N_TYPE_NODE, n, "label")) as [v|] eqn:E;
      [|done].
    destruct (Hsrc lines Hlab n) as (line & nid & lid & Hin & Hl & Hd); [by eauto |].
    assert (nid = node_id) as -> by (by eapply Hinj).
    by destruct (Hno line lid Hin).
Qed.

(** X17.  On a dataset returned by the constructor in which every NODE
    index has a label, [label_list_or_matrix] returns, without one-hot,
    the label indices of the nodes in the order of the NODE indices, all
    below [num_classes]; with one-hot it returns one row per node, of
    length [num_classes], with 1 in the column of the node's label and 0
    in the other columns. *)
Theorem label_list_or_matrix_one_hot
    (dir : DataDir) (fmt : string) (b : bool) (tok : option Tokenizer)
    (ds : GraphDataset) :
  GraphDataset_init dir fmt b tok = Ok ds →
  (∀ n, n < num_nodes (base ds) N_TYPE_NODE →
        is_Some (node_attr_dict (base ds) !! (N_TYPE_NODE, n, "label"))) →
  let N := num_nodes (base ds) N_TYPE_NODE in
  let C := num_classes ds in
  ∃ labels,
    Forall2 (fun n li => get_node_attr (base ds) N_TYPE_NODE n "label" = Ok (AttrInt li))
            (seq 0 N) labels ∧
    Forall (fun li => li < C) labels ∧
    label_list_or_matrix ds false = Ok (LabelVector (map AttrInt labels)) ∧
    label_list_or_matrix ds true
    = Ok (LabelMatrix (map (fun li => <[li := 1%Z]> (replicate C 0%Z)) labels)) ∧
    (∀ li j, li < C → j < C →
             (<[li := 1%Z]> (replicate C 0%Z)) !! j
             = Some (if decide (j = li) then 1%Z else 0%Z)).
Proof.
  intros Hinit Hall N C.
  destruct (GraphDataset_init_labels _ _ _ _ _ Hinit) as ([_ Hv] & _ & _).
  destruct (get_node_attrs_labels (base ds) C (seq 0 N)) as (labels & Hg & Hf & Hw).
  { intros n Hn. apply elem_of_seq in Hn.
    destruct (Hall n) as [v Hv']; [lia |].
    destruct (Hv n v Hv') as (li & -> & Hlt). by exists li. }
  exists labels. split; [done |]. split; [done |].
  unfold label_list_or_matrix. fold N. rewrite Hg. simpl.
  split; [done |]. split.
  - fold C. by rewrite one_hot_rows_labels.
  - intros li j Hli Hj. destruct (decide (j = li)) as [->|Hne].
    + apply list_lookup_insert_eq. by rewrite length_replicate.
    + rewrite list_lookup_insert_ne by done. by apply lookup_replicate_2.
Qed.

End Labels.

(** ** Row sums of the feature matrix *)

Lemma Zsum_map_add {A : Type} (f g : A → Z) l :
  Zsum (map (fun t => (f t + g t)%Z) l) = (Zsum (map f l) + Zsum (map g l))%Z.
Proof. unfold Zsum. induction l as [|a l IH]; simpl; [done | rewrite IH; lia]. Qed.

Lemma Zsum_indicator (x : nat) l :
  NoDup l →
  Zsum (map (fun t => if decide (x = t) then 1%Z else 0%Z) l)
  = if decide (x ∈ l) then 1%Z else 0%Z.
Proof.
  unfold Zsum. induction 1 as [|a l Ha Hnd IH]; simpl; [done |].
  rewrite IH. destruct (decide (x = a)) as [->|Hne].
  - rewrite (decide_False (P := a ∈ l)) by done.
    rewrite (decide_True (P := a ∈ a :: l)) by left. done.
  - destruct (decide (x ∈ l)) as [Hin|Hnin].
    + rewrite (decide_True (P := x ∈ a :: l)) by (by right). done.
    + rewrite (decide_False (P := x ∈ a :: l)); [done |].
      intros [?|?]%elem_of_cons; done.
Qed.

Lemma Zsum_count_occ l ts :
  NoDup ts → Forall (fun x => x ∈ ts) l →
  Zsum (map (fun t => Z.of_nat (count_occ Nat.eq_dec l t)) ts) = Z.of_nat (length l).
Proof.
  intros Hnd. induction 1 as [|x l Hx _ IH].
  - simpl. unfold Zsum. induction ts as [|a ts IHts]; simpl; [done |].
    apply NoDup_cons in Hnd as [_ Hnd]. by rewrite (IHts Hnd).
  - transitivity (Zsum (map (fun t => ((if decide (x = t) then 1 else 0)
                                       + Z.of_nat (count_occ Nat.eq_dec l t))%Z) ts)).
    + f_equal. apply map_ext. intros t. destruct (decide (x = t)) as [->|Hne].
      * rewrite count_occ_cons_eq by done. lia.
      * rewrite count_occ_cons_neq by done. lia.
    + rewrite Zsum_map_add, IH, Zsum_indicator by done.
      rewrite decide_True by done. simpl. lia.
Qed.

Section RowSums.
Context `{FL : Floats}.

(** X20.  In the bag-of-words matrix of a dataset returned by the
    constructor (given a tokenizer that was only used through its
    methods, or none), the cells of the row of a node add up to the
    number of token indices in the features of the node. *)
Theorem feature_matrix_row_sum
    (dir : DataDir) (fmt : string) (b : bool) (tok : option Tokenizer)
    (ds : GraphDataset) :
  (∀ t, tok = Some t → Tokenizer_reachable t) →
  GraphDataset_init dir fmt b tok = Ok ds →
  ∃ m, feature_matrix ds true true = Ok (SparseMatrix m) ∧
       ∀ n l, n < num_nodes (base ds) N_TYPE_NODE →
              get_node_attr (base ds) N_TYPE_NODE n "features" = Ok (AttrList l) →
              Zsum (map (csr_get m n) (seq 0 (num_tokens (tokenizer ds))))
              = Z.of_nat (length l).
Proof.
  intros Htok Hinit.
  destruct (GraphDataset_init_facts _ _ _ _ _ Hinit)
    as (s1 & _ & _ & _ & Hfeat & _ & Hvoc).
  assert (Hvoc' : features_in_vocabulary ds).
  { apply Hvoc. simpl. destruct tok as [t|].
    - by apply Tokenizer_reachable_inv, Htok.
    - apply Tokenizer_new_inv. }
  destruct (feature_matrix_counts ds Hfeat Hvoc') as (m & Hsp & _ & _ & Hget).
  exists m. split; [done |]. intros n l Hn Hl.
  assert (Hl' : node_attr_dict (base ds) !! (N_TYPE_NODE, n, "features")
                = Some (AttrList l)).
  { revert Hl. unfold get_node_attr.
    destruct (node_attr_dict (base ds) !! (N_TYPE_NODE, n, "features"));
      [by intros [= ->] | discriminate]. }
  rewrite <- (Zsum_count_occ l (seq 0 (num_tokens (tokenizer ds)))).
  - f_equal. apply map_ext. intros t. rewrite Hget, decide_True by done.
    by rewrite (features_of_lookup _ _ _ Hl').
  - apply NoDup_seq.
  - eapply Forall_impl; [by eapply (proj2 Hvoc') |].
    intros x Hx. apply elem_of_seq. simpl in Hx. lia.
Qed.

End RowSums.

(** ** The vocabulary after the construction *)

Lemma tokenize_class t t' s :
  tokenizer_class t' = tokenizer_class t → tokenize t' s = tokenize t s.
Proof. unfold tokenize. by intros ->. Qed.

Section Vocabulary.
Context `{FL : Floats}.

(** After the loop of [_read_docs], every line read has its node id
    registered and its tokens in the vocabulary. *)
Lemma _read_docs_lines_registered lines : ∀ s s',
  for_each _read_docs_line s lines = Ok s' →
  (∀ id i, node_id_index_dict (base s) !! id = Some i →
           node_id_index_dict (base s') !! id = Some i) ∧
  (∀ id i, token_id_index_dict (tokenizer s) !! id = Some i →
           token_id_index_dict (tokenizer s') !! id = Some i) ∧
  tokenizer_class (tokenizer s') = tokenizer_class (tokenizer s) ∧
  ∀ line, line ∈ lines →
    ∃ node_id text token_ids,
      re_split_ws_1 line = [node_id; text] ∧
      is_Some (node_id_index_dict (base s') !! node_id) ∧
      tokenize (tokenizer s') text = Ok token_ids ∧
      ∀ id, id ∈ token_ids → is_Some (token_id_index_dict (tokenizer s') !! id).
Proof.
  induction lines as [|line rest IH]; intros s s' Hrun; cbn [for_each] in Hrun.
  - simplify_eq. repeat split; try done. intros line Hin. by apply elem_of_nil in Hin.
  - destruct (_read_docs_line s line) as [s1|] eqn:E; [|discriminate].
    cbn [bind] in Hrun.
    destruct (_read_docs_line_tables _ _ _ E) as (_ & _ & _ & M1 & M2 & M3).
    destruct (IH _ _ Hrun) as (N1 & N2 & N3 & Hreg).
    split; [auto |]. split; [auto |]. split; [congruence |].
    intros l [->|Hin]%elem_of_cons; [|by apply Hreg].
    assert (Hcut : ∃ node_id text token_ids,
               re_split_ws_1 line = [node_id; text] ∧
               tokenize (tokenizer s) text = Ok token_ids).
    { revert E. unfold _read_docs_line, tokenize_to_indices.
      destruct (re_split_ws_1 line) as [|node_id [|text [|? ?]]] eqn:Ecut;
        try discriminate.
      destruct (get_or_create_node_index (base s) N_TYPE_NODE node_id).
      destruct (tokenize (tokenizer s) text) as [token_ids|] eqn:Etok; [|discriminate].
      intros _. by exists node_id, text, token_ids. }
    destruct Hcut as (node_id & text & token_ids & Hcut & Htok).
    assert (Hs1 : is_Some (node_id_index_dict (base s1) !! node_id) ∧
                  ∀ id, id ∈ token_ids →
                        is_Some (token_id_index_dict (tokenizer s1) !! id)).
    { rewrite (_read_docs_line_cut s line node_id text token_ids Hcut Htok) in E.
      injection E as <-. simpl. split.
      - pose proof (get_or_create_node_index_lookup (base s) N_TYPE_NODE node_id) as Hn.
        simpl in Hn. eauto.
      - intros id Hid.
        pose proof (get_or_create_token_indices_registered token_ids (tokenizer s))
          as Hr.
        apply list_elem_of_lookup in Hid as [k Hk].
        destruct (Forall2_lookup_l _ _ _ _ _ Hr Hk) as (i & _ & Hi). eauto. }
    destruct Hs1 as [[i Hi] Htoks].
    exists node_id, text, token_ids. split; [done |]. split; [eauto |]. split.
    + rewrite <- Htok. apply tokenize_class. congruence.
    + intros id Hid. destruct (Htoks id Hid) as [k Hk]. eauto.
Qed.

(** X21.  After a construction that succeeds, every line of [docs.txt]
    is a node id and a text, the node id is registered, and the text is
    encoded by the tokenizer of the dataset without creation of indices:
    the call with [create_token_index=False] succeeds, and with or
    without creation the tokenizer stays as it is. *)
Theorem documents_encode_without_creation
    (dir : DataDir) (fmt : string) (b : bool) (tok : option Tokenizer)
    (ds : GraphDataset) (lines : list string) (line : string) :
  GraphDataset_init dir fmt b tok = Ok ds →
  docs_txt dir = Some lines →
  line ∈ lines →
  ∃ node_id text l,
    re_split_ws_1 line = [node_id; text] ∧
    is_Some (node_id_index_dict (base ds) !! node_id) ∧
    tokenize_to_indices (tokenizer ds) text false = Ok (l, tokenizer ds) ∧
    tokenize_to_indices (tokenizer ds) text true = Ok (l, tokenizer ds).
Proof.
  intros Hinit Hdocs Hin.
  destruct (GraphDataset_init_facts _ _ _ _ _ Hinit) as (s1 & Hd & Hf & _).
  destruct Hf as (_ & F2 & _ & _ & F5 & _).
  unfold _read_docs in Hd. simpl in Hd. rewrite Hdocs in Hd. simpl in Hd.
  destruct (_read_docs_lines_registered _ _ _ Hd) as (_ & _ & _ & Hreg).
  destruct (Hreg line Hin) as (node_id & text & token_ids & Hcut & Hn & Ht & Hall).
  rewrite F2, F5.
  assert (Hl : ∃ l, Forall2 (fun id i => token_id_index_dict (tokenizer s1) !! id = Some i)
                            token_ids l).
  { clear Ht. induction token_ids as [|a rest IH]; [by exists [] |].
    destruct (Hall a) as [i Hi]; [by left |].
    destruct IH as [l Hl]; [intros id Hid; apply Hall; by right |].
    exists (i :: l). by constructor. }
  destruct Hl as [l Hl]. destruct (get_token_indices_known _ _ _ Hl) as [H1 H2].
  exists node_id, text, l. split; [done |]. split; [done |].
  unfold tokenize_to_indices. rewrite Ht. simpl. by rewrite H1, H2.
Qed.

End Vocabulary.

(** ** The file that the format does not select *)

Lemma for_each_map {S A : Type} (body : S → A → result S) (f : S → S) :
  (∀ s x, body (f s) x = result_map f (body s x)) →
  ∀ xs s, for_each body (f s) xs = result_map f (for_each body s xs).
Proof.
  intros Hbody. induction xs as [|x xs IH]; intros s; simpl; [done |].
  rewrite Hbody. destruct (body s x) as [s1|]; simpl; [apply IH | done].
Qed.

Section OtherFile.
Context `{FL : Floats}.

Lemma _read_docs_line_data_dir d s line :
  _read_docs_line (with_data_dir s d) line
  = result_map (fun s' => with_data_dir s' d) (_read_docs_line s line).
Proof.
  unfold _read_docs_line.
  destruct (re_split_ws_1 line) as [|node_id [|sentence [|? ?]]]; try done.
  simpl. destruct (get_or_create_node_index (base s) N_TYPE_NODE node_id) as [i g].
  by destruct (tokenize_to_indices (tokenizer s) sentence true) as [[l t]|].
Qed.

Lemma _read_labels_line_data_dir d s line :
  _read_labels_line (with_data_dir s d) line
  = result_map (fun s' => with_data_dir s' d) (_read_labels_line s line).
Proof.
  unfold _read_labels_line.
  destruct (str_split line) as [|node_id [|label_id [|? ?]]]; try done.
  simpl. destruct (ignore_featureless_node s).
  - destruct (get_node_index (base s) N_TYPE_NODE node_id) as [i|]; [|done]. simpl.
    by destruct (get_or_create_node_index (base s) N_TYPE_LABEL label_id).
  - simpl. destruct (get_or_create_node_index (base s) N_TYPE_NODE node_id) as [i g].
    by destruct (get_or_create_node_index g N_TYPE_LABEL label_id).
Qed.

Lemma _read_adjedges_neighbor_data_dir d i0 s node_id1 :
  _read_adjedges_neighbor i0 (with_data_dir s d) node_id1
  = result_map (fun s' => with_data_dir s' d) (_read_adjedges_neighbor i0 s node_id1).
Proof.
  unfold _read_adjedges_neighbor. simpl.
  destruct (ignore_featureless_node s &&
            negb (has_node_id (base s) N_TYPE_NODE node_id1)); [done |].
  destruct (get_or_create_node_index (base s) N_TYPE_NODE node_id1) as [i1 g].
  by destruct (decide (i0 ≠ i1)).
Qed.

Lemma _read_adjedges_line_data_dir d s line :
  _read_adjedges_line (with_data_dir s d) line
  = result_map (fun s' => with_data_dir s' d) (_read_adjedges_line s line).
Proof.
  unfold _read_adjedges_line.
  destruct (str_split line) as [|node_id0 neighbors]; [done |]. simpl.
  destruct (ignore_featureless_node s &&
            negb (has_node_id (base s) N_TYPE_NODE node_id0)); [done |].
  destruct (get_or_create_node_index (base s) N_TYPE_NODE node_id0) as [i0 g].
  apply (for_each_map (_read_adjedges_neighbor i0) (fun s' => with_data_dir s' d)
           (_read_adjedges_neighbor_data_dir d i0) neighbors (with_base s g)).
Qed.

Lemma _read_edgelist_line_data_dir d s w line :
  _read_edgelist_line (with_data_dir s d, w) line
  = result_map (fun st => (with_data_dir (fst st) d, snd st))
               (_read_edgelist_line (s, w) line).
Proof.
  unfold _read_edgelist_line.
  destruct (item (str_split line) 0) as [node_id0|]; [|done]. simpl.
  destruct (item (str_split line) 1) as [node_id1|]; [|done]. simpl.
  match goal with |- context [bind ?r _] => destruct r as [w1|] end; [|done].
  simpl.
  destruct (ignore_featureless_node s &&
            negb (has_node_id (base s) N_TYPE_NODE node_id0)); [done |].
  destruct (get_or_create_node_index (base s) N_TYPE_NODE node_id0) as [i0 g].
  destruct (ignore_featureless_node s && negb (has_node_id g N_TYPE_NODE node_id1));
    [done |].
  destruct (get_or_create_node_index g N_TYPE_NODE node_id1) as [i1 g1].
  destruct (decide (i0 ≠ i1)); [|done]. by destruct w1.
Qed.

(** X14.  The structure file that the format does not select is not
    read: two directories with the same [docs.txt], the same
    [labels.txt] and the same structure file of the format give the
    same error, or the same dataset up to the directory stored in it. *)
Theorem unselected_file_not_read
    (dir dir' : DataDir) (fmt : string) (b : bool) (tok : option Tokenizer) :
  docs_txt dir' = docs_txt dir →
  labels_txt dir' = labels_txt dir →
  (fmt = FORMAT_ADJEDGES → adjedges_txt dir' = adjedges_txt dir) →
  (fmt ≠ FORMAT_ADJEDGES → edgelist_txt dir' = edgelist_txt dir) →
  GraphDataset_init dir' fmt b tok
  = result_map (fun ds => with_data_dir ds dir') (GraphDataset_init dir fmt b tok).
Proof.
  intros Hdocs Hlabels Hadj Hedge.
  set (f := fun s : GraphDataset => with_data_dir s dir').
  assert (Hd : ∀ s, data_dir s = dir →
                    _read_docs (f s) = result_map f (_read_docs s)).
  { intros s Hs. unfold _read_docs. simpl. rewrite Hs, Hdocs.
    destruct (docs_txt dir) as [lines|]; [|done]. simpl.
    apply (for_each_map _read_docs_line f (_read_docs_line_data_dir dir')). }
  assert (Hl : ∀ s, data_dir s = dir →
                    _read_labels (f s) = result_map f (_read_labels s)).
  { intros s Hs. unfold _read_labels. simpl. rewrite Hs, Hlabels.
    destruct (labels_txt dir) as [lines|]; [|done]. simpl.
    apply (for_each_map _read_labels_line f (_read_labels_line_data_dir dir')). }
  assert (Hst : ∀ s, data_dir s = dir → data_format s = fmt →
                     _read_structure (f s) = result_map f (_read_structure s)).
  { intros s Hs Hfmt. unfold _read_structure. simpl. rewrite Hfmt.
    destruct (decide (fmt = FORMAT_ADJEDGES)) as [He|Hne].
    - unfold _read_adjedges. simpl. rewrite Hs, (Hadj He).
      destruct (adjedges_txt dir) as [lines|]; [|done]. simpl.
      apply (for_each_map _read_adjedges_line f (_read_adjedges_line_data_dir dir')).
    - unfold _read_edgelist. simpl. rewrite Hs, (Hedge Hne).
      destruct (edgelist_txt dir) as [lines|]; [|done]. simpl.
      assert (Hm : for_each _read_edgelist_line (with_data_dir s dir', None) lines
                   = result_map (fun st => (with_data_dir (fst st) dir', snd st))
                                (for_each _read_edgelist_line (s, None) lines)).
      { apply (for_each_map _read_edgelist_line
                 (fun st => (with_data_dir (fst st) dir', snd st)))
          with (s := (s, None)).
        intros [s0 w0] x. apply _read_edgelist_line_data_dir. }
      unfold f. rewrite Hm.
      by destruct (for_each _read_edgelist_line (s, None) lines) as [[s2 w2]|]. }
  unfold GraphDataset_init.
  change (GraphDataset_init_fields dir' fmt b tok)
    with (f (GraphDataset_init_fields dir fmt b tok)).
  rewrite Hd by done.
  destruct (_read_docs (GraphDataset_init_fields dir fmt b tok)) as [s1|] eqn:E1;
    [|done].
  pose proof (_read_docs_fields _ _ E1) as (F1 & F2). simpl in F1, F2.
  pose proof (_read_docs_facts _ _ E1) as (D1 & _). simpl in D1.
  simpl. rewrite Hl by done.
  destruct (_read_labels s1) as [s2|] eqn:E2; [|done].
  destruct (_read_labels_frame _ _ D1 E2) as [(_ & _ & G1 & G2 & _) _].
  simpl. apply Hst; congruence.
Qed.

End OtherFile.

(** ** The order of the node and label indices *)

Lemma first_seen_cons seen a rest :
  first_seen seen (a :: rest)
  = first_seen seen [a] ++ first_seen (seen ++ first_seen seen [a]) rest.
Proof.
  simpl. destruct (decide (a ∈ seen)); simpl; [by rewrite app_nil_r | done].
Qed.

Lemma table_lists_step (d : gmap string nat) order (k0 : string) :
  table_lists d order →
  table_lists (match d !! k0 with
               | Some _ => d
               | None => <[k0 := size d]> d
               end)
              (order ++ first_seen order [k0]).
Proof.
  intros [Hsize Hbij]. destruct (d !! k0) as [i|] eqn:E.
  - assert (Hin : k0 ∈ order).
    { apply list_elem_of_lookup. exists i. by apply Hbij. }
    simpl. rewrite decide_True by done. rewrite app_nil_r. by split.
  - assert (Hnin : k0 ∉ order).
    { intros [i Hi]%list_elem_of_lookup. apply Hbij in Hi. congruence. }
    simpl. rewrite decide_False by done. split.
    + rewrite map_size_insert_None by done. rewrite length_app. simpl. lia.
    + intros k' i. destruct (decide (k0 = k')) as [<-|Hne].
      * rewrite lookup_insert_eq. split.
        -- intros [= <-]. rewrite Hsize, lookup_app_r by done.
           by rewrite Nat.sub_diag.
        -- intros Hi. destruct (decide (i < length order)) as [Hlt|Hge].
           ++ rewrite lookup_app_l in Hi by done.
              destruct Hnin. apply list_elem_of_lookup. eauto.
           ++ apply lookup_lt_Some in Hi as Hlt. rewrite length_app in Hlt.
              simpl in Hlt. f_equal. lia.
      * rewrite lookup_insert_ne by done. rewrite Hbij. split.
        -- intros Hi. rewrite lookup_app_l; [done |]. by eapply lookup_lt_Some.
        -- intros Hi. destruct (decide (i < length order)) as [Hlt|Hge].
           ++ by rewrite lookup_app_l in Hi.
           ++ rewrite lookup_app_r in Hi by lia.
              destruct (i - length order) as [|j]; simpl in Hi; [congruence | done].
Qed.

Section Order.
Context `{FL : Floats}.

Lemma _read_docs_line_node_table s line s' :
  _read_docs_line s line = Ok s' →
  node_id_index_dict (base s')
  = match node_id_index_dict (base s) !! doc_node_id line with
    | Some _ => node_id_index_dict (base s)
    | None => <[doc_node_id line := size (node_id_index_dict (base s))]>
                (node_id_index_dict (base s))
    end.
Proof.
  unfold _read_docs_line, doc_node_id.
  destruct (re_split_ws_1 line) as [|node_id [|sentence [|? ?]]]; try discriminate.
  unfold get_or_create_node_index. simpl.
  destruct (tokenize_to_indices (tokenizer s) sentence true) as [[l t]|].
  - by destruct (node_id_index_dict (base s) !! node_id); intros [= <-].
  - by destruct (node_id_index_dict (base s) !! node_id).
Qed.

Lemma _read_docs_lines_node_table lines : ∀ s s' order,
  for_each _read_docs_line s lines = Ok s' →
  table_lists (node_id_index_dict (base s)) order →
  table_lists (node_id_index_dict (base s'))
              (order ++ first_seen order (map doc_node_id lines)).
Proof.
  induction lines as [|line rest IH]; intros s s' order Hrun Ht; cbn [for_each] in Hrun.
  - simplify_eq. simpl. by rewrite app_nil_r.
  - destruct (_read_docs_line s line) as [s1|] eqn:E; [|discriminate].
    cbn [bind] in Hrun.
    pose proof (table_lists_step _ _ (doc_node_id line) Ht) as Ht1.
    rewrite <- (_read_docs_line_node_table _ _ _ E) in Ht1.
    specialize (IH _ _ _ Hrun Ht1).
    cbn [map]. rewrite first_seen_cons. by rewrite app_assoc.
Qed.

Lemma _read_labels_line_label_table s line s' :
  ignore_featureless_node s = true →
  _read_labels_line s line = Ok s' →
  label_id_index_dict (base s')
  = match label_id_index_dict (base s) !! line_label_id line with
    | Some _ => label_id_index_dict (base s)
    | None => <[line_label_id line := size (label_id_index_dict (base s))]>
                (label_id_index_dict (base s))
    end.
Proof.
  intros Hflag. unfold _read_labels_line, line_label_id.
  destruct (str_split line) as [|node_id [|label_id [|? ?]]]; try discriminate.
  rewrite Hflag. unfold get_node_index. simpl.
  destruct (node_id_index_dict (base s) !! node_id) as [i|]; [|discriminate].
  simpl. unfold get_or_create_node_index. simpl.
  by destruct (label_id_index_dict (base s) !! label_id); intros [= <-].
Qed.

Lemma _read_labels_lines_label_table lines : ∀ s s' order,
  ignore_featureless_node s = true →
  for_each _read_labels_line s lines = Ok s' →
  table_lists (label_id_index_dict (base s)) order →
  table_lists (label_id_index_dict (base s'))
              (order ++ first_seen order (map line_label_id lines)).
Proof.
  induction lines as [|line rest IH]; intros s s' order Hflag Hrun Ht;
    cbn [for_each] in Hrun.
  - simplify_eq. simpl. by rewrite app_nil_r.
  - destruct (_read_labels_line s line) as [s1|] eqn:E; [|discriminate].
    cbn [bind] in Hrun.
    pose proof (table_lists_step _ _ (line_label_id line) Ht) as Ht1.
    rewrite <- (_read_labels_line_label_table _ _ _ Hflag E) in Ht1.
    destruct (_read_labels_line_frame _ _ _ Hflag E) as [(F1 & _) _].
    assert (Hflag1 : ignore_featureless_node s1 = true) by congruence.
    specialize (IH _ _ _ Hflag1 Hrun Ht1).
    cbn [map]. rewrite first_seen_cons. by rewrite app_assoc.
Qed.

Lemma table_lists_empty : table_lists ∅ [].
Proof.
  split; [done |]. intros id k. rewrite lookup_empty, lookup_nil. split; discriminate.
Qed.

(** X23.  The NODE indices follow [docs.txt]: in a dataset returned by
    the constructor, index [k] is given to the [k]-th distinct node id
    of the lines of [docs.txt], in the order of first occurrence, and
    [num_nodes] is the number of distinct node ids. *)
Theorem node_indices_follow_documents
    (dir : DataDir) (fmt : string) (b : bool) (tok : option Tokenizer)
    (ds : GraphDataset) (lines : list string) :
  GraphDataset_init dir fmt b tok = Ok ds →
  docs_txt dir = Some lines →
  let order := first_seen [] (map doc_node_id lines) in
  num_nodes (base ds) N_TYPE_NODE = length order ∧
  ∀ id k, node_id_index_dict (base ds) !! id = Some k ↔ order !! k = Some id.
Proof.
  intros Hinit Hdocs order.
  destruct (GraphDataset_init_facts _ _ _ _ _ Hinit) as (s1 & Hd & Hf & _).
  destruct Hf as (_ & _ & _ & _ & F5 & _).
  unfold _read_docs in Hd. simpl in Hd. rewrite Hdocs in Hd. simpl in Hd.
  pose proof (_read_docs_lines_node_table _ _ _ [] Hd table_lists_empty) as [H1 H2].
  unfold num_nodes. simpl. rewrite F5. by split.
Qed.

(** X24.  The label indices follow [labels.txt]: in a dataset returned
    by the constructor, index [k] is given to the [k]-th distinct label
    id of the lines of [labels.txt], in the order of first occurrence,
    and [num_classes()] is the number of distinct label ids. *)
Theorem label_indices_follow_labels
    (dir : DataDir) (fmt : string) (b : bool) (tok : option Tokenizer)
    (ds : GraphDataset) (lines : list string) :
  GraphDataset_init dir fmt b tok = Ok ds →
  labels_txt dir = Some lines →
  let order := first_seen [] (map line_label_id lines) in
  num_classes ds = length order ∧
  ∀ id k, label_id_index_dict (base ds) !! id = Some k ↔ order !! k = Some id.
Proof.
  intros Hinit Hlab order.
  destruct (GraphDataset_init_structure _ _ _ _ _ Hinit)
    as (s1 & s2 & Hd & Hl & _ & _ & _ & Hflag & _ & L1 & _ & _ & _ & _ & Hk & _).
  pose proof (_read_docs_fields _ _ Hd) as (F1 & _). simpl in F1.
  destruct Hk as (_ & _ & _ & _ & _ & K6 & _).
  unfold _read_labels in Hl. rewrite F1, Hlab in Hl. simpl in Hl.
  assert (Ht : table_lists (label_id_index_dict (base s1)) [])
    by (rewrite L1; apply table_lists_empty).
  pose proof (_read_labels_lines_label_table _ _ _ [] Hflag Hl Ht) as [H1 H2].
  unfold num_classes, num_nodes. simpl. rewrite K6. by split.
Qed.

(** X22.  [feature_matrix] raises [NotImplementedError] when
    [bag_of_words] is false.  In the bag-of-words mode it raises
    [KeyError] on a dataset in which some NODE index has no features,
    the NODE indices before it having theirs. *)
Theorem feature_matrix_errors (s : GraphDataset) (sparse : bool) :
  feature_matrix s false sparse = Raise NotImplementedError ∧
  ∀ n, n < num_nodes (base s) N_TYPE_NODE →
       (∀ m, m < n → ∃ l, node_attr_dict (base s) !! (N_TYPE_NODE, m, "features")
                          = Some (AttrList l)) →
       node_attr_dict (base s) !! (N_TYPE_NODE, n, "features") = None →
       feature_matrix s true sparse = Raise KeyError.
Proof.
  split; [reflexivity |]. intros n Hn Hbefore Hnone. unfold feature_matrix.
  replace (num_nodes (base s) N_TYPE_NODE)
    with (n + S (num_nodes (base s) N_TYPE_NODE - S n)) by lia.
  rewrite seq_app, for_each_app. change ([], [], []) with (coo_of []).
  rewrite feature_loop_coo.
  - cbn [bind]. simpl seq. cbn [for_each].
    unfold feature_matrix_node at 1, get_node_attr. by rewrite Hnone.
  - intros m Hm. apply Hbefore. apply elem_of_seq in Hm. lia.
Qed.

End Order.

(** ** The properties on the example data *)

#[local] Existing Instance DecimalFloats.

Lemma result_get_ok {A : Type} (d : A) (r : result A) :
  is_ok r = true → r = Ok (result_get d r).
Proof. destruct r; [reflexivity | discriminate]. Defined.

Example WhiteSpaceTokenizer_example :
  WhiteSpaceTokenizer_tokenize ("  a  b" +:+ String "009"%char "c ") = ["a"; "b"; "c"].
Proof. reflexivity. Qed.

Example adjedges_example :
  edge_list (base (constructed example_dir FORMAT_ADJEDGES))
  = [(N_TYPE_NODE, N_TYPE_NODE, 0, 1, 1%Z)].
Proof. vm_compute; reflexivity. Qed.

Example edgelist_example :
  edge_list (base (constructed example_dir FORMAT_EDGELIST))
  = [(N_TYPE_NODE, N_TYPE_NODE, 0, 1, 2%Z); (N_TYPE_NODE, N_TYPE_NODE, 1, 0, 2%Z)].
Proof. vm_compute; reflexivity. Qed.

Example feature_matrix_example :
  feature_matrix (constructed example_dir FORMAT_ADJEDGES) true false
  = Ok (DenseMatrix [[1; 1; 1; 0; 0]; [1; 0; 0; 1; 1]]%Z).
Proof. vm_compute; reflexivity. Qed.

Example feature_matrix_repeated_token :
  feature_matrix (constructed repeated_token_dir FORMAT_ADJEDGES) true false
  = Ok (DenseMatrix [[2; 1]]%Z).
Proof. vm_compute; reflexivity. Qed.

Example label_matrix_example :
  label_list_or_matrix (constructed example_dir FORMAT_ADJEDGES) true
  = Ok (LabelMatrix [[1; 0]; [0; 1]]%Z).
Proof. vm_compute; reflexivity. Qed.

Lemma no_self_loops_witness :
  GraphDataset_init example_dir FORMAT_ADJEDGES true None
  = Ok (constructed example_dir FORMAT_ADJEDGES) ∧
  Forall proper_edge (edge_list (base (constructed example_dir FORMAT_ADJEDGES))).
Proof.
  assert (Hinit : GraphDataset_init example_dir FORMAT_ADJEDGES true None
                  = Ok (constructed example_dir FORMAT_ADJEDGES))
    by (apply result_get_ok; vm_compute; reflexivity).
  split; [exact Hinit |].
  exact (proj1 (no_self_loops example_dir FORMAT_ADJEDGES true None _ Hinit)).
Defined.

Lemma labels_unknown_node_witness :
  str_split ("n9 L1" +:+ nl) = ["n9"; "L1"] ∧
  has_node_id (base (after_docs unknown_label_dir FORMAT_ADJEDGES)) N_TYPE_NODE "n9"
  = false ∧
  GraphDataset_init unknown_label_dir FORMAT_ADJEDGES true None = Raise KeyError.
Proof.
  assert (Hs : str_split ("n9 L1" +:+ nl) = ["n9"; "L1"]) by (vm_compute; reflexivity).
  assert (Hn : has_node_id (base (after_docs unknown_label_dir FORMAT_ADJEDGES))
                           N_TYPE_NODE "n9" = false) by (vm_compute; reflexivity).
  split; [exact Hs |]. split; [exact Hn |].
  refine (proj2 (proj2 (labels_unknown_node
                          (after_docs unknown_label_dir FORMAT_ADJEDGES)
                          ("n9 L1" +:+ nl) "n9" "L1" Hs Hn))
                unknown_label_dir FORMAT_ADJEDGES true None
                ["n1 L0" +:+ nl; "n9 L1" +:+ nl] _ _ _ _).
  - apply result_get_ok. vm_compute; reflexivity.
  - reflexivity.
  - repeat constructor.
  - right. left.
Defined.

Lemma edgelist_weight_carried_over_witness :
  let s1 := after_docs example_dir FORMAT_EDGELIST in
  let s2 := after_labels example_dir FORMAT_EDGELIST in
  let ds := constructed example_dir FORMAT_EDGELIST in
  let pre := ["n1 n2 2" +:+ nl] in
  let line := "n2 n1" +:+ nl in
  let st := result_get (s2, None) (for_each _read_edgelist_line (s2, None) pre) in
  (_read_docs (GraphDataset_init_fields example_dir FORMAT_EDGELIST true None) = Ok s1 ∧
   _read_labels s1 = Ok s2 ∧
   edgelist_txt example_dir = Some (pre ++ line :: []) ∧
   for_each _read_edgelist_line (s2, None) pre = Ok st ∧
   last_parsed_weight pre = Some 2%Z ∧
   str_split line = ["n2"; "n1"] ∧
   GraphDataset_init example_dir FORMAT_EDGELIST true None = Ok ds) ∧
  (node_id_index_dict (base (fst st)) !! "n2" = Some 1 ∧
   node_id_index_dict (base (fst st)) !! "n1" = Some 0 ∧
   edge_list (base (fst st)) = [(N_TYPE_NODE, N_TYPE_NODE, 0, 1, 2%Z)]) ∧
  _read_edgelist s2 = Ok ds ∧
  ∃ rest, edge_list (base ds) =
          edge_list (base (fst st)) ++ (N_TYPE_NODE, N_TYPE_NODE, 1, 0, 2%Z) :: rest.
Proof.
  intros s1 s2 ds pre line st.
  assert (H1 : _read_docs (GraphDataset_init_fields example_dir FORMAT_EDGELIST
                                                     true None) = Ok s1)
    by (apply result_get_ok; vm_compute; reflexivity).
  assert (H2 : _read_labels s1 = Ok s2)
    by (apply result_get_ok; vm_compute; reflexivity).
  assert (H3 : edgelist_txt example_dir = Some (pre ++ line :: [])) by reflexivity.
  assert (H4 : for_each _read_edgelist_line (s2, None) pre = Ok st)
    by (apply result_get_ok; vm_compute; reflexivity).
  assert (H5 : last_parsed_weight pre = Some 2%Z) by (vm_compute; reflexivity).
  assert (H6 : str_split line = ["n2"; "n1"]) by (vm_compute; reflexivity).
  assert (H7 : GraphDataset_init example_dir FORMAT_EDGELIST true None = Ok ds)
    by (apply result_get_ok; vm_compute; reflexivity).
  assert (K0 : node_id_index_dict (base (fst st)) !! "n2" = Some 1)
    by (vm_compute; reflexivity).
  assert (K1 : node_id_index_dict (base (fst st)) !! "n1" = Some 0)
    by (vm_compute; reflexivity).
  assert (K2 : edge_list (base (fst st)) = [(N_TYPE_NODE, N_TYPE_NODE, 0, 1, 2%Z)])
    by (vm_compute; reflexivity).
  split; [exact (conj H1 (conj H2 (conj H3 (conj H4 (conj H5 (conj H6 H7)))))) |].
  split; [exact (conj K0 (conj K1 K2)) |].
  destruct (edgelist_weight_carried_over example_dir FORMAT_EDGELIST true None
              s1 s2 ds pre [] st line "n2" "n1" 2%Z
              ltac:(discriminate) H1 H2 H3 H4 H5 H6 H7)
    as (_ & Hedge & s' & rest & _ & _ & _ & Hknown).
  split; [exact Hedge |]. exists rest. apply (Hknown 1 0 K0 K1). lia.
Defined.

Lemma edgelist_unbound_weight_witness :
  (_read_docs (GraphDataset_init_fields unweighted_dir FORMAT_EDGELIST true None)
   = Ok (after_docs unweighted_dir FORMAT_EDGELIST) ∧
   _read_labels (after_docs unweighted_dir FORMAT_EDGELIST)
   = Ok (after_labels unweighted_dir FORMAT_EDGELIST) ∧
   str_split ("n1 n2" +:+ nl) = ["n1"; "n2"] ∧
   GraphDataset_init unweighted_dir FORMAT_EDGELIST true None = Raise UnboundLocalError) ∧
  (_read_docs (GraphDataset_init_fields self_pair_dir FORMAT_EDGELIST true None)
   = Ok (after_docs self_pair_dir FORMAT_EDGELIST) ∧
   _read_labels (after_docs self_pair_dir FORMAT_EDGELIST)
   = Ok (after_labels self_pair_dir FORMAT_EDGELIST) ∧
   str_split ("n1 n1" +:+ nl) = ["n1"; "n1"] ∧
   ∃ s', _read_edgelist_line (after_labels self_pair_dir FORMAT_EDGELIST, None)
                             ("n1 n1" +:+ nl) = Ok (s', None) ∧
         edge_list (base s')
         = edge_list (base (after_labels self_pair_dir FORMAT_EDGELIST))).
Proof.
  split.
  - assert (H1 : _read_docs (GraphDataset_init_fields unweighted_dir FORMAT_EDGELIST
                                                       true None)
                 = Ok (after_docs unweighted_dir FORMAT_EDGELIST))
      by (apply result_get_ok; vm_compute; reflexivity).
    assert (H2 : _read_labels (after_docs unweighted_dir FORMAT_EDGELIST)
                 = Ok (after_labels unweighted_dir FORMAT_EDGELIST))
      by (apply result_get_ok; vm_compute; reflexivity).
    assert (H3 : str_split ("n1 n2" +:+ nl) = ["n1"; "n2"])
      by (vm_compute; reflexivity).
    split; [exact H1 |]. split; [exact H2 |]. split; [exact H3 |].
    refine (proj2 (proj1 (proj2 (edgelist_unbound_weight
                            unweighted_dir FORMAT_EDGELIST true None
                            (after_docs unweighted_dir FORMAT_EDGELIST)
                            (after_labels unweighted_dir FORMAT_EDGELIST)
                            [] []
                            (after_labels unweighted_dir FORMAT_EDGELIST, None)
                            ("n1 n2" +:+ nl) "n1" "n2" 0 1 _ H1 H2 _ _ _ H3 _ _)) _)).
    + discriminate.
    + reflexivity.
    + constructor.
    + reflexivity.
    + vm_compute; reflexivity.
    + vm_compute; reflexivity.
    + lia.
  - assert (H1 : _read_docs (GraphDataset_init_fields self_pair_dir FORMAT_EDGELIST
                                                       true None)
                 = Ok (after_docs self_pair_dir FORMAT_EDGELIST))
      by (apply result_get_ok; vm_compute; reflexivity).
    assert (H2 : _read_labels (after_docs self_pair_dir FORMAT_EDGELIST)
                 = Ok (after_labels self_pair_dir FORMAT_EDGELIST))
      by (apply result_get_ok; vm_compute; reflexivity).
    assert (H3 : str_split ("n1 n1" +:+ nl) = ["n1"; "n1"])
      by (vm_compute; reflexivity).
    split; [exact H1 |]. split; [exact H2 |]. split; [exact H3 |].
    destruct (proj1 (proj2 (proj2 (edgelist_unbound_weight
                self_pair_dir FORMAT_EDGELIST true None
                (after_docs self_pair_dir FORMAT_EDGELIST)
                (after_labels self_pair_dir FORMAT_EDGELIST)
                [] []
                (after_labels self_pair_dir FORMAT_EDGELIST, None)
                ("n1 n1" +:+ nl) "n1" "n1" 0 0
                ltac:(discriminate) H1 H2 eq_refl ltac:(constructor) eq_refl H3
                ltac:(vm_compute; reflexivity) ltac:(vm_compute; reflexivity))))
              eq_refl)
      as (s' & Hstep & _ & He & _).
    exists s'. split; [exact Hstep | exact He].
Defined.

(** C9, as stated, fails on a line that names one node twice: the line
    has two fields, it is the first line of the edge list, its endpoint
    is known after the labels pass, and the construction succeeds, with
    no edge. *)
Lemma edgelist_self_pair_constructs :
  edgelist_txt self_pair_dir = Some ["n1 n1" +:+ nl] ∧
  str_split ("n1 n1" +:+ nl) = ["n1"; "n1"] ∧
  _read_labels (after_docs self_pair_dir FORMAT_EDGELIST)
  = Ok (after_labels self_pair_dir FORMAT_EDGELIST) ∧
  has_node_id (base (after_labels self_pair_dir FORMAT_EDGELIST)) N_TYPE_NODE "n1" = true ∧
  GraphDataset_init self_pair_dir FORMAT_EDGELIST true None
  = Ok (constructed self_pair_dir FORMAT_EDGELIST) ∧
  edge_list (base (constructed self_pair_dir FORMAT_EDGELIST)) = [] ∧
  GraphDataset_init self_pair_dir FORMAT_EDGELIST true None ≠ Raise UnboundLocalError.
Proof.
  assert (Hinit : GraphDataset_init self_pair_dir FORMAT_EDGELIST true None
                  = Ok (constructed self_pair_dir FORMAT_EDGELIST))
    by (apply result_get_ok; vm_compute; reflexivity).
  split; [reflexivity |]. split; [vm_compute; reflexivity |].
  split; [apply result_get_ok; vm_compute; reflexivity |].
  split; [vm_compute; reflexivity |].
  split; [exact Hinit |]. split; [vm_compute; reflexivity |].
  rewrite Hinit. discriminate.
Qed.

Lemma feature_matrix_bag_of_words_witness :
  GraphDataset_init example_dir FORMAT_ADJEDGES true None
  = Ok (constructed example_dir FORMAT_ADJEDGES) ∧
  ∃ m, feature_matrix (constructed example_dir FORMAT_ADJEDGES) true true
       = Ok (SparseMatrix m) ∧
       csr_shape m = (2, 5).
Proof.
  assert (Hinit : GraphDataset_init example_dir FORMAT_ADJEDGES true None
                  = Ok (constructed example_dir FORMAT_ADJEDGES))
    by (apply result_get_ok; vm_compute; reflexivity).
  split; [exact Hinit |].
  destruct (feature_matrix_bag_of_words example_dir FORMAT_ADJEDGES true None
              (constructed example_dir FORMAT_ADJEDGES))
    as (m & Hsp & Hsh & _); [discriminate | exact Hinit |].
  exists m. split; [exact Hsp |]. rewrite Hsh. vm_compute; reflexivity.
Defined.

Lemma nodes_created_by_docs_pass_witness :
  GraphDataset_init example_dir FORMAT_EDGELIST true None
  = Ok (constructed example_dir FORMAT_EDGELIST) ∧
  ∀ n, n < num_nodes (base (constructed example_dir FORMAT_EDGELIST)) N_TYPE_NODE →
       ∃ l, get_node_attr (base (constructed example_dir FORMAT_EDGELIST))
                          N_TYPE_NODE n "features" = Ok (AttrList l).
Proof.
  assert (Hinit : GraphDataset_init example_dir FORMAT_EDGELIST true None
                  = Ok (constructed example_dir FORMAT_EDGELIST))
    by (apply result_get_ok; vm_compute; reflexivity).
  split; [exact Hinit |].
  exact (proj1 (proj2 (proj2 (nodes_created_by_docs_pass
                                example_dir FORMAT_EDGELIST true None _ Hinit)))).
Defined.

(** ** The further properties on the example data *)

Lemma tokenize_to_indices_again_witness :
  let r := result_get ([], EnglishWordTokenizer)
             (tokenize_to_indices EnglishWordTokenizer "the cat the" true) in
  tokenize_to_indices EnglishWordTokenizer "the cat the" true = Ok (fst r, snd r) ∧
  fst r = [0; 1; 0] ∧
  tokenize_to_indices (snd r) "the cat the" false = Ok (fst r, snd r).
Proof.
  intros r.
  assert (H1 : tokenize_to_indices EnglishWordTokenizer "the cat the" true
               = Ok (fst r, snd r)).
  { rewrite <- surjective_pairing. apply result_get_ok. vm_compute; reflexivity. }
  split; [exact H1 |]. split; [vm_compute; reflexivity |].
  exact (proj1 (tokenize_to_indices_again EnglishWordTokenizer "the cat the"
                  (fst r) (snd r) H1)).
Defined.

Lemma tokenize_to_indices_decode_witness :
  let r := result_get ([], EnglishWordTokenizer)
             (tokenize_to_indices EnglishWordTokenizer "the cat the" true) in
  ∃ token_ids,
    tokenize EnglishWordTokenizer "the cat the" = Ok token_ids ∧
    length (fst r) = length token_ids ∧
    map (fun i => token_index_id_dict (snd r) !! i) (fst r) = map Some token_ids.
Proof.
  intros r.
  assert (H1 : tokenize_to_indices EnglishWordTokenizer "the cat the" true
               = Ok (fst r, snd r)).
  { rewrite <- surjective_pairing. apply result_get_ok. vm_compute; reflexivity. }
  assert (H0 : Tokenizer_reachable EnglishWordTokenizer)
    by (exists EnglishWordTokenizer_class, []; reflexivity).
  exact (tokenize_to_indices_decode EnglishWordTokenizer "the cat the"
           (fst r) (snd r) H0 H1).
Defined.

Lemma tokenize_to_indices_lookup_only_witness :
  tokenize EnglishWordTokenizer "the cat" = Ok ["the"; "cat"] ∧
  tokenize_to_indices EnglishWordTokenizer "the cat" false = Raise KeyError.
Proof.
  assert (H1 : tokenize EnglishWordTokenizer "the cat" = Ok ["the"; "cat"])
    by (vm_compute; reflexivity).
  split; [exact H1 |].
  apply (proj1 (tokenize_to_indices_lookup_only EnglishWordTokenizer "the cat"
                  ["the"; "cat"] H1)).
  exists "the". split; [left | reflexivity].
Defined.

Lemma read_docs_line_effect_witness :
  let s := GraphDataset_init_fields example_dir FORMAT_ADJEDGES true None in
  let line := "n1 the cat sat" +:+ nl in
  re_split_ws_1 line = ["n1"; "the cat sat" +:+ nl] ∧
  tokenize (tokenizer s) ("the cat sat" +:+ nl) = Ok ["the"; "cat"; "sat"] ∧
  ∃ s', _read_docs_line s line = Ok s' ∧
        node_id_index_dict (base s') !! "n1" = Some 0 ∧
        get_node_attr (base s') N_TYPE_NODE 0 "features" = Ok (AttrList [0; 1; 2]).
Proof.
  intros s line.
  assert (H1 : re_split_ws_1 line = ["n1"; "the cat sat" +:+ nl])
    by (vm_compute; reflexivity).
  assert (H2 : tokenize (tokenizer s) ("the cat sat" +:+ nl) = Ok ["the"; "cat"; "sat"])
    by (vm_compute; reflexivity).
  split; [exact H1 |]. split; [exact H2 |].
  destruct (read_docs_line_effect s line "n1" ("the cat sat" +:+ nl)
              ["the"; "cat"; "sat"] H1 H2) as (s' & Hs & Hn & Ha & _).
  exists s'. split; [exact Hs |]. split; [exact Hn | exact Ha].
Defined.

Lemma adjedges_line_under_filter_witness :
  let s := after_labels example_dir FORMAT_ADJEDGES in
  let line := "n1 n2 n3" +:+ nl in
  ignore_featureless_node s = true ∧
  str_split line = ["n1"; "n2"; "n3"] ∧
  node_id_index_dict (base s) !! "n1" = Some 0 ∧
  omap (known_neighbor_edge (node_id_index_dict (base s)) 0) ["n2"; "n3"]
  = [(N_TYPE_NODE, N_TYPE_NODE, 0, 1, 1%Z)] ∧
  ∃ s', _read_adjedges_line s line = Ok s' ∧
        edge_list (base s') =
        edge_list (base s) ++
        omap (known_neighbor_edge (node_id_index_dict (base s)) 0) ["n2"; "n3"].
Proof.
  intros s line.
  assert (H1 : ignore_featureless_node s = true) by (vm_compute; reflexivity).
  assert (H2 : str_split line = ["n1"; "n2"; "n3"]) by (vm_compute; reflexivity).
  assert (H3 : node_id_index_dict (base s) !! "n1" = Some 0)
    by (vm_compute; reflexivity).
  split; [exact H1 |]. split; [exact H2 |]. split; [exact H3 |].
  split; [vm_compute; reflexivity |].
  destruct (proj2 (adjedges_line_under_filter s line "n1" ["n2"; "n3"] H1 H2) 0 H3)
    as (s' & Hs & _ & He).
  exists s'. split; [exact Hs | exact He].
Defined.

Lemma whitespace_line_witness :
  let s := GraphDataset_init_fields example_dir FORMAT_ADJEDGES true None in
  all_chars isspace nl = true ∧
  _read_adjedges_line s nl = Raise IndexError ∧
  _read_labels_line s nl = Raise ValueError.
Proof.
  intros s.
  assert (H1 : all_chars isspace nl = true) by reflexivity.
  split; [exact H1 |].
  destruct (whitespace_line s None nl H1) as (Ha & _ & Hl & _).
  split; [exact Ha | exact Hl].
Defined.

Lemma construction_needs_files_witness :
  GraphDataset_init example_dir FORMAT_EDGELIST true None
  = Ok (constructed example_dir FORMAT_EDGELIST) ∧
  is_Some (edgelist_txt example_dir).
Proof.
  assert (Hinit : GraphDataset_init example_dir FORMAT_EDGELIST true None
                  = Ok (constructed example_dir FORMAT_EDGELIST))
    by (apply result_get_ok; vm_compute; reflexivity).
  split; [exact Hinit |].
  apply (proj1 (proj2 (proj2 (proj2 (construction_needs_files
           example_dir FORMAT_EDGELIST true None _ Hinit))))).
  discriminate.
Defined.

Lemma unselected_file_not_read_witness :
  GraphDataset_init example_dir_adjedges_only FORMAT_ADJEDGES true None
  = result_map (fun ds => with_data_dir ds example_dir_adjedges_only)
               (GraphDataset_init example_dir FORMAT_ADJEDGES true None).
Proof.
  apply (unselected_file_not_read example_dir example_dir_adjedges_only
           FORMAT_ADJEDGES true None).
  - reflexivity.
  - reflexivity.
  - intros _. reflexivity.
  - intros Hne. exfalso. apply Hne. reflexivity.
Defined.

Lemma passes_change_witness :
  GraphDataset_init example_dir FORMAT_ADJEDGES true None
  = Ok (constructed example_dir FORMAT_ADJEDGES) ∧
  ∃ s2, _read_structure s2 = Ok (constructed example_dir FORMAT_ADJEDGES) ∧
        Keeps s2 (constructed example_dir FORMAT_ADJEDGES).
Proof.
  assert (Hinit : GraphDataset_init example_dir FORMAT_ADJEDGES true None
                  = Ok (constructed example_dir FORMAT_ADJEDGES))
    by (apply result_get_ok; vm_compute; reflexivity).
  split; [exact Hinit |].
  destruct (passes_change example_dir FORMAT_ADJEDGES true None _ Hinit)
    as (s1 & s2 & _ & _ & Hs & _ & _ & Hk).
  exists s2. split; [exact Hs | exact Hk].
Defined.

Lemma unlabelled_document_node_witness :
  GraphDataset_init unlabelled_dir FORMAT_ADJEDGES true None
  = Ok (constructed unlabelled_dir FORMAT_ADJEDGES) ∧
  node_id_index_dict (base (constructed unlabelled_dir FORMAT_ADJEDGES)) !! "n2"
  = Some 1 ∧
  label_list_or_matrix (constructed unlabelled_dir FORMAT_ADJEDGES) true
  = Raise KeyError.
Proof.
  assert (Hinit : GraphDataset_init unlabelled_dir FORMAT_ADJEDGES true None
                  = Ok (constructed unlabelled_dir FORMAT_ADJEDGES))
    by (apply result_get_ok; vm_compute; reflexivity).
  assert (Hn : node_id_index_dict (base (constructed unlabelled_dir FORMAT_ADJEDGES))
               !! "n2" = Some 1) by (vm_compute; reflexivity).
  split; [exact Hinit |]. split; [exact Hn |].
  apply (proj1 (unlabelled_document_node unlabelled_dir FORMAT_ADJEDGES true None
                  _ ["n1 L0" +:+ nl] "n2" 1 true Hinit eq_refl Hn
                  ltac:(intros line label_id Hin Heq;
                        apply list_elem_of_singleton in Hin; subst line;
                        vm_compute in Heq; discriminate Heq))).
Defined.

Lemma label_list_or_matrix_one_hot_witness :
  GraphDataset_init example_dir FORMAT_ADJEDGES true None
  = Ok (constructed example_dir FORMAT_ADJEDGES) ∧
  ∃ labels,
    label_list_or_matrix (constructed example_dir FORMAT_ADJEDGES) false
    = Ok (LabelVector (map AttrInt labels)).
Proof.
  assert (Hinit : GraphDataset_init example_dir FORMAT_ADJEDGES true None
                  = Ok (constructed example_dir FORMAT_ADJEDGES))
    by (apply result_get_ok; vm_compute; reflexivity).
  assert (HN : num_nodes (base (constructed example_dir FORMAT_ADJEDGES)) N_TYPE_NODE
               = 2) by (vm_compute; reflexivity).
  split; [exact Hinit |].
  destruct (label_list_or_matrix_one_hot example_dir FORMAT_ADJEDGES true None
              _ Hinit) as (labels & _ & _ & Hv & _).
  - intros n Hn. rewrite HN in Hn.
    destruct n as [|[|n]]; [vm_compute; eauto | vm_compute; eauto | lia].
  - exists labels. exact Hv.
Defined.

Lemma edges_in_range_witness :
  GraphDataset_init example_dir FORMAT_EDGELIST true None
  = Ok (constructed example_dir FORMAT_EDGELIST) ∧
  Forall (edge_in_range
            (num_nodes (base (constructed example_dir FORMAT_EDGELIST)) N_TYPE_NODE))
         (edge_list (base (constructed example_dir FORMAT_EDGELIST))).
Proof.
  assert (Hinit : GraphDataset_init example_dir FORMAT_EDGELIST true None
                  = Ok (constructed example_dir FORMAT_EDGELIST))
    by (apply result_get_ok; vm_compute; reflexivity).
  split; [exact Hinit |].
  exact (proj2 (proj2 (edges_in_range example_dir FORMAT_EDGELIST true None _ Hinit))).
Defined.

Lemma adjedges_unit_weights_witness :
  GraphDataset_init example_dir FORMAT_ADJEDGES true None
  = Ok (constructed example_dir FORMAT_ADJEDGES) ∧
  Forall (fun e => snd e = 1%Z)
         (edge_list (base (constructed example_dir FORMAT_ADJEDGES))).
Proof.
  assert (Hinit : GraphDataset_init example_dir FORMAT_ADJEDGES true None
                  = Ok (constructed example_dir FORMAT_ADJEDGES))
    by (apply result_get_ok; vm_compute; reflexivity).
  split; [exact Hinit |].
  exact (adjedges_unit_weights example_dir true None _ Hinit).
Defined.

Lemma feature_matrix_row_sum_witness :
  GraphDataset_init repeated_token_dir FORMAT_ADJEDGES true None
  = Ok (constructed repeated_token_dir FORMAT_ADJEDGES) ∧
  ∃ m, feature_matrix (constructed repeated_token_dir FORMAT_ADJEDGES) true true
       = Ok (SparseMatrix m).
Proof.
  assert (Hinit : GraphDataset_init repeated_token_dir FORMAT_ADJEDGES true None
                  = Ok (constructed repeated_token_dir FORMAT_ADJEDGES))
    by (apply result_get_ok; vm_compute; reflexivity).
  split; [exact Hinit |].
  destruct (feature_matrix_row_sum repeated_token_dir FORMAT_ADJEDGES true None
              (constructed repeated_token_dir FORMAT_ADJEDGES))
    as (m & Hsp & _); [discriminate | exact Hinit |].
  exists m. exact Hsp.
Defined.

Lemma documents_encode_without_creation_witness :
  GraphDataset_init example_dir FORMAT_ADJEDGES true None
  = Ok (constructed example_dir FORMAT_ADJEDGES) ∧
  ∃ node_id text l,
    re_split_ws_1 ("n2 the dog ran" +:+ nl) = [node_id; text] ∧
    tokenize_to_indices (tokenizer (constructed example_dir FORMAT_ADJEDGES)) text false
    = Ok (l, tokenizer (constructed example_dir FORMAT_ADJEDGES)).
Proof.
  assert (Hinit : GraphDataset_init example_dir FORMAT_ADJEDGES true None
                  = Ok (constructed example_dir FORMAT_ADJEDGES))
    by (apply result_get_ok; vm_compute; reflexivity).
  split; [exact Hinit |].
  destruct (documents_encode_without_creation example_dir FORMAT_ADJEDGES true None
              _ ["n1 the cat sat" +:+ nl; "n2 the dog ran" +:+ nl]
              ("n2 the dog ran" +:+ nl) Hinit eq_refl)
    as (node_id & text & l & Hc & _ & Ht & _).
  - right. left.
  - exists node_id, text, l. split; [exact Hc | exact Ht].
Defined.

Lemma node_indices_follow_documents_witness :
  GraphDataset_init example_dir FORMAT_ADJEDGES true None
  = Ok (constructed example_dir FORMAT_ADJEDGES) ∧
  first_seen [] (map doc_node_id ["n1 the cat sat" +:+ nl; "n2 the dog ran" +:+ nl])
  = ["n1"; "n2"] ∧
  num_nodes (base (constructed example_dir FORMAT_ADJEDGES)) N_TYPE_NODE
  = length (first_seen [] (map doc_node_id
                             ["n1 the cat sat" +:+ nl; "n2 the dog ran" +:+ nl])).
Proof.
  assert (Hinit : GraphDataset_init example_dir FORMAT_ADJEDGES true None
                  = Ok (constructed example_dir FORMAT_ADJEDGES))
    by (apply result_get_ok; vm_compute; reflexivity).
  split; [exact Hinit |]. split; [vm_compute; reflexivity |].
  exact (proj1 (node_indices_follow_documents example_dir FORMAT_ADJEDGES true None
                  _ _ Hinit eq_refl)).
Defined.

Lemma label_indices_follow_labels_witness :
  GraphDataset_init example_dir FORMAT_ADJEDGES true None
  = Ok (constructed example_dir FORMAT_ADJEDGES) ∧
  first_seen [] (map line_label_id ["n1 L0" +:+ nl; "n2 L1" +:+ nl]) = ["L0"; "L1"] ∧
  num_classes (constructed example_dir FORMAT_ADJEDGES)
  = length (first_seen [] (map line_label_id ["n1 L0" +:+ nl; "n2 L1" +:+ nl])).
Proof.
  assert (Hinit : GraphDataset_init example_dir FORMAT_ADJEDGES true None
                  = Ok (constructed example_dir FORMAT_ADJEDGES))
    by (apply result_get_ok; vm_compute; reflexivity).
  split; [exact Hinit |]. split; [vm_compute; reflexivity |].
  exact (proj1 (label_indices_follow_labels example_dir FORMAT_ADJEDGES true None
                  _ _ Hinit eq_refl)).
Defined.
